(** * zkMLTrack backend: a shallow embedding of [backend/app.py]

    The Flask backend drives one EZKL proving run per uploaded model and
    optionally deploys a verifier contract and registers the model on a
    chain.  This file embeds the orchestration code of [app.py] (artifact
    paths, the status ledger, the stage sequence, the routes) as Rocq
    functions over an explicit world (file system, clock, random draws,
    chain) and proves properties of it.

    Conventions.
    - Python exceptions are values of [exn]; a computation that may raise
      returns [res], and stateful code lives in the monad [M].
    - Path strings are [string]; the file system maps canonical paths
      (component lists from the root) to nodes.
    - Python floats are Rocq's primitive binary64 floats.
    - Libraries the backend imports (ezkl, pandas, json, solcx, web3) are
      not part of the repository: they are fields of the record
      [externals]. *)

From Stdlib Require Import Floats PrimFloat SpecFloat FloatOps ZArith Ascii String.
From Stdlib.Strings Require Import Byte.
From stdpp Require Import gmap strings list sorting pretty.

Open Scope string_scope.
Open Scope Z_scope.

#[local] Set Warnings "-clear-no-such-hyp".

(** ** Exceptions and results *)

(** A raised exception: the name of its class, [str(exc)], and the
    names of the classes its class derives from, nearest first. *)
Record exn := MkExn {
  exn_cls : string;
  exn_str : string;
  exn_bases : list string;
}.

(** The parent of each class of Python's built-in exception hierarchy,
    with [asyncio.CancelledError] and pyo3's [PanicException], which
    derive from [BaseException] as well. *)
Definition builtin_parent : list (string * string) :=
  [("BaseExceptionGroup", "BaseException"); ("GeneratorExit", "BaseException");
   ("KeyboardInterrupt", "BaseException"); ("SystemExit", "BaseException");
   ("CancelledError", "BaseException"); ("PanicException", "BaseException");
   ("Exception", "BaseException");
   ("ArithmeticError", "Exception"); ("FloatingPointError", "ArithmeticError");
   ("OverflowError", "ArithmeticError"); ("ZeroDivisionError", "ArithmeticError");
   ("AssertionError", "Exception"); ("AttributeError", "Exception");
   ("BufferError", "Exception"); ("EOFError", "Exception");
   ("ImportError", "Exception"); ("ModuleNotFoundError", "ImportError");
   ("LookupError", "Exception"); ("IndexError", "LookupError");
   ("KeyError", "LookupError"); ("MemoryError", "Exception");
   ("NameError", "Exception"); ("UnboundLocalError", "NameError");
   ("OSError", "Exception"); ("BlockingIOError", "OSError");
   ("ChildProcessError", "OSError"); ("ConnectionError", "OSError");
   ("BrokenPipeError", "ConnectionError"); ("ConnectionAbortedError", "ConnectionError");
   ("ConnectionRefusedError", "ConnectionError");
   ("ConnectionResetError", "ConnectionError");
   ("FileExistsError", "OSError"); ("FileNotFoundError", "OSError");
   ("InterruptedError", "OSError"); ("IsADirectoryError", "OSError");
   ("NotADirectoryError", "OSError"); ("PermissionError", "OSError");
   ("ProcessLookupError", "OSError"); ("TimeoutError", "OSError");
   ("ReferenceError", "Exception"); ("RuntimeError", "Exception");
   ("NotImplementedError", "RuntimeError"); ("RecursionError", "RuntimeError");
   ("StopIteration", "Exception"); ("StopAsyncIteration", "Exception");
   ("SyntaxError", "Exception"); ("SystemError", "Exception");
   ("TypeError", "Exception"); ("ValueError", "Exception");
   ("UnicodeError", "ValueError"); ("UnicodeDecodeError", "UnicodeError");
   ("UnicodeEncodeError", "UnicodeError"); ("JSONDecodeError", "ValueError")].

Fixpoint parent_of (cls : string) (l : list (string * string)) : option string :=
  match l with
  | [] => None
  | (c, p) :: l' => if String.eqb cls c then Some p else parent_of cls l'
  end.

(** The classes [cls] derives from.  A class that is not built in (the
    error classes of web3, solcx, pandas) is taken to derive from
    [Exception] directly; an exception with another ancestry is written
    with [MkExn]. *)
Fixpoint ancestors (fuel : nat) (cls : string) : list string :=
  match fuel with
  | O => []
  | S n =>
      match parent_of cls builtin_parent with
      | Some p => p :: ancestors n p
      | None => if String.eqb cls "BaseException" then []
                else ["Exception"; "BaseException"]
      end
  end.

Definition builtin_bases (cls : string) : list string := ancestors 8 cls.

(** An exception of a built-in class. *)
Abbreviation Exn cls msg := (MkExn cls msg (builtin_bases cls)).

(** [isinstance(e, cls)]. *)
Definition is_instance (e : exn) (cls : string) : bool :=
  String.eqb (exn_cls e) cls || existsb (String.eqb cls) (exn_bases e).

Inductive res (A : Type) := Ok (a : A) | Raise (e : exn).
Arguments Ok {A} a.
Arguments Raise {A} e.

Definition res_bind {A B} (r : res A) (k : A → res B) : res B :=
  match r with
  | Ok a => k a
  | Raise e => Raise e
  end.

Definition is_ok {A} (r : res A) : bool :=
  match r with Ok _ => true | Raise _ => false end.

Notation "'let?' x := r 'in' k" := (res_bind r (λ x, k))
  (at level 10, x name, r at level 100, k at level 200).

(** ** Strings as Python uses them here *)

(** Truthiness of an [Optional[str]]: [None] and the empty string are
    falsy. *)
Definition truthy_str (o : option string) : bool :=
  match o with
  | Some s => negb (String.eqb s "")
  | None => false
  end.

Definition sep : Ascii.ascii := "/"%char.

Definition dquote : string := String "034"%char EmptyString.

Definition hex_digit (n : N) : ascii :=
  match String.get (N.to_nat n) "0123456789abcdef" with
  | Some c => c
  | None => "0"%char
  end.

(** One character of [repr(s)] between the quotes [q].  Characters
    beyond ASCII are taken to be printable. *)
Definition repr_char (q c : ascii) : string :=
  let n := N_of_ascii c in
  let bs := "092"%char in
  if Ascii.eqb c bs then String bs (String bs EmptyString)
  else if Ascii.eqb c q then String bs (String c EmptyString)
  else if (n =? 9)%N then String bs "t"
  else if (n =? 10)%N then String bs "n"
  else if (n =? 13)%N then String bs "r"
  else if ((n <? 32)%N || (n =? 127)%N)%bool then
    String bs (String "x"%char
      (String (hex_digit (n / 16)) (String (hex_digit (n mod 16)) EmptyString)))
  else String c EmptyString.

Fixpoint repr_body (q : ascii) (s : string) : string :=
  match s with
  | EmptyString => EmptyString
  | String c s' => repr_char q c +:+ repr_body q s'
  end.

Fixpoint has_char (c : ascii) (s : string) : bool :=
  match s with
  | EmptyString => false
  | String c' s' => Ascii.eqb c c' || has_char c s'
  end.

(** [repr(s)] of a string: in single quotes, or in double quotes when
    the string holds a single quote and no double quote. *)
Definition py_repr (s : string) : string :=
  let q := if has_char "'"%char s && negb (has_char "034"%char s)
           then "034"%char else "'"%char in
  String q (repr_body q s +:+ String q EmptyString).

Definition startswith_sep (s : string) : bool :=
  match s with
  | String c _ => Ascii.eqb c sep
  | EmptyString => false
  end.

Fixpoint endswith_sep (s : string) : bool :=
  match s with
  | EmptyString => false
  | String c EmptyString => Ascii.eqb c sep
  | String _ s' => endswith_sep s'
  end.

(** [sub in s], naive search. *)
Fixpoint contains (sub s : string) : bool :=
  String.prefix sub s ||
  match s with
  | EmptyString => false
  | String _ s' => contains sub s'
  end.

(** The characters of [s] hold no separator. *)
Fixpoint no_sep (s : string) : bool :=
  match s with
  | EmptyString => true
  | String c s' => negb (Ascii.eqb c sep) && no_sep s'
  end.

(** [posixpath.join(a, b)]. *)
Definition path_join (a b : string) : string :=
  if startswith_sep b then b
  else if String.eqb a "" || endswith_sep a then a +:+ b
  else a +:+ "/" +:+ b.

(** [s.split("/")]: the components between separators. *)
Fixpoint split_path (s : string) : list string :=
  match s with
  | EmptyString => [EmptyString]
  | String c s' =>
      if Ascii.eqb c sep then EmptyString :: split_path s'
      else match split_path s' with
           | h :: t => String c h :: t
           | [] => [String c EmptyString]
           end
  end.

(** ** File system *)

Inductive node :=
  | File (data : list Byte.byte)
  | Dir.

(** Canonical paths are component lists from the root; the root itself is
    the empty list and always a directory. *)
Definition node_at (f : gmap (list string) node) (p : list string) : option node :=
  match p with
  | [] => Some Dir
  | _ => f !! p
  end.

Definition is_dir_at (f : gmap (list string) node) (p : list string) : bool :=
  match node_at f p with
  | Some Dir => true
  | _ => false
  end.

(** One component of a path walk. *)
Definition step_comp (cur : list string) (c : string) : list string :=
  if String.eqb c "" || String.eqb c "." then cur
  else if String.eqb c ".." then removelast cur
  else cur ++ [c].

Definition not_a_dir (f : gmap (list string) node) (cur : list string) (path : string) : exn :=
  match node_at f cur with
  | Some (File _) =>
      Exn "NotADirectoryError" ("[Errno 20] Not a directory: " +:+ py_repr path)
  | _ => Exn "FileNotFoundError" ("[Errno 2] No such file or directory: " +:+ py_repr path)
  end.

(** Kernel path resolution without symbolic links: every component is
    looked up in a directory. *)
Fixpoint walk (f : gmap (list string) node) (path : string)
    (cur : list string) (comps : list string) : res (list string) :=
  match comps with
  | [] => Ok cur
  | c :: rest =>
      if is_dir_at f cur then walk f path (step_comp cur c) rest
      else Raise (not_a_dir f cur path)
  end.

Definition start_dir (cwd : list string) (path : string) : list string :=
  if startswith_sep path then [] else cwd.

Definition resolve (f : gmap (list string) node) (cwd : list string)
    (path : string) : res (list string) :=
  if String.eqb path "" then
    Raise (Exn "FileNotFoundError" "[Errno 2] No such file or directory: ''")
  else walk f path (start_dir cwd path) (split_path path).

(** [os.path.isfile]: false on every error. *)
Definition isfile (f : gmap (list string) node) (cwd : list string) (path : string) : bool :=
  match resolve f cwd path with
  | Ok q => match node_at f q with Some (File _) => true | _ => false end
  | Raise _ => false
  end.

Definition isdir (f : gmap (list string) node) (cwd : list string) (path : string) : bool :=
  match resolve f cwd path with
  | Ok q => is_dir_at f q
  | Raise _ => false
  end.

(** [open(path, "rb").read()]. *)
Definition read_file (f : gmap (list string) node) (cwd : list string)
    (path : string) : res (list Byte.byte) :=
  match resolve f cwd path with
  | Ok q =>
      match node_at f q with
      | Some (File data) => Ok data
      | Some Dir =>
          Raise (Exn "IsADirectoryError" ("[Errno 21] Is a directory: " +:+ py_repr path))
      | None =>
          Raise (Exn "FileNotFoundError"
                   ("[Errno 2] No such file or directory: " +:+ py_repr path))
      end
  | Raise e => Raise e
  end.

(** [open(path, "wb").write(data)]: creates or truncates the file; the
    parent must be a directory. *)
Definition write_file (f : gmap (list string) node) (cwd : list string)
    (path : string) (data : list Byte.byte) : res (gmap (list string) node) :=
  match resolve f cwd path with
  | Ok q =>
      match node_at f q with
      | Some Dir =>
          Raise (Exn "IsADirectoryError" ("[Errno 21] Is a directory: " +:+ py_repr path))
      | Some (File _) => Ok (<[q := File data]> f)
      | None =>
          if is_dir_at f (removelast q) then Ok (<[q := File data]> f)
          else Raise (not_a_dir f (removelast q) path)
      end
  | Raise e => Raise e
  end.

(** The components after the first one that is not empty. *)
Fixpoint after_first (comps : list string) : list string :=
  match comps with
  | [] => []
  | c :: rest => if String.eqb c "" then after_first rest else rest
  end.

(** The error of [os.makedirs(path, exist_ok=True)] when [path] runs into
    a file that is followed by the components [rest].  If the file ends
    the path, up to separators, [mkdir(path)] finds it existing.
    Otherwise a directory is to be made under the file: [makedirs] has
    called itself on the parents of [path] down to the first name under
    the file, and the error names that parent, or [path] itself when the
    first name is the last. *)
Definition makedirs_error (path : string) (rest : list string) : exn :=
  if forallb (String.eqb "") rest then
    Exn "FileExistsError" ("[Errno 17] File exists: " +:+ py_repr path)
  else
    let later := after_first rest in
    let name :=
      if forallb (String.eqb "") later then path
      else substring 0 (String.length path - S (String.length (String.concat "/" later)))
                     path in
    Exn "NotADirectoryError" ("[Errno 20] Not a directory: " +:+ py_repr name).

(** [os.makedirs(path, exist_ok=True)]: walks the path and creates every
    missing directory; a component that exists as a file is an error. *)
Fixpoint mkdirs (f : gmap (list string) node) (path : string)
    (cur : list string) (comps : list string) : res (gmap (list string) node) :=
  match comps with
  | [] => Ok f
  | c :: rest =>
      let nxt := step_comp cur c in
      match node_at f nxt with
      | Some Dir => mkdirs f path nxt rest
      | Some (File _) => Raise (makedirs_error path rest)
      | None => mkdirs (<[nxt := Dir]> f) path nxt rest
      end
  end.

Definition makedirs (f : gmap (list string) node) (cwd : list string)
    (path : string) : res (gmap (list string) node) :=
  if String.eqb path "" then
    Raise (Exn "FileNotFoundError" "[Errno 2] No such file or directory: ''")
  else mkdirs f path (start_dir cwd path) (split_path path).

(** ** Floats *)

(** [m * 2^e] rounded to the nearest integer, ties to even, as Python's
    [round] does on a float. *)
Definition round_half_even (m : positive) (e : Z) : Z :=
  if 0 <=? e then Z.pos m * 2 ^ e
  else
    let d := 2 ^ (- e) in
    let q := Z.pos m / d in
    let r := Z.pos m mod d in
    match 2 * r ?= d with
    | Lt => q
    | Gt => q + 1
    | Eq => if Z.even q then q else q + 1
    end.

(** [int(round(x))] for a float [x]. *)
Definition py_round (x : float) : res Z :=
  match Prim2SF x with
  | S754_zero _ => Ok 0
  | S754_finite s m e =>
      let n := round_half_even m e in Ok (if s then - n else n)
  | S754_infinity _ =>
      Raise (Exn "OverflowError" "cannot convert float infinity to integer")
  | S754_nan => Raise (Exn "ValueError" "cannot convert float NaN to integer")
  end.

(** [accuracy or 0.0]: [None], [0.0] and [-0.0] are falsy. *)
Definition or_zero (accuracy : option float) : float :=
  match accuracy with
  | Some x => if PrimFloat.eqb x 0%float then 0%float else x
  | None => 0%float
  end.

(** Line 253: [int(round((accuracy or 0.0) * 1_000_000))]. *)
Definition accuracy_scaled (accuracy : option float) : res Z :=
  py_round (PrimFloat.mul (or_zero accuracy) 1000000%float).

(** ** Python values

    The values [json.load] returns and [json.dump] accepts.  Dictionaries
    keep their insertion order. *)
#[local] Set Warnings "-register-all".
Inductive json :=
  | JNull
  | JBool (b : bool)
  | JInt (z : Z)
  | JNum (x : float)
  | JStr (s : string)
  | JArr (l : list json)
  | JObj (m : list (string * json)).

Definition type_name (j : json) : string :=
  match j with
  | JNull => "NoneType"
  | JBool _ => "bool"
  | JInt _ => "int"
  | JNum _ => "float"
  | JStr _ => "str"
  | JArr _ => "list"
  | JObj _ => "dict"
  end.

(** [bool(j)]. *)
Definition truthy (j : json) : bool :=
  match j with
  | JNull => false
  | JBool b => b
  | JInt z => negb (z =? 0)
  | JNum x => negb (PrimFloat.eqb x 0%float)
  | JStr s => negb (String.eqb s "")
  | JArr l => match l with [] => false | _ => true end
  | JObj m => match m with [] => false | _ => true end
  end.

Fixpoint assoc (k : string) (m : list (string * json)) : option json :=
  match m with
  | [] => None
  | (k', v) :: m' => if String.eqb k k' then Some v else assoc k m'
  end.

(** [j.get(k, default)]: only dictionaries have [get]. *)
Definition py_get (j : json) (k : string) (default : json) : res json :=
  match j with
  | JObj m => Ok (match assoc k m with Some v => v | None => default end)
  | _ => Raise (Exn "AttributeError"
                  ("'" +:+ type_name j +:+ "' object has no attribute 'get'"))
  end.

(** [j[k]] for a string key. *)
Definition py_item (j : json) (k : string) : res json :=
  match j with
  | JObj m =>
      match assoc k m with
      | Some v => Ok v
      | None => Raise (Exn "KeyError" ("'" +:+ k +:+ "'"))
      end
  | JArr _ => Raise (Exn "TypeError" "list indices must be integers or slices, not str")
  | JStr _ => Raise (Exn "TypeError" "string indices must be integers, not 'str'")
  | _ => Raise (Exn "TypeError" ("'" +:+ type_name j +:+ "' object is not subscriptable"))
  end.

(** [j[0]]. *)
Definition py_first (j : json) : res json :=
  match j with
  | JArr (x :: _) => Ok x
  | JArr [] => Raise (Exn "IndexError" "list index out of range")
  | JStr (String c _) => Ok (JStr (String c EmptyString))
  | JStr EmptyString => Raise (Exn "IndexError" "string index out of range")
  | JObj _ => Raise (Exn "KeyError" "0")
  | _ => Raise (Exn "TypeError" ("'" +:+ type_name j +:+ "' object is not subscriptable"))
  end.

Fixpoint chars (s : string) : list json :=
  match s with
  | EmptyString => []
  | String c s' => JStr (String c EmptyString) :: chars s'
  end.

(** [iter(j)]: the elements of a list, the characters of a string, the
    keys of a dictionary. *)
Definition py_iter (j : json) : res (list json) :=
  match j with
  | JArr l => Ok l
  | JStr s => Ok (chars s)
  | JObj m => Ok (map (λ kv, JStr (fst kv)) m)
  | _ => Raise (Exn "TypeError" ("'" +:+ type_name j +:+ "' object is not iterable"))
  end.

Definition is_nan (x : float) : bool := negb (PrimFloat.eqb x x).

(** [numpy.argmax] on a float vector: the first maximum, a NaN counting
    as the maximum. *)
Fixpoint argmax_from (best : float) (best_i i : nat) (l : list float) : nat :=
  match l with
  | [] => best_i
  | x :: l' =>
      if PrimFloat.leb x best then argmax_from best best_i (S i) l'
      else if is_nan x then i
      else argmax_from x i (S i) l'
  end.

Definition argmax (l : list float) : res nat :=
  match l with
  | [] => Raise (Exn "ValueError" "attempt to get argmax of an empty sequence")
  | x :: l' => Ok (if is_nan x then 0%nat else argmax_from x 0%nat 1%nat l')
  end.

Fixpoint res_map {A B} (f : A → res B) (l : list A) : res (list B) :=
  match l with
  | [] => Ok []
  | x :: l' =>
      match f x with
      | Ok y =>
          match res_map f l' with
          | Ok ys => Ok (y :: ys)
          | Raise e => Raise e
          end
      | Raise e => Raise e
      end
  end.

(** ** Data of the backend *)

(** A value of the label column as pandas hands it out: an integer, a
    float or a boolean of numpy, or a string. *)
Inductive label :=
  | LInt (z : Z)
  | LFloat (x : float)
  | LBool (b : bool)
  | LStr (s : string).

(** The validation table ([pandas.DataFrame]): its number of columns and
    its rows, each a feature vector and the label of the last column. *)
Record dataframe := {
  df_ncols : nat;
  df_rows : list (list float * label);
}.

(** The status file's content (lines 111-116). *)
Record status_record := {
  st_step : string;
  st_message : string;
  st_error : option string;
  st_timestamp : string;
}.

Definition status_json (s : status_record) : json :=
  JObj [("step", JStr (st_step s));
        ("message", JStr (st_message s));
        ("error", match st_error s with Some e => JStr e | None => JNull end);
        ("timestamp", JStr (st_timestamp s))].

(** A transaction dictionary as [build_transaction] returns it. *)
Record txn := {
  tx_from : string;
  tx_nonce : Z;
  tx_gas : Z;
  tx_maxFeePerGas : Z;
  tx_maxPriorityFeePerGas : Z;
  tx_chainId : Z;
  tx_to : option string;
  tx_data : list Byte.byte;
}.

(** A [SignedTransaction]: web3 v5 names the payload [rawTransaction],
    v7 [raw_transaction]. *)
Record signed_txn := {
  sg_rawTransaction : option (list Byte.byte);
  sg_raw_transaction : option (list Byte.byte);
}.

Record receipt := {
  rc_status : Z;
  rc_contractAddress : option string;
  rc_transactionHash : string;
}.

(** The chain behind the HTTP provider: whether it answers, its id, the
    transaction count per account, the fate of the transactions that will
    be submitted next, the receipts by hash and the payloads broadcast so
    far. *)
Record chain := {
  ch_up : bool;
  ch_id : Z;
  ch_counts : gmap string Z;
  ch_next : list receipt;
  ch_mined : gmap string receipt;
  ch_sent : list (list Byte.byte);
}.

(** What can go wrong with a file write: the file cannot be opened and
    stays as it was, or the write fails after the file was opened and
    truncated, when only the first [written] bytes have reached it. *)
Inductive fault :=
  | FailOpen (e : exn)
  | FailWrite (e : exn) (written : nat).

(** What an observer of a run can see happen, in order. *)
Inductive event :=
  | EvStatus (s : status_record)
  | EvStage (name : string)
  | EvSend (raw : list Byte.byte).

Record world := {
  w_fs : gmap (list string) node;
  w_cwd : list string;
  w_clock : nat;
  w_faults : list (option fault);
  w_random : list Z;
  w_solc : list string;
  w_chain : chain;
  w_trace : list event;
}.

(** ** The monad of the backend: state and exceptions *)

Definition M (A : Type) : Type := world → res A * world.

Definition ret {A} (a : A) : M A := λ w, (Ok a, w).
Definition raise {A} (e : exn) : M A := λ w, (Raise e, w).
Definition bind {A B} (m : M A) (k : A → M B) : M B :=
  λ w, match m w with
       | (Ok a, w') => k a w'
       | (Raise e, w') => (Raise e, w')
       end.

Notation "x <- m ;; k" := (bind m (λ x, k))
  (at level 100, m at next level, right associativity).
Notation "m ;;; k" := (bind m (λ _, k))
  (at level 100, right associativity).

Definition lift {A} (r : res A) : M A := λ w, (r, w).

(** [try: m except cls as exc: h exc]: an exception that is not an
    instance of [cls] passes through. *)
Definition try_except {A} (cls : string) (m : M A) (h : exn → M A) : M A :=
  λ w, match m w with
       | (Ok a, w') => (Ok a, w')
       | (Raise e, w') => if is_instance e cls then h e w' else (Raise e, w')
       end.

Definition set_fs (f : gmap (list string) node) (w : world) : world :=
  {| w_fs := f; w_cwd := w_cwd w; w_clock := w_clock w; w_faults := w_faults w;
     w_random := w_random w; w_solc := w_solc w; w_chain := w_chain w;
     w_trace := w_trace w |}.

Definition set_chain (c : chain) (w : world) : world :=
  {| w_fs := w_fs w; w_cwd := w_cwd w; w_clock := w_clock w; w_faults := w_faults w;
     w_random := w_random w; w_solc := w_solc w; w_chain := c;
     w_trace := w_trace w |}.

(** Appends an event to the history. *)
Definition emit (ev : event) : M unit :=
  λ w, (Ok tt,
        {| w_fs := w_fs w; w_cwd := w_cwd w; w_clock := w_clock w;
           w_faults := w_faults w; w_random := w_random w; w_solc := w_solc w;
           w_chain := w_chain w; w_trace := w_trace w ++ [ev] |}).

(** [datetime.now(timezone.utc)]: reads the clock, which moves on. *)
Definition now : M nat :=
  λ w, (Ok (w_clock w),
        {| w_fs := w_fs w; w_cwd := w_cwd w; w_clock := S (w_clock w);
           w_faults := w_faults w; w_random := w_random w; w_solc := w_solc w;
           w_chain := w_chain w; w_trace := w_trace w |}).

(** [random.randint(0, 1_000_000)]: the next draw of the generator. *)
Definition randint : M Z :=
  λ w, (Ok (match w_random w with z :: _ => z | [] => 0 end),
        {| w_fs := w_fs w; w_cwd := w_cwd w; w_clock := w_clock w;
           w_faults := w_faults w; w_random := tail (w_random w);
           w_solc := w_solc w; w_chain := w_chain w; w_trace := w_trace w |}).

(** Takes the outcome the operating system has in store for the next
    file write: a fault makes it fail with an I/O error. *)
Definition next_fault : M (option fault) :=
  λ w, (Ok (match w_faults w with x :: _ => x | [] => None end),
        {| w_fs := w_fs w; w_cwd := w_cwd w; w_clock := w_clock w;
           w_faults := tail (w_faults w); w_random := w_random w;
           w_solc := w_solc w; w_chain := w_chain w; w_trace := w_trace w |}).

Definition os_isfile (path : string) : M bool :=
  λ w, (Ok (isfile (w_fs w) (w_cwd w) path), w).

Definition os_read (path : string) : M (list Byte.byte) :=
  λ w, (read_file (w_fs w) (w_cwd w) path, w).

(** [with open(path, "w") as fp: fp.write(data)]: opening creates or
    truncates the file; a write that fails leaves the bytes that got
    through. *)
Definition os_write (path : string) (data : list Byte.byte) : M unit :=
  x <- next_fault ;;
  λ w, match x with
       | Some (FailOpen e) => (Raise e, w)
       | Some (FailWrite e written) =>
           match write_file (w_fs w) (w_cwd w) path (take written data) with
           | Ok f => (Raise e, set_fs f w)
           | Raise e0 => (Raise e0, w)
           end
       | None =>
           match write_file (w_fs w) (w_cwd w) path data with
           | Ok f => (Ok tt, set_fs f w)
           | Raise e => (Raise e, w)
           end
       end.

(** A call into a library that works on files. *)
Definition on_files {A}
    (op : list string → gmap (list string) node → res A * gmap (list string) node) : M A :=
  λ w, let '(r, f) := op (w_cwd w) (w_fs w) in (r, set_fs f w).

(** [d[k]] on a dictionary of strings. *)
Definition getitem (d : gmap string string) (k : string) : M string :=
  match d !! k with
  | Some v => ret v
  | None => raise (Exn "KeyError" ("'" +:+ k +:+ "'"))
  end.

(** ** Configuration and libraries *)

(** The module-level settings read from the environment (lines 19-27). *)
Record config := {
  APP_ROOT : string;
  VALIDATION_CSV : string;
  CALIBRATION_SAMPLES : Z;
  GENERAL_CONTRACT_ADDRESS : option string;
  GENERAL_CONTRACT_ABI_PATH : string;
  WEB3_HTTP_PROVIDER : option string;
  WEB3_OPERATOR_KEY : option string;
  SOLC_VERSION : string;
  REGISTRY_FUNCTION_NAME : string;
}.

(** The arguments of the registry call (lines 263-267). *)
Record call_args := {
  ca_task_id : string;
  ca_model_hash : list Byte.byte;
  ca_verifier : string;
  ca_proof : list Byte.byte;
  ca_accuracy : Z;
}.

(** The libraries the backend calls.  An operation on files gets the
    working directory and the file system and returns its result and the
    file system it leaves. *)
Record externals := {
  json_dump_indent2 : json → list Byte.byte;
  json_dumps : json → list Byte.byte;
  json_loads : list Byte.byte → res json;
  isoformat : nat → string;
  float_of_str : string → res float;
  astype_float32 : float → float;
  read_csv : list Byte.byte → res dataframe;
  df_sample : dataframe → Z → Z → res (list (list float * label));
  sorted_numbers : list label → res (list label);
  lt_error_text : list label → string;
  numpy_type_name : label → string;
  json_dump_prefix : json → string → list Byte.byte;
  ezkl_gen_settings : string → string →
    list string → gmap (list string) node → res unit * gmap (list string) node;
  ezkl_calibrate_settings : string → string → string →
    list string → gmap (list string) node → res unit * gmap (list string) node;
  ezkl_compile_circuit : string → string → string →
    list string → gmap (list string) node → res unit * gmap (list string) node;
  ezkl_get_srs : string → string →
    list string → gmap (list string) node → res unit * gmap (list string) node;
  ezkl_gen_witness : string → string → string →
    list string → gmap (list string) node → res unit * gmap (list string) node;
  ezkl_setup : string → string → string →
    list string → gmap (list string) node → res unit * gmap (list string) node;
  ezkl_prove : string → string → string → string →
    list string → gmap (list string) node → res json * gmap (list string) node;
  ezkl_verify : string → string → string →
    list string → gmap (list string) node → res json * gmap (list string) node;
  ezkl_create_evm_verifier : string → string → string → string → string →
    list string → gmap (list string) node → res unit * gmap (list string) node;
  ezkl_felt_to_big_endian : json → res string;
  solcx_install_solc : string →
    list string → gmap (list string) node → res string * gmap (list string) node;
  solcx_compile_standard : list string → string → string → string → res json;
  sha256_digest : list Byte.byte → list Byte.byte;
  hexbytes : json → res (list Byte.byte);
  w3_from_key : string → res string;
  w3_to_checksum_address : string → res string;
  w3_encode_constructor : json → json → res (list Byte.byte);
  w3_has_function : json → string → bool;
  w3_encode_call : json → string → call_args → res (list Byte.byte);
  w3_sign_transaction : string → txn → res signed_txn;
}.

(** ** The chain as web3 sees it *)

Definition connection_error : exn :=
  Exn "ConnectionError" "HTTP provider is not reachable".

(** [web3.eth.get_transaction_count(address)]. *)
Definition get_transaction_count (address : string) : M Z :=
  λ w, if ch_up (w_chain w)
       then (Ok (default 0 (ch_counts (w_chain w) !! address)), w)
       else (Raise connection_error, w).

(** [web3.eth.chain_id]. *)
Definition chain_id : M Z :=
  λ w, if ch_up (w_chain w) then (Ok (ch_id (w_chain w)), w)
       else (Raise connection_error, w).

(** [web3.to_wei(n, "gwei")]. *)
Definition to_wei_gwei (n : Z) : Z := n * 1000000000.

(** [web3.eth.send_raw_transaction(raw)]: the chain takes the payload
    and decides the transaction's fate. *)
Definition send_raw_transaction (sender : string) (raw : list Byte.byte) : M string :=
  λ w, let c := w_chain w in
       if ch_up c then
         match ch_next c with
         | r :: rest =>
             (Ok (rc_transactionHash r),
              {| w_fs := w_fs w; w_cwd := w_cwd w; w_clock := w_clock w;
                 w_faults := w_faults w; w_random := w_random w; w_solc := w_solc w;
                 w_chain :=
                   {| ch_up := ch_up c; ch_id := ch_id c;
                      ch_counts :=
                        <[sender := default 0 (ch_counts c !! sender) + 1]> (ch_counts c);
                      ch_next := rest;
                      ch_mined := <[rc_transactionHash r := r]> (ch_mined c);
                      ch_sent := ch_sent c ++ [raw] |};
                 w_trace := w_trace w ++ [EvSend raw] |})
         | [] => (Raise (Exn "ValueError" "transaction rejected by the node"), w)
         end
       else (Raise connection_error, w).

(** [web3.eth.wait_for_transaction_receipt(tx_hash)]. *)
Definition wait_for_transaction_receipt (tx_hash : string) : M receipt :=
  λ w, if ch_up (w_chain w) then
         match ch_mined (w_chain w) !! tx_hash with
         | Some r => (Ok r, w)
         | None => (Raise (Exn "TimeExhausted" "transaction is not in the chain"), w)
         end
       else (Raise connection_error, w).

(** ** Helpers (lines 34-128) *)

(** [ensure_dir] (lines 34-36). *)
Definition ensure_dir (path : string) : M unit :=
  λ w, match makedirs (w_fs w) (w_cwd w) path with
       | Ok f => (Ok tt, set_fs f w)
       | Raise e => (Raise e, w)
       end.

(** The artifact names of lines 45-57, by role. *)
Definition artifact_names : list (string * string) :=
  [("model", "network.onnx"); ("settings", "settings.json");
   ("calibration", "calibration.json"); ("compiled", "network.ezkl");
   ("srs", "kzg.srs"); ("witness", "witness.json"); ("input", "input.json");
   ("pk", "test.pk"); ("vk", "test.vk"); ("proof", "test.pf");
   ("status", "status.json"); ("verifier_sol", "Verifier.sol");
   ("verifier_abi", "Verifier.abi")].

(** The dictionary [task_paths] returns (lines 41, 43-58). *)
Definition paths_of (cfg : config) (task_id : string) : gmap string string :=
  let base := path_join (APP_ROOT cfg) task_id in
  fold_left (λ d kv, <[kv.1 := path_join base kv.2]> d)
            artifact_names (<["base" := base]> ∅).

(** [task_paths] (lines 39-58). *)
Definition task_paths (cfg : config) (task_id : string) : M (gmap string string) :=
  ensure_dir (path_join (APP_ROOT cfg) task_id) ;;;
  ret (paths_of cfg task_id).

(** [load_validation_dataframe] (lines 61-70). *)
Definition load_validation_dataframe (cfg : config) (E : externals) : M dataframe :=
  present <- os_isfile (VALIDATION_CSV cfg) ;;
  if negb present then
    raise (Exn "FileNotFoundError"
             ("Validation CSV not found at " +:+ VALIDATION_CSV cfg +:+
              ". Generate it via the notebook first."))
  else
    bytes <- os_read (VALIDATION_CSV cfg) ;;
    df <- lift (read_csv E bytes) ;;
    if (df_ncols df <? 2)%nat then
      raise (Exn "ValueError"
               "Validation CSV must contain at least one feature column and one label column")
    else ret df.

(** [pick_validation_sample] (lines 73-78). *)
Definition pick_validation_sample (E : externals) (df : dataframe)
    : M (list (list float) * label) :=
  seed <- randint ;;
  sample <- lift (df_sample E df 1 seed) ;;
  match sample with
  | (features, label) :: _ => ret ([map (astype_float32 E) features], label)
  | [] => raise (Exn "IndexError" "single positional indexer is out-of-bounds")
  end.

Definition Z_of_bool (b : bool) : Z := if b then 1 else 0.

(** [x == z] for a float and an integer, compared exactly. *)
Definition float_is_Z (x : float) (z : Z) : bool :=
  match Prim2SF x with
  | S754_zero _ => z =? 0
  | S754_finite s m e =>
      let n := if s then - Z.pos m else Z.pos m in
      if 0 <=? e then z =? n * 2 ^ e else z * 2 ^ (- e) =? n
  | _ => false
  end.

(** [a == b] on labels: numbers by value, whatever their kinds; a NaN
    equals nothing. *)
Definition label_eqb (a b : label) : bool :=
  match a, b with
  | LStr s, LStr t => String.eqb s t
  | LStr _, _ | _, LStr _ => false
  | LInt y, LInt z => y =? z
  | LInt y, LBool c | LBool c, LInt y => y =? Z_of_bool c
  | LBool c, LBool d => Bool.eqb c d
  | LFloat x, LFloat y => PrimFloat.eqb x y
  | LFloat x, LInt z | LInt z, LFloat x => float_is_Z x z
  | LFloat x, LBool c | LBool c, LFloat x => float_is_Z x (Z_of_bool c)
  end.

Definition label_is_nan (a : label) : bool :=
  match a with
  | LFloat x => negb (PrimFloat.eqb x x)
  | _ => false
  end.

(** The values [Series.unique()] takes for one: equal values, and the
    missing values (NaN) among themselves. *)
Definition label_same (a b : label) : bool :=
  label_eqb a b || (label_is_nan a && label_is_nan b).

(** [Series.unique()]: the distinct values in order of first appearance. *)
Definition unique (l : list label) : list label :=
  fold_left (λ (seen : list label) x,
               if existsb (label_same x) seen then seen else (seen ++ [x])%list) l [].

Definition str_le (a b : string) : Prop := String.leb a b = true.

#[global] Instance str_le_dec a b : Decision (str_le a b).
Proof. unfold str_le. apply _. Defined.

Definition is_str (a : label) : bool :=
  match a with LStr _ => true | _ => false end.

(** Integers and booleans, which Python orders by value. *)
Definition is_int (a : label) : bool :=
  match a with LInt _ | LBool _ => true | _ => false end.

Definition num_key (a : label) : Z :=
  match a with
  | LInt z => z
  | LBool b => Z_of_bool b
  | _ => 0
  end.

(** The order [sorted] puts labels in where Python's [<] decides it here:
    strings by code point, integers and booleans by value.  Between a
    string and a number, and on floats, the relation is only made total;
    [py_sorted] does not sort by it there. *)
Definition label_le (a b : label) : Prop :=
  match a, b with
  | LStr s, LStr t => str_le s t
  | LStr _, _ => False
  | _, LStr _ => True
  | _, _ => num_key a ≤ num_key b
  end.

#[global] Instance label_le_dec a b : Decision (label_le a b).
Proof. destruct a, b; simpl; apply _. Defined.

(** [sorted(labels)].  Strings among themselves and integers among
    themselves are sorted.  A list of one label is returned as it is.  A
    string does not compare with a number: [sorted] raises [TypeError],
    with a text that names the two values it stumbled on.  What the sort
    makes of floats, where a NaN compares with nothing, is left to the
    runtime. *)
Definition py_sorted (E : externals) (l : list label) : res (list label) :=
  if forallb is_str l || forallb is_int l then Ok (merge_sort label_le l)
  else match l with
       | [_] => Ok l
       | _ => if existsb is_str l then Raise (Exn "TypeError" (lt_error_text E l))
              else sorted_numbers E l
       end.

(** [enumerate(l)]. *)
Fixpoint enumerate_from {A} (i : nat) (l : list A) : list (nat * A) :=
  match l with
  | [] => []
  | x :: l' => (i, x) :: enumerate_from (S i) l'
  end.

(** [d[k] = v] on a dictionary with labels as keys, in insertion order:
    an entry with an equal key keeps its key and gets the value. *)
Fixpoint dict_set (d : list (label * nat)) (k : label) (v : nat) : list (label * nat) :=
  match d with
  | [] => [(k, v)]
  | (k', v') :: d' =>
      if label_eqb k' k then (k', v) :: d' else (k', v') :: dict_set d' k v
  end.

(** [d.get(k)]. *)
Fixpoint dict_get (d : list (label * nat)) (k : label) : option nat :=
  match d with
  | [] => None
  | (k', v) :: d' => if label_eqb k' k then Some v else dict_get d' k
  end.

(** [build_label_index_map] (lines 81-84). *)
Definition build_label_index_map (E : externals) (df : dataframe)
    : res (list (label * nat)) :=
  let? labels := py_sorted E (unique (map snd (df_rows df))) in
  Ok (fold_left (λ d il, dict_set d il.2 il.1) (enumerate_from 0 labels) []).

(** The label as [json.dump] writes it: a string and a float (numpy's
    float is a Python float) are encoded; numpy's integers and booleans
    are not. *)
Definition label_json (E : externals) (l : label) : res json :=
  match l with
  | LStr s => Ok (JStr s)
  | LFloat x => Ok (JNum x)
  | _ => Raise (Exn "TypeError"
                  ("Object of type " +:+ numpy_type_name E l +:+
                   " is not JSON serializable"))
  end.

(** [save_json] (lines 87-90). *)
Definition save_json (E : externals) (path : string) (payload : json) : M unit :=
  os_write path (json_dump_indent2 E payload).

(** [json.load] of the file at [path]. *)
Definition load_json (E : externals) (path : string) : M json :=
  bytes <- os_read path ;;
  lift (json_loads E bytes).

(** [ensure_solc] (lines 93-97).  The versions solcx reports as
    installed are [w_solc]; an installation downloads the compiler to the
    disk and reports the version it has installed, which for a request
    like "latest" is not the requested string. *)
Definition ensure_solc (E : externals) (solc_version : string) : M unit :=
  λ w, if existsb (String.eqb solc_version) (w_solc w) then (Ok tt, w)
       else let '(r, f) := solcx_install_solc E solc_version (w_cwd w) (w_fs w) in
            match r with
            | Ok installed =>
                (Ok tt,
                 {| w_fs := f; w_cwd := w_cwd w; w_clock := w_clock w;
                    w_faults := w_faults w; w_random := w_random w;
                    w_solc := installed :: w_solc w;
                    w_chain := w_chain w; w_trace := w_trace w |})
            | Raise e => (Raise e, set_fs f w)
            end.

(** [get_installed_solc_versions()]. *)
Definition installed_solc : M (list string) := λ w, (Ok (w_solc w), w).

(** [raw_transaction_bytes] (lines 100-106). *)
Definition raw_transaction_bytes (signed : signed_txn) : res (list Byte.byte) :=
  match sg_rawTransaction signed with
  | Some raw => Ok raw
  | None =>
      match sg_raw_transaction signed with
      | Some raw => Ok raw
      | None => Raise (Exn "AttributeError" "SignedTransaction missing raw transaction payload")
      end
  end.

(** [update_status] (lines 109-117).  A status that reached the file is
    also an event of the history. *)
Definition update_status (E : externals) (paths : gmap string string)
    (step message : string) (error : option string) : M unit :=
  t <- now ;;
  let status := {| st_step := step; st_message := message; st_error := error;
                   st_timestamp := isoformat E t |} in
  p <- getitem paths "status" ;;
  save_json E p (status_json status) ;;;
  emit (EvStatus status).

(** [", ".join(f'"{val}"' for val in l)]. *)
Fixpoint join_quoted (l : list string) : string :=
  match l with
  | [] => ""
  | [x] => dquote +:+ x +:+ dquote
  | x :: l' => dquote +:+ x +:+ dquote +:+ ", " +:+ join_quoted l'
  end.

(** The felts of all instances, converted in order (lines 122-126). *)
Fixpoint felts_big_endian (E : externals) (instances : list json) : res (list string) :=
  match instances with
  | [] => Ok []
  | instance :: rest =>
      let? felts := py_iter instance in
      let? here := res_map (ezkl_felt_to_big_endian E) felts in
      let? more := felts_big_endian E rest in
      Ok (here ++ more)%list
  end.

(** [format_pub_inputs] (lines 120-128): the list and its rendering. *)
Definition format_pub_inputs (E : externals) (proof_payload : json)
    : res (list string * string) :=
  let? instances := py_item proof_payload "instances" in
  let? l := py_iter instances in
  let? formatted := felts_big_endian E l in
  Ok (formatted, "[" +:+ join_quoted formatted +:+ "]").

(** [os.path.basename]. *)
Definition basename (path : string) : string :=
  List.last (split_path path) "".

(** ** Verifier deployment (lines 131-204) *)

(** [compile_verifier_bytecode] (lines 131-157). *)
Definition compile_verifier_bytecode (E : externals) (sol_path solc_version : string)
    : M json :=
  present <- os_isfile sol_path ;;
  if negb present then
    raise (Exn "FileNotFoundError" ("Verifier source not found at " +:+ sol_path))
  else
    ensure_solc E solc_version ;;;
    let source_name := basename sol_path in
    source <- os_read sol_path ;;
    installed <- installed_solc ;;
    compiled <- lift (solcx_compile_standard E installed source_name
                        (string_of_list_byte source) solc_version) ;;
    contracts <- lift (py_item compiled "contracts") ;;
    contract_map <- lift (py_get contracts source_name JNull) ;;
    if negb (truthy contract_map) then
      raise (Exn "RuntimeError" "Compilation output missing contract data")
    else
      names <- lift (py_iter contract_map) ;;
      match names with
      | JStr contract_name :: _ =>
          bytecode <- lift (let? c := py_item contract_map contract_name in
                            let? evm := py_item c "evm" in
                            let? bc := py_item evm "bytecode" in
                            py_item bc "object") ;;
          if negb (truthy bytecode) then
            raise (Exn "RuntimeError" "Verifier bytecode is empty")
          else ret bytecode
      | _ => raise (Exn "TypeError" "list indices must be integers or slices")
      end.

(** The dictionary [deploy_verifier_contract] returns (lines 201-204). *)
Record deployment := {
  dp_address : option string;
  dp_tx_hash : string;
}.

(** [deploy_verifier_contract] (lines 160-204). *)
Definition deploy_verifier_contract (cfg : config) (E : externals) (task_id : string)
    : M (option deployment) :=
  if negb (truthy_str (WEB3_HTTP_PROVIDER cfg) && truthy_str (WEB3_OPERATOR_KEY cfg))
  then ret None
  else
    paths <- task_paths cfg task_id ;;
    sol_path <- getitem paths "verifier_sol" ;;
    abi_path <- getitem paths "verifier_abi" ;;
    has_sol <- os_isfile sol_path ;;
    if negb has_sol then
      raise (Exn "FileNotFoundError" ("Verifier source not found at " +:+ sol_path))
    else
      has_abi <- os_isfile abi_path ;;
      if negb has_abi then
        raise (Exn "FileNotFoundError" ("Verifier ABI not found at " +:+ abi_path))
      else
        bytecode <- compile_verifier_bytecode E sol_path (SOLC_VERSION cfg) ;;
        abi <- load_json E abi_path ;;
        let key := default "" (WEB3_OPERATOR_KEY cfg) in
        account <- lift (w3_from_key E key) ;;
        nonce <- get_transaction_count account ;;
        cid <- chain_id ;;
        data <- lift (w3_encode_constructor E abi bytecode) ;;
        let txn := {| tx_from := account; tx_nonce := nonce; tx_gas := 3500000;
                      tx_maxFeePerGas := to_wei_gwei 30;
                      tx_maxPriorityFeePerGas := to_wei_gwei 2;
                      tx_chainId := cid; tx_to := None; tx_data := data |} in
        signed <- lift (w3_sign_transaction E key txn) ;;
        raw <- lift (raw_transaction_bytes signed) ;;
        tx_hash <- send_raw_transaction account raw ;;
        receipt <- wait_for_transaction_receipt tx_hash ;;
        if negb (rc_status receipt =? 1) then
          raise (Exn "RuntimeError" "Verifier deployment failed")
        else
          ret (Some {| dp_address := rc_contractAddress receipt;
                       dp_tx_hash := rc_transactionHash receipt |}).

(** ** Prediction (lines 207-216) *)

(** [float(z)] for an integer: the nearest float, ties to even. *)
Definition float_of_Z (z : Z) : res float :=
  match binary_normalize prec emax z 0 false with
  | S754_infinity _ => Raise (Exn "OverflowError" "int too large to convert to float")
  | x => Ok (SF2Prim x)
  end.

(** [float(x)]. *)
Definition py_float (E : externals) (x : json) : res float :=
  match x with
  | JNum v => Ok v
  | JInt z => float_of_Z z
  | JStr s => float_of_str E s
  | JBool b => Ok (if b then 1%float else 0%float)
  | _ => Raise (Exn "TypeError"
                  ("float() argument must be a string or a real number, not '"
                   +:+ type_name x +:+ "'"))
  end.

Record prediction := {
  scores : list float;
  predicted_index : option nat;
}.

(** The body of [extract_prediction] after the file is parsed
    (lines 211-216). *)
Definition prediction_of (E : externals) (payload : json) : res prediction :=
  let? pretty := py_get payload "pretty_elements" (JObj []) in
  let? outputs := py_get pretty "rescaled_outputs" JNull in
  if negb (truthy outputs) then
    Ok {| scores := []; predicted_index := None |}
  else
    let? first := py_first outputs in
    let? xs := py_iter first in
    let? scores := res_map (py_float E) xs in
    let? i := argmax scores in
    Ok {| scores := scores; predicted_index := Some i |}.

(** [extract_prediction] (lines 207-216). *)
Definition extract_prediction (E : externals) (witness_path : string) : M prediction :=
  payload <- load_json E witness_path ;;
  lift (prediction_of E payload).

(** ** Registration (lines 219-284) *)

(** [register_model_onchain] (lines 219-284). *)
Definition register_model_onchain (cfg : config) (E : externals)
    (task_id model_path : string) (proof_payload : json)
    (verifier_address : option string) (accuracy : option float)
    : M (option string) :=
  if negb (truthy_str (GENERAL_CONTRACT_ADDRESS cfg)
           && truthy_str (WEB3_HTTP_PROVIDER cfg)
           && truthy_str (WEB3_OPERATOR_KEY cfg)
           && truthy_str verifier_address)
  then ret None
  else
    let key := default "" (WEB3_OPERATOR_KEY cfg) in
    account <- lift (w3_from_key E key) ;;
    has_abi <- os_isfile (GENERAL_CONTRACT_ABI_PATH cfg) ;;
    if negb has_abi then
      raise (Exn "FileNotFoundError"
               ("Contract ABI not found at " +:+ GENERAL_CONTRACT_ABI_PATH cfg))
    else
      abi <- load_json E (GENERAL_CONTRACT_ABI_PATH cfg) ;;
      registry <- lift (w3_to_checksum_address E
                          (default "" (GENERAL_CONTRACT_ADDRESS cfg))) ;;
      model_bytes <- os_read model_path ;;
      let model_hash := sha256_digest E model_bytes in
      proof_field <- lift (py_get proof_payload "proof" JNull) ;;
      match proof_field with
      | JNull => raise (Exn "ValueError" "Proof payload missing 'proof' field")
      | _ =>
          let proof_bytes :=
            match hexbytes E proof_field with
            | Ok b => b
            | Raise _ => json_dumps E proof_field
            end in
          scaled <- lift (accuracy_scaled accuracy) ;;
          if negb (w3_has_function E abi (REGISTRY_FUNCTION_NAME cfg)) then
            raise (Exn "RuntimeError"
                     ("Function '" +:+ REGISTRY_FUNCTION_NAME cfg +:+
                      "' not found in registry ABI"))
          else
            verifier <- lift (w3_to_checksum_address E (default "" verifier_address)) ;;
            let args := {| ca_task_id := task_id; ca_model_hash := model_hash;
                           ca_verifier := verifier; ca_proof := proof_bytes;
                           ca_accuracy := scaled |} in
            nonce <- get_transaction_count account ;;
            cid <- chain_id ;;
            data <- lift (w3_encode_call E abi (REGISTRY_FUNCTION_NAME cfg) args) ;;
            let txn := {| tx_from := account; tx_nonce := nonce; tx_gas := 2000000;
                          tx_maxFeePerGas := to_wei_gwei 30;
                          tx_maxPriorityFeePerGas := to_wei_gwei 2;
                          tx_chainId := cid; tx_to := Some registry;
                          tx_data := data |} in
            signed <- lift (w3_sign_transaction E key txn) ;;
            raw <- lift (raw_transaction_bytes signed) ;;
            tx_hash <- send_raw_transaction account raw ;;
            receipt <- wait_for_transaction_receipt tx_hash ;;
            if negb (rc_status receipt =? 1) then
              raise (Exn "RuntimeError" "Contract transaction failed")
            else ret (Some (rc_transactionHash receipt))
      end.

(** ** The pipeline (lines 289-393) *)

Record pipeline_result := {
  pr_task_id : string;
  pr_artifacts : gmap string string;
  pr_pub_inputs_pretty : string;
  pr_pub_inputs : list string;
  pr_prediction : prediction;
  pr_verification : json;
  pr_accuracy : option float;
  pr_verifier_contract : option string;
  pr_verifier_deploy_tx : option string;
  pr_tx_hash : option string;
}.

(** A call of the proving toolkit, visible in the history. *)
Definition stage {A} (name : string)
    (op : list string → gmap (list string) node → res A * gmap (list string) node)
    : M A :=
  emit (EvStage name) ;;; on_files op.

Definition floats_json (rows : list (list float)) : json :=
  JArr (map (λ row, JArr (map JNum row)) rows).

(** Lines 368-371: the accuracy of the run. *)
Definition accuracy_of (target_index predicted_index : option nat) : option float :=
  match target_index, predicted_index with
  | Some t, Some p => Some (if (p =? t)%nat then 1%float else 0%float)
  | _, _ => None
  end.

(** What the proving stages hand to the chain stages. *)
Record proved := {
  pv_paths : gmap string string;
  pv_target_index : option nat;
  pv_proof : json;
  pv_verification : json;
}.

(** Lines 291-355: store the model, prepare the input, run the toolkit up
    to the exported verifier. *)
Definition proving_stages (cfg : config) (E : externals)
    (task_id : string) (model_bytes : list Byte.byte) : M proved :=
  paths <- task_paths cfg task_id ;;
  update_status E paths "started" "Storing model" None ;;;
  p_model <- getitem paths "model" ;;
  os_write p_model model_bytes ;;;
  update_status E paths "input" "Preparing validation input" None ;;;
  validation_df <- load_validation_dataframe cfg E ;;
  label_index_map <- lift (build_label_index_map E validation_df) ;;
  sample <- pick_validation_sample E validation_df ;;
  let target_index := dict_get label_index_map sample.2 in
  p_input <- getitem paths "input" ;;
  match label_json E sample.2 with
  | Ok target_label =>
      save_json E p_input
        (JObj [("input_data", floats_json sample.1); ("label", target_label)])
  | Raise e =>
      os_write p_input
        (json_dump_prefix E (JObj [("input_data", floats_json sample.1)]) "label") ;;;
      raise e
  end ;;;
  update_status E paths "settings" "Generating settings" None ;;;
  p_settings <- getitem paths "settings" ;;
  stage "gen_settings" (ezkl_gen_settings E p_model p_settings) ;;;
  update_status E paths "calibration" "Building calibration set" None ;;;
  cal <- lift (df_sample E validation_df
                 (Z.min (CALIBRATION_SAMPLES cfg)
                        (Z.of_nat (length (df_rows validation_df)))) 42) ;;
  p_calibration <- getitem paths "calibration" ;;
  save_json E p_calibration (JObj [("input_data", floats_json (map fst cal))]) ;;;
  update_status E paths "calibration" "Running ezkl.calibrate_settings" None ;;;
  stage "calibrate_settings"
        (ezkl_calibrate_settings E p_calibration p_model p_settings) ;;;
  update_status E paths "compile" "Compiling circuit" None ;;;
  p_compiled <- getitem paths "compiled" ;;
  stage "compile_circuit" (ezkl_compile_circuit E p_model p_compiled p_settings) ;;;
  update_status E paths "srs" "Fetching SRS" None ;;;
  p_srs <- getitem paths "srs" ;;
  stage "get_srs" (ezkl_get_srs E p_settings p_srs) ;;;
  update_status E paths "witness" "Generating witness" None ;;;
  p_witness <- getitem paths "witness" ;;
  stage "gen_witness" (ezkl_gen_witness E p_input p_compiled p_witness) ;;;
  update_status E paths "setup" "Running setup" None ;;;
  p_vk <- getitem paths "vk" ;;
  p_pk <- getitem paths "pk" ;;
  stage "setup" (ezkl_setup E p_compiled p_vk p_pk) ;;;
  update_status E paths "prove" "Generating proof" None ;;;
  p_proof <- getitem paths "proof" ;;
  proof0 <- stage "prove" (ezkl_prove E p_witness p_compiled p_pk p_proof) ;;
  proof <- match proof0 with
           | JObj _ => ret proof0
           | _ => load_json E p_proof
           end ;;
  update_status E paths "verify" "Verifying proof" None ;;;
  verification_result <- stage "verify" (ezkl_verify E p_proof p_settings p_vk) ;;
  update_status E paths "verifier" "Exporting EVM verifier" None ;;;
  p_sol <- getitem paths "verifier_sol" ;;
  p_abi <- getitem paths "verifier_abi" ;;
  stage "create_evm_verifier"
        (ezkl_create_evm_verifier E p_vk p_srs p_settings p_sol p_abi) ;;;
  ret {| pv_paths := paths; pv_target_index := target_index; pv_proof := proof;
         pv_verification := verification_result |}.

(** Lines 357-364: the verifier address and the deployment transaction,
    both absent unless the chain endpoint and the signing key are set. *)
Definition deploy_stage (cfg : config) (E : externals) (task_id : string)
    (paths : gmap string string) : M (option string * option string) :=
  if truthy_str (WEB3_HTTP_PROVIDER cfg) && truthy_str (WEB3_OPERATOR_KEY cfg) then
    update_status E paths "verifier_deploy" "Deploying verifier contract" None ;;;
    deployment <- deploy_verifier_contract cfg E task_id ;;
    match deployment with
    | Some d => ret (dp_address d, Some (dp_tx_hash d))
    | None => ret (None, None)
    end
  else ret (None, None).

(** Lines 373-378: registration, or the status that says it is skipped. *)
Definition register_stage (cfg : config) (E : externals) (task_id : string)
    (paths : gmap string string) (proof : json)
    (verifier_address : option string) (accuracy : option float)
    : M (option string) :=
  if truthy_str verifier_address then
    update_status E paths "register" "Registering model on-chain" None ;;;
    p_model <- getitem paths "model" ;;
    register_model_onchain cfg E task_id p_model proof verifier_address accuracy
  else
    update_status E paths "register"
      "Skipping on-chain registration (no verifier deployment)" None ;;;
    ret None.

(** Lines 357-393: deployment, prediction and accuracy, registration, the
    final status and the summary. *)
Definition chain_stages (cfg : config) (E : externals) (task_id : string)
    (pv : proved) : M pipeline_result :=
  let paths := pv_paths pv in
  dep <- deploy_stage cfg E task_id paths ;;
  let verifier_address : option string := dep.1 in
  let verifier_deploy_tx : option string := dep.2 in
  pub_inputs <- lift (format_pub_inputs E (pv_proof pv)) ;;
  p_witness <- getitem paths "witness" ;;
  prediction <- extract_prediction E p_witness ;;
  let accuracy := accuracy_of (pv_target_index pv) (predicted_index prediction) in
  tx_hash <- register_stage cfg E task_id paths (pv_proof pv) verifier_address accuracy ;;
  update_status E paths "complete" "Pipeline finished" None ;;;
  ret {| pr_task_id := task_id;
         pr_artifacts := paths;
         pr_pub_inputs_pretty := pub_inputs.2;
         pr_pub_inputs := pub_inputs.1;
         pr_prediction := prediction;
         pr_verification := pv_verification pv;
         pr_accuracy := accuracy;
         pr_verifier_contract := verifier_address;
         pr_verifier_deploy_tx := verifier_deploy_tx;
         pr_tx_hash := tx_hash |}.

(** [run_pipeline_async] (lines 289-393). *)
Definition run_pipeline_async (cfg : config) (E : externals)
    (task_id : string) (model_bytes : list Byte.byte) : M pipeline_result :=
  pv <- proving_stages cfg E task_id model_bytes ;;
  chain_stages cfg E task_id pv.

(** [run_pipeline] (lines 396-412), called from a thread without a
    running event loop, as Flask's handlers are.  [asyncio.run] drives
    the coroutine to its end.  A [RuntimeError] of the coroutine whose
    text mentions [asyncio.run()] enters the fallback, which runs the
    exhausted coroutine again and gets Python's error for that. *)
Definition run_pipeline (cfg : config) (E : externals)
    (task_id : string) (model_bytes : list Byte.byte) : M pipeline_result :=
  try_except "RuntimeError" (run_pipeline_async cfg E task_id model_bytes)
    (λ exc,
       if contains "asyncio.run()" (exn_str exc)
       then raise (Exn "RuntimeError" "cannot reuse already awaited coroutine")
       else raise exc).

(** ** Routes (lines 417-455) *)

(** What the routes read of a request. *)
Record upload := {
  form_task_id : option string;
  file_model : option (list Byte.byte);
}.

Inductive body :=
  | BJson (j : json)
  | BResult (r : pipeline_result)
  | BBytes (data : list Byte.byte).

Record response := {
  rs_code : Z;
  rs_body : body;
}.

Definition error_json (msg : string) : body := BJson (JObj [("error", JStr msg)]).

(** [post_model] (lines 417-434). *)
Definition post_model (cfg : config) (E : externals) (req : upload) : M response :=
  if negb (truthy_str (form_task_id req)) then
    ret {| rs_code := 400; rs_body := error_json "task_id is required" |}
  else
    let task_id := default "" (form_task_id req) in
    match file_model req with
    | None => ret {| rs_code := 400; rs_body := error_json "model (ONNX) file is required" |}
    | Some model_bytes =>
        try_except "Exception"
          (result <- run_pipeline cfg E task_id model_bytes ;;
           ret {| rs_code := 201; rs_body := BResult result |})
          (λ exc,
             paths <- task_paths cfg task_id ;;
             update_status E paths "failed" "Pipeline error" (Some (exn_str exc)) ;;;
             ret {| rs_code := 500; rs_body := error_json (exn_str exc) |})
    end.

(** [get_status] (lines 437-444). *)
Definition get_status (cfg : config) (E : externals) (task_id : string) : M response :=
  paths <- task_paths cfg task_id ;;
  p_status <- getitem paths "status" ;;
  present <- os_isfile p_status ;;
  if negb present then
    ret {| rs_code := 404; rs_body := error_json "unknown task id" |}
  else
    status <- load_json E p_status ;;
    ret {| rs_code := 200; rs_body := BJson status |}.

(** [get_artifact] (lines 447-455). *)
Definition get_artifact (cfg : config) (task_id artifact : string) : M response :=
  paths <- task_paths cfg task_id ;;
  base <- getitem paths "base" ;;
  let candidate := path_join base artifact in
  present <- os_isfile candidate ;;
  if negb present then
    ret {| rs_code := 404; rs_body := error_json "artifact not found" |}
  else
    data <- os_read candidate ;;
    ret {| rs_code := 200; rs_body := BBytes data |}.

(** ** A small installation to run the code on

    A toolkit whose stages write their output files, a toy serialiser, a
    validation table with the labels "A" and "B", and a world with that
    table on disk. *)

Fixpoint render (j : json) : string :=
  match j with
  | JNull => "null"
  | JBool b => if b then "true" else "false"
  | JInt _ => "<int>"
  | JNum _ => "<float>"
  | JStr s => dquote +:+ s +:+ dquote
  | JArr l => "[" +:+ String.concat ", " (map render l) +:+ "]"
  | JObj m =>
      "{" +:+ String.concat ", "
                (map (λ kv, dquote +:+ fst kv +:+ dquote +:+ ": " +:+ render (snd kv)) m)
          +:+ "}"
  end.

(** A stage that writes [data] to each of its output files. *)
Fixpoint touch_all (outs : list string) (data : list Byte.byte)
    (cwd : list string) (f : gmap (list string) node)
    : res unit * gmap (list string) node :=
  match outs with
  | [] => (Ok tt, f)
  | o :: rest =>
      match write_file f cwd o data with
      | Ok f' => touch_all rest data cwd f'
      | Raise e => (Raise e, f)
      end
  end.

Definition toy_table : dataframe :=
  {| df_ncols := 3;
     df_rows := [([1%float; 2%float], LStr "B"); ([3%float; 4%float], LStr "A");
                 ([5%float; 6%float], LStr "B")] |}.

Definition toy_proof : json :=
  JObj [("instances", JArr [JArr [JStr "0x01"; JStr "0x02"]]); ("proof", JStr "0xabcd")].

(** The toy libraries; every parsed file reads as [loaded]. *)
Definition toy_externals (loaded : json) : externals :=
  {| json_dump_indent2 := λ j, list_byte_of_string (render j);
     json_dumps := λ j, list_byte_of_string (render j);
     json_loads := λ _, Ok loaded;
     isoformat := λ t, "T" +:+ pretty (N.of_nat t);
     float_of_str := λ s, if String.eqb s "1.0" then Ok 1%float
                          else if String.eqb s "0.0" then Ok 0%float
                          else Raise (Exn "ValueError"
                                        ("could not convert string to float: " +:+ s));
     astype_float32 := λ x, x;
     read_csv := λ _, Ok toy_table;
     df_sample := λ df n seed,
       if n <? 0 then Raise (Exn "ValueError" "A negative number of rows requested")
       else if Z.of_nat (length (df_rows df)) <? n
            then Raise (Exn "ValueError" "Cannot take a larger sample than population")
            else Ok (take (Z.to_nat n) (drop (Z.to_nat seed) (df_rows df) ++ df_rows df));
     sorted_numbers := λ l, Ok l;
     lt_error_text := λ _, "'<' not supported between instances of 'str' and 'int'";
     numpy_type_name := λ l, match l with LBool _ => "bool_" | _ => "int64" end;
     json_dump_prefix := λ j k,
       list_byte_of_string (render j +:+ ", " +:+ dquote +:+ k +:+ dquote +:+ ": ");
     ezkl_gen_settings := λ _ settings, touch_all [settings] [];
     ezkl_calibrate_settings := λ _ _ settings, touch_all [settings] [];
     ezkl_compile_circuit := λ _ compiled _, touch_all [compiled] [];
     ezkl_get_srs := λ _ srs, touch_all [srs] [];
     ezkl_gen_witness := λ _ _ witness, touch_all [witness] [];
     ezkl_setup := λ _ vk pk, touch_all [vk; pk] [];
     ezkl_prove := λ _ _ _ proof cwd f,
       let '(r, f') := touch_all [proof] [] cwd f in
       (match r with Ok _ => Ok toy_proof | Raise e => Raise e end, f');
     ezkl_verify := λ _ _ _ cwd f, (Ok (JBool true), f);
     ezkl_create_evm_verifier := λ _ _ _ sol abi, touch_all [sol; abi] [];
     ezkl_felt_to_big_endian := λ felt,
       match felt with
       | JStr s => Ok s
       | _ => Raise (Exn "TypeError" "argument 'felt': 'str' expected")
       end;
     solcx_install_solc := λ v _ f, (Ok v, f);
     solcx_compile_standard := λ _ name _ _,
       Ok (JObj [("contracts",
                  JObj [(name, JObj [("Halo2Verifier",
                     JObj [("evm", JObj [("bytecode",
                        JObj [("object", JStr "6080")])])])])])]);
     sha256_digest := λ b, b;
     hexbytes := λ j, match j with
                      | JStr s => Ok (list_byte_of_string s)
                      | _ => Raise (Exn "TypeError" "cannot convert to HexBytes")
                      end;
     w3_from_key := λ k, Ok ("0xaccount-" +:+ k);
     w3_to_checksum_address := λ a, Ok a;
     w3_encode_constructor := λ _ _, Ok [];
     w3_has_function := λ _ name, String.eqb name "registerModel";
     w3_encode_call := λ _ _ args, Ok (ca_proof args);
     w3_sign_transaction := λ _ t,
       Ok {| sg_rawTransaction := None; sg_raw_transaction := Some (tx_data t) |} |}.

Definition toy_config : config :=
  {| APP_ROOT := "/srv/artifacts";
     VALIDATION_CSV := "iris_test_split.csv";
     CALIBRATION_SAMPLES := 5;
     GENERAL_CONTRACT_ADDRESS := None;
     GENERAL_CONTRACT_ABI_PATH := "../Verifier.abi";
     WEB3_HTTP_PROVIDER := None;
     WEB3_OPERATOR_KEY := None;
     SOLC_VERSION := "0.8.20";
     REGISTRY_FUNCTION_NAME := "registerModel" |}.

Definition toy_chain : chain :=
  {| ch_up := true; ch_id := 31337; ch_counts := ∅; ch_next := [];
     ch_mined := ∅; ch_sent := [] |}.

(** A fresh process in [/srv] with the validation table on disk. *)
Definition toy_world : world :=
  {| w_fs := <[["srv"; "iris_test_split.csv"] := File []]> (<[["srv"] := Dir]> ∅);
     w_cwd := ["srv"];
     w_clock := 0;
     w_faults := [];
     w_random := [1];
     w_solc := [];
     w_chain := toy_chain;
     w_trace := [] |}.

(** A witness whose second score is the larger one. *)
Definition toy_witness : json :=
  JObj [("pretty_elements",
         JObj [("rescaled_outputs", JArr [JArr [JStr "0.0"; JStr "1.0"]])])].

(** How the spec reads "out of range" for an accuracy: below 0 or
    above 1. *)
Definition out_of_range (x : float) : bool :=
  PrimFloat.ltb x 0%float || PrimFloat.ltb 1%float x.

(** A payload without a usable [rescaled_outputs] entry, as line 211
    reads it: [pretty_elements] is missing, or it is a dictionary in
    which [rescaled_outputs] is missing or falsy. *)
Definition lacks_outputs (payload : json) : Prop :=
  ∃ m, payload = JObj m ∧
    (assoc "pretty_elements" m = None ∨
     ∃ pe, assoc "pretty_elements" m = Some (JObj pe) ∧
       (assoc "rescaled_outputs" pe = None ∨
        ∃ o, assoc "rescaled_outputs" pe = Some o ∧ truthy o = false)).

Definition no_prediction : prediction := {| scores := []; predicted_index := None |}.


(** The worlds [w'] a computation may leave from [w] when it neither
    touches the chain nor changes directory, and adds to the history only
    events that [ok] accepts. *)
Definition extends (ok : event → bool) (w w' : world) : Prop :=
  w_chain w' = w_chain w ∧ w_cwd w' = w_cwd w ∧
  ∃ evs, w_trace w' = (w_trace w ++ evs)%list ∧ forallb ok evs = true.

(** Every run of [m] stays within [R]. *)
Definition keeps {A} (R : world → world → Prop) (m : M A) : Prop :=
  ∀ w r w', m w = (r, w') → R w w'.

(** The status of a step, whatever its time stamp. *)
Definition status_at (step message : string) (error : option string) (s : status_record) : Prop :=
  st_step s = step ∧ st_message s = message ∧ st_error s = error.

(** [f'] is [f] with new directories, and nothing else: every entry of
    [f] is kept as it is and every new entry is a directory. *)
Definition grows (f f' : gmap (list string) node) : Prop :=
  ∀ p, f' !! p = f !! p ∨ (f !! p = None ∧ f' !! p = Some Dir).

(** Every entry of the file system lies in a directory. *)
Definition fs_tree (f : gmap (list string) node) : Prop :=
  map_Forall (λ p _, is_dir_at f (removelast p) = true) f.

(** [w'] is [w] except for new directories. *)
Definition only_new_dirs (w w' : world) : Prop :=
  grows (w_fs w) (w_fs w') ∧ w_cwd w' = w_cwd w ∧ w_clock w' = w_clock w ∧
  w_faults w' = w_faults w ∧ w_random w' = w_random w ∧ w_solc w' = w_solc w ∧
  w_chain w' = w_chain w ∧ w_trace w' = w_trace w.

(** What [posixpath.join] puts before a relative second argument. *)
Definition join_prefix (a : string) : string :=
  if String.eqb a "" || endswith_sep a then a else a +:+ "/".

(** The installation after the tasks "t1" and "t2" were uploaded: "t2"
    has a status file. *)
Definition two_tasks_world : world :=
  set_fs (<[["srv"; "artifacts"; "t2"; "status.json"] := File [x73; x65; x63; x72; x65; x74]]>
         (<[["srv"; "artifacts"; "t2"] := Dir]>
         (<[["srv"; "artifacts"; "t1"; "network.onnx"] := File [x01; x02]]>
         (<[["srv"; "artifacts"; "t1"] := Dir]>
         (<[["srv"; "artifacts"] := Dir]> (w_fs toy_world))))))
         toy_world.

(** The installation with a witness file for task "t1". *)
Definition witness_world : world :=
  set_fs (<[["srv"; "artifacts"; "t1"; "witness.json"] := File []]>
            (w_fs two_tasks_world))
         two_tasks_world.

(** The events of the proving stages: toolkit calls and the statuses of
    the steps before deployment. *)
Definition proving_event (ev : event) : bool :=
  match ev with
  | EvStatus s =>
      negb (existsb (String.eqb (st_step s))
                    ["verifier_deploy"; "register"; "complete"; "failed"])
  | EvStage _ => true
  | EvSend _ => false
  end.

(** No event at all. *)
Definition no_event (ev : event) : bool := false.

(** The installation with a chain endpoint and a signing key, but no
    registry address. *)
Definition deploy_only_config : config :=
  {| APP_ROOT := "/srv/artifacts";
     VALIDATION_CSV := "iris_test_split.csv";
     CALIBRATION_SAMPLES := 5;
     GENERAL_CONTRACT_ADDRESS := None;
     GENERAL_CONTRACT_ABI_PATH := "../Verifier.abi";
     WEB3_HTTP_PROVIDER := Some "http://127.0.0.1:8545";
     WEB3_OPERATOR_KEY := Some "0xkey";
     SOLC_VERSION := "0.8.20";
     REGISTRY_FUNCTION_NAME := "registerModel" |}.

(** A world whose chain mines the next transaction as a successful
    contract creation. *)
Definition deploy_world : world :=
  set_chain {| ch_up := true; ch_id := 31337; ch_counts := ∅;
               ch_next := [{| rc_status := 1;
                              rc_contractAddress := Some "0xVerifier";
                              rc_transactionHash := "0xdeploy" |}];
               ch_mined := ∅; ch_sent := [] |}
            toy_world.

(** The statuses of a history, as (step, message, error). *)
Definition statuses (evs : list event) : list (string * string * option string) :=
  omap (λ ev, match ev with
              | EvStatus s => Some (st_step s, st_message s, st_error s)
              | _ => None
              end) evs.

(** The events of a run that stays off the chain: nothing is broadcast
    and no deployment is announced. *)
Definition offchain_event (ev : event) : bool :=
  match ev with
  | EvStatus s => negb (String.eqb (st_step s) "verifier_deploy")
  | EvStage _ => true
  | EvSend _ => false
  end.

(** The upload of [model_bytes] for [task_id]. *)
Definition upload_of (task_id : string) (model_bytes : list Byte.byte) : upload :=
  {| form_task_id := Some task_id; file_model := Some model_bytes |}.

(** Lines 430-431: what the upload handler does with a caught error. *)
Definition record_failure (cfg : config) (E : externals) (task_id : string)
    (exc : exn) : M unit :=
  paths <- task_paths cfg task_id ;;
  update_status E paths "failed" "Pipeline error" (Some (exn_str exc)).

(** Lines 399-412: the error [run_pipeline] hands to its caller when the
    coroutine raised [exc0]. *)
Definition reraised (exc0 : exn) : exn :=
  if is_instance exc0 "RuntimeError" && contains "asyncio.run()" (exn_str exc0)
  then Exn "RuntimeError" "cannot reuse already awaited coroutine"
  else exc0.

(** The installation without its validation table, on a disk that takes
    three more file writes and then is full. *)
Definition full_disk_world : world :=
  {| w_fs := <[["srv"] := Dir]> ∅;
     w_cwd := ["srv"];
     w_clock := 0;
     w_faults := [None; None; None;
                  Some (FailWrite (Exn "OSError" "[Errno 28] No space left on device") 0)];
     w_random := [1];
     w_solc := [];
     w_chain := toy_chain;
     w_trace := [] |}.

(** The libraries [E] with another settings generator. *)
Definition with_gen_settings (E : externals)
    (op : string → string → list string → gmap (list string) node →
          res unit * gmap (list string) node) : externals :=
  {| json_dump_indent2 := json_dump_indent2 E;
     json_dumps := json_dumps E;
     json_loads := json_loads E;
     isoformat := isoformat E;
     float_of_str := float_of_str E;
     astype_float32 := astype_float32 E;
     read_csv := read_csv E;
     df_sample := df_sample E;
     sorted_numbers := sorted_numbers E;
     lt_error_text := lt_error_text E;
     numpy_type_name := numpy_type_name E;
     json_dump_prefix := json_dump_prefix E;
     ezkl_gen_settings := op;
     ezkl_calibrate_settings := ezkl_calibrate_settings E;
     ezkl_compile_circuit := ezkl_compile_circuit E;
     ezkl_get_srs := ezkl_get_srs E;
     ezkl_gen_witness := ezkl_gen_witness E;
     ezkl_setup := ezkl_setup E;
     ezkl_prove := ezkl_prove E;
     ezkl_verify := ezkl_verify E;
     ezkl_create_evm_verifier := ezkl_create_evm_verifier E;
     ezkl_felt_to_big_endian := ezkl_felt_to_big_endian E;
     solcx_install_solc := solcx_install_solc E;
     solcx_compile_standard := solcx_compile_standard E;
     sha256_digest := sha256_digest E;
     hexbytes := hexbytes E;
     w3_from_key := w3_from_key E;
     w3_to_checksum_address := w3_to_checksum_address E;
     w3_encode_constructor := w3_encode_constructor E;
     w3_has_function := w3_has_function E;
     w3_encode_call := w3_encode_call E;
     w3_sign_transaction := w3_sign_transaction E |}.

(** A toolkit whose settings generator fails on an assertion without a
    message. *)
Definition silent_externals : externals :=
  with_gen_settings (toy_externals toy_witness)
    (λ _ _ _ f, (Raise (Exn "AssertionError" ""), f)).

(** What an event shows of itself, leaving out time stamps and
    payloads. *)
Inductive mark :=
  | MStatus (step message : string) (error : option string)
  | MStage (name : string)
  | MSend.

Definition mark_of (ev : event) : mark :=
  match ev with
  | EvStatus s => MStatus (st_step s) (st_message s) (st_error s)
  | EvStage name => MStage name
  | EvSend _ => MSend
  end.

(** [m] follows the plan: the events a run of [m] adds to the history
    are an initial segment of [plan], and all of it when [m] returns. *)
Definition follows {A} (plan : list mark) (m : M A) : Prop :=
  ∀ w r w', m w = (r, w') →
    ∃ evs, w_trace w' = (w_trace w ++ evs)%list ∧
           map mark_of evs `prefix_of` plan ∧
           (is_ok r = true → map mark_of evs = plan).

(** The statuses and toolkit calls of lines 292-355, in order. *)
Definition proving_plan : list mark :=
  [MStatus "started" "Storing model" None;
   MStatus "input" "Preparing validation input" None;
   MStatus "settings" "Generating settings" None;
   MStage "gen_settings";
   MStatus "calibration" "Building calibration set" None;
   MStatus "calibration" "Running ezkl.calibrate_settings" None;
   MStage "calibrate_settings";
   MStatus "compile" "Compiling circuit" None;
   MStage "compile_circuit";
   MStatus "srs" "Fetching SRS" None;
   MStage "get_srs";
   MStatus "witness" "Generating witness" None;
   MStage "gen_witness";
   MStatus "setup" "Running setup" None;
   MStage "setup";
   MStatus "prove" "Generating proof" None;
   MStage "prove";
   MStatus "verify" "Verifying proof" None;
   MStage "verify";
   MStatus "verifier" "Exporting EVM verifier" None;
   MStage "create_evm_verifier"].

Definition chain_enabled (cfg : config) : bool :=
  truthy_str (WEB3_HTTP_PROVIDER cfg) && truthy_str (WEB3_OPERATOR_KEY cfg).

Definition registry_enabled (cfg : config) : bool :=
  truthy_str (GENERAL_CONTRACT_ADDRESS cfg) && chain_enabled cfg.

(** The events of lines 357-380 in a run that returns [r]. *)
Definition chain_plan (cfg : config) (r : pipeline_result) : list mark :=
  ((if chain_enabled cfg
    then [MStatus "verifier_deploy" "Deploying verifier contract" None; MSend]
    else []) ++
   (if truthy_str (pr_verifier_contract r)
    then MStatus "register" "Registering model on-chain" None ::
         (if registry_enabled cfg then [MSend] else [])
    else [MStatus "register" "Skipping on-chain registration (no verifier deployment)"
                  None]) ++
   [MStatus "complete" "Pipeline finished" None])%list.

(** The history only grows. *)
Definition history_grows (w w' : world) : Prop :=
  w_trace w `prefix_of` w_trace w'.

(** [w'] has the files and directories of [w]. *)
Definition same_files (w w' : world) : Prop := w_fs w' = w_fs w.

(** The random generator of [w'] is where that of [w] is. *)
Definition same_random (w w' : world) : Prop := w_random w' = w_random w.

Definition is_integer (a : label) : bool :=
  match a with LInt _ => true | _ => false end.

(** The labels are all strings, or all integers. *)
Definition one_kind (l : list label) : bool :=
  forallb is_str l || forallb is_integer l.

(** Two labels of one kind: two strings, or two integers. *)
Definition kin (a b : label) : Prop :=
  (is_str a = true ∧ is_str b = true) ∨ (is_integer a = true ∧ is_integer b = true).

(** The dictionary that gives each of [labels] its position. *)
Definition index_dict (labels : list label) : list (label * nat) :=
  map (λ il, (il.2, il.1)) (enumerate_from 0 labels).

(** The small installation with a generator whose next draw picks the
    first row of the table, which is labelled "B". *)
Definition sample_b_world : world :=
  {| w_fs := w_fs toy_world; w_cwd := w_cwd toy_world; w_clock := 0;
     w_faults := []; w_random := [0]; w_solc := [];
     w_chain := toy_chain; w_trace := [] |}.

(** The installation with a chain endpoint, a signing key and a
    registry address. *)
Definition registry_config : config :=
  {| APP_ROOT := "/srv/artifacts";
     VALIDATION_CSV := "iris_test_split.csv";
     CALIBRATION_SAMPLES := 5;
     GENERAL_CONTRACT_ADDRESS := Some "0xRegistry";
     GENERAL_CONTRACT_ABI_PATH := "../Verifier.abi";
     WEB3_HTTP_PROVIDER := Some "http://127.0.0.1:8545";
     WEB3_OPERATOR_KEY := Some "0xkey";
     SOLC_VERSION := "0.8.20";
     REGISTRY_FUNCTION_NAME := "registerModel" |}.

(** A world with the registry ABI next to the working directory, whose
    chain mines a contract creation and then a registration. *)
Definition registry_world : world :=
  set_chain {| ch_up := true; ch_id := 31337; ch_counts := ∅;
               ch_next := [{| rc_status := 1;
                              rc_contractAddress := Some "0xVerifier";
                              rc_transactionHash := "0xdeploy" |};
                           {| rc_status := 1;
                              rc_contractAddress := None;
                              rc_transactionHash := "0xregister" |}];
               ch_mined := ∅; ch_sent := [] |}
            (set_fs (<[["Verifier.abi"] := File []]> (w_fs toy_world)) toy_world).
(** * Properties *)

(** ** Accuracy scaling *)

(** C2, as stated, fails: an out-of-range accuracy is not defaulted to 0.
    The accuracy 2.0 is out of range and scales to 2,000,000. *)
Lemma accuracy_scaled_out_of_range :
  out_of_range 2%float = true ∧
  accuracy_scaled (Some 2%float) = Ok 2000000 ∧
  accuracy_scaled (Some 2%float) ≠ Ok 0.
Proof.
  split; [vm_compute; reflexivity|].
  assert (H : accuracy_scaled (Some 2%float) = Ok 2000000) by (vm_compute; reflexivity).
  split; [exact H|]. rewrite H. discriminate.
Qed.

(** [round_half_even m e] is an integer nearest to [m * 2^e], and the
    even one when two are equally near.  The value is compared on the
    scale of [d]: it is [v / d]. *)
Lemma round_half_even_nearest (m : positive) (e : Z) :
  let n := round_half_even m e in
  let d := 2 ^ Z.max 0 (- e) in
  let v := Z.pos m * 2 ^ Z.max 0 e in
  (∀ k : Z, Z.abs (n * d - v) ≤ Z.abs (k * d - v)) ∧
  (2 * Z.abs (n * d - v) = d → Z.even n = true).
Proof.
  unfold round_half_even. destruct (0 <=? e) eqn:He.
  - apply Z.leb_le in He. cbv zeta.
    rewrite (Z.max_l 0 (- e)), (Z.max_r 0 e) by lia. rewrite Z.pow_0_r.
    split.
    + intros k. rewrite Z.mul_1_r, Z.sub_diag. simpl. apply Z.abs_nonneg.
    + rewrite Z.mul_1_r, Z.sub_diag. simpl. lia.
  - apply Z.leb_gt in He. cbv zeta.
    rewrite (Z.max_r 0 (- e)), (Z.max_l 0 e) by lia. rewrite Z.pow_0_r, Z.mul_1_r.
    set (d := 2 ^ (- e)).
    assert (0 < d) as Hd by (apply Z.pow_pos_nonneg; lia).
    pose proof (Z.div_mod (Z.pos m) d ltac:(lia)) as Hm.
    pose proof (Z.mod_pos_bound (Z.pos m) d Hd) as Hr.
    set (q := Z.pos m / d) in *. set (r := Z.pos m mod d) in *.
    assert (∀ k, r ≤ Z.abs (k * d - Z.pos m) ∨ d - r ≤ Z.abs (k * d - Z.pos m)) as Hk.
    { intros k. destruct (Z_le_gt_dec k q) as [Hle|Hgt]; [left|right]; nia. }
    destruct (Z.compare_spec (2 * r) d) as [Heq|Hlt|Hgt].
    + destruct (Z.even q) eqn:Hq.
      * split; [|done]. intros k.
        replace (q * d - Z.pos m) with (- r) by lia.
        destruct (Hk k); lia.
      * split.
        -- intros k. replace ((q + 1) * d - Z.pos m) with (d - r) by lia.
           destruct (Hk k); lia.
        -- intros _. rewrite Z.even_add, Hq. reflexivity.
    + split.
      * intros k. replace (q * d - Z.pos m) with (- r) by lia. destruct (Hk k); lia.
      * replace (q * d - Z.pos m) with (- r) by lia. lia.
    + split.
      * intros k. replace ((q + 1) * d - Z.pos m) with (d - r) by lia.
        destruct (Hk k); lia.
      * replace ((q + 1) * d - Z.pos m) with (d - r) by lia. lia.
Qed.

(** C2, amended: the accuracy, 0 when it is absent, is multiplied by one
    million in floating point, and the product is rounded to the nearest
    integer, to the even one when two are equally near; a product that
    is not a number or is infinite raises.  1.0 scales to exactly
    1,000,000, 0.0 to exactly 0, 2^-20 (0.95 after scaling) to 1,
    0.0078125 (7812.5 after scaling) to 7812 and 0.0234375 (23437.5) to
    23438; every accuracy the pipeline computes scales to 0 or
    1,000,000.  A value outside [0, 1] is scaled like any other (2.0 to
    2,000,000, -0.5 to -500,000). *)
Theorem accuracy_scaling :
  (∀ accuracy : option float,
     let product := PrimFloat.mul (or_zero accuracy) 1000000%float in
     match Prim2SF product with
     | S754_zero _ => accuracy_scaled accuracy = Ok 0
     | S754_finite s m e =>
         ∃ n, accuracy_scaled accuracy = Ok (if s then - n else n) ∧
              let d := 2 ^ Z.max 0 (- e) in
              let v := Z.pos m * 2 ^ Z.max 0 e in
              (∀ k : Z, Z.abs (n * d - v) ≤ Z.abs (k * d - v)) ∧
              (2 * Z.abs (n * d - v) = d → Z.even n = true)
     | S754_infinity _ =>
         accuracy_scaled accuracy
         = Raise (Exn "OverflowError" "cannot convert float infinity to integer")
     | S754_nan =>
         accuracy_scaled accuracy
         = Raise (Exn "ValueError" "cannot convert float NaN to integer")
     end) ∧
  or_zero None = 0%float ∧
  accuracy_scaled (Some 1%float) = Ok 1000000 ∧
  accuracy_scaled (Some 0%float) = Ok 0 ∧
  accuracy_scaled None = Ok 0 ∧
  (∀ target predicted : option nat,
     accuracy_scaled (accuracy_of target predicted) =
     Ok (match target, predicted with
         | Some t, Some p => if (p =? t)%nat then 1000000 else 0
         | _, _ => 0
         end)) ∧
  accuracy_scaled (Some 0.00000095367431640625%float) = Ok 1 ∧
  accuracy_scaled (Some 0.0078125%float) = Ok 7812 ∧
  accuracy_scaled (Some 0.0234375%float) = Ok 23438 ∧
  accuracy_scaled (Some (-0.0078125)%float) = Ok (-7812) ∧
  accuracy_scaled (Some 2%float) = Ok 2000000 ∧
  accuracy_scaled (Some (-0.5)%float) = Ok (-500000).
Proof.
  split.
  { intros accuracy product. unfold accuracy_scaled, py_round. fold product.
    destruct (Prim2SF product) as [s|s| |s m e]; try reflexivity.
    exists (round_half_even m e). split; [reflexivity|].
    apply round_half_even_nearest. }
  repeat split; try (vm_compute; reflexivity).
  intros [t|] [p|]; simpl; try (vm_compute; reflexivity).
  destruct (p =? t)%nat; vm_compute; reflexivity.
Qed.

(** ** The label index map *)

Section Labels.

Lemma ascii_compare_N (x y : ascii) :
  Ascii.compare x y = (N_of_ascii x ?= N_of_ascii y)%N.
Proof. reflexivity. Qed.

Lemma string_leb_cons x a y b :
  String.leb (String x a) (String y b) =
  match Ascii.compare x y with
  | Eq => String.leb a b
  | Lt => true
  | Gt => false
  end.
Proof. unfold String.leb. simpl. destruct (Ascii.compare x y); reflexivity. Qed.

Lemma string_leb_trans a : ∀ b c,
  String.leb a b = true → String.leb b c = true → String.leb a c = true.
Proof.
  induction a as [|x a IH]; intros [|y b] [|z c]; try reflexivity; try discriminate.
  rewrite !string_leb_cons, !ascii_compare_N.
  destruct (N.compare_spec (N_of_ascii x) (N_of_ascii y)) as [Hxy|Hxy|Hxy];
    destruct (N.compare_spec (N_of_ascii y) (N_of_ascii z)) as [Hyz|Hyz|Hyz];
    destruct (N.compare_spec (N_of_ascii x) (N_of_ascii z)) as [Hxz|Hxz|Hxz];
    try discriminate; try reflexivity; try lia; eauto.
Qed.

#[global] Instance str_le_trans : Transitive str_le.
Proof. intros a b c. apply string_leb_trans. Qed.

#[global] Instance str_le_total : Total str_le.
Proof. intros a b. apply String.leb_total. Qed.

#[global] Instance str_le_antisym : AntiSymm eq str_le.
Proof. intros a b. apply String.leb_antisym. Qed.

Lemma string_leb_refl (s : string) : String.leb s s = true.
Proof. destruct (String.leb_total s s); done. Qed.

#[global] Instance label_le_trans : Transitive label_le.
Proof.
  intros [x|x|x|x] [y|y|y|y] [z|z|z|z]; unfold label_le, num_key, Z_of_bool;
    try tauto; try apply str_le_trans;
    repeat match goal with |- context [if ?b then _ else _] => destruct b end; lia.
Qed.

#[global] Instance label_le_total : Total label_le.
Proof.
  intros [x|x|x|x] [y|y|y|y]; unfold label_le, num_key, Z_of_bool;
    try apply str_le_total; try tauto;
    repeat match goal with |- context [if ?b then _ else _] => destruct b end; lia.
Qed.

Lemma label_le_refl_kin a : kin a a → label_le a a.
Proof.
  destruct a; intros [[H _]|[H _]]; try discriminate; simpl.
  - unfold num_key. lia.
  - apply string_leb_refl.
Qed.

Lemma label_le_antisym_kin a b : kin a b → label_le a b → label_le b a → a = b.
Proof.
  destruct a, b; intros [[H1 H2]|[H1 H2]]; try discriminate; simpl.
  - unfold num_key. intros. f_equal. lia.
  - intros H3 H4. f_equal. by apply String.leb_antisym.
Qed.

Lemma label_eqb_kin a b : kin a b → label_eqb a b = true ↔ a = b.
Proof.
  destruct a, b; intros [[H1 H2]|[H1 H2]]; try discriminate; simpl.
  - rewrite Z.eqb_eq. split; [by intros ->|by intros [= ->]].
  - rewrite String.eqb_eq. split; [by intros ->|by intros [= ->]].
Qed.

Lemma label_same_kin a b : kin a b → label_same a b = true ↔ a = b.
Proof.
  intros H. unfold label_same. rewrite <- (label_eqb_kin a b H).
  destruct a, b, H as [[H1 H2]|[H1 H2]]; try discriminate; simpl;
    by rewrite orb_false_r.
Qed.

Lemma label_same_refl a : label_same a a = true.
Proof.
  destruct a as [z|x|b|s]; unfold label_same; simpl.
  - by rewrite Z.eqb_refl.
  - by destruct (PrimFloat.eqb x x).
  - by destruct b.
  - by rewrite String.eqb_refl.
Qed.

Lemma one_kind_kin l a b : one_kind l = true → a ∈ l → b ∈ l → kin a b.
Proof.
  unfold one_kind, kin. rewrite orb_true_iff, !forallb_forall.
  intros [H|H] Ha%list_elem_of_In Hb%list_elem_of_In; [left|right]; eauto.
Qed.

(** [unique] in general: it keeps values of the list, one for each. *)
Lemma unique_from_gen (l : list label) : ∀ seen,
  let r := fold_left (λ (seen : list label) x,
                        if existsb (label_same x) seen then seen
                        else (seen ++ [x])%list) l seen in
  (∀ x, x ∈ seen → x ∈ r) ∧ (∀ x, x ∈ r → x ∈ seen ∨ x ∈ l) ∧
  (∀ x, x ∈ l → ∃ y, y ∈ r ∧ label_same x y = true).
Proof.
  induction l as [|y l IH]; intros seen; simpl.
  - split_and!; [done|by left|]. intros x Hx. by apply elem_of_nil in Hx.
  - destruct (existsb (label_same y) seen) eqn:Hy.
    + destruct (IH seen) as (H1 & H2 & H3). split_and!; [done| |].
      * intros x Hx. destruct (H2 x Hx) as [?|?]; [by left|right].
        apply elem_of_cons. by right.
      * intros x [->|Hx]%elem_of_cons; [|by apply H3].
        apply existsb_exists in Hy as (z & Hz%list_elem_of_In & Hyz).
        exists z. split; [by apply H1|done].
    + destruct (IH (seen ++ [y])%list) as (H1 & H2 & H3). split_and!.
      * intros x Hx. apply H1, elem_of_app. by left.
      * intros x Hx. destruct (H2 x Hx) as [[?|Hs%list_elem_of_singleton]%elem_of_app|?].
        -- by left.
        -- right. apply elem_of_cons. by left.
        -- right. apply elem_of_cons. by right.
      * intros x [->|Hx]%elem_of_cons; [|by apply H3].
        exists y. split; [|apply label_same_refl].
        apply H1, elem_of_app. right. by apply list_elem_of_singleton.
Qed.

Lemma unique_subset l x : x ∈ unique l → x ∈ l.
Proof.
  intros H. destruct (unique_from_gen l []) as (_ & H2 & _).
  destruct (H2 x H) as [Hn|?]; [by apply elem_of_nil in Hn|done].
Qed.

Lemma unique_covers l x : x ∈ l → ∃ y, y ∈ unique l ∧ label_same x y = true.
Proof. intros H. destruct (unique_from_gen l []) as (_ & _ & H3). by apply H3. Qed.

(** [unique] on labels of one kind: the distinct labels. *)
Lemma unique_from_spec (l seen : list label) :
  (∀ a b, a ∈ (seen ++ l)%list → b ∈ (seen ++ l)%list → kin a b) →
  NoDup seen →
  let r := fold_left (λ (seen : list label) x,
                        if existsb (label_same x) seen then seen
                        else (seen ++ [x])%list) l seen in
  NoDup r ∧ ∀ x, x ∈ r ↔ x ∈ seen ∨ x ∈ l.
Proof.
  revert seen. induction l as [|y l IH]; intros seen Hk Hnd; simpl.
  - split; [done|]. intros x. rewrite elem_of_nil. tauto.
  - assert (existsb (label_same y) seen = true ↔ y ∈ seen) as Hex.
    { rewrite existsb_exists. split.
      - intros (z & Hz%list_elem_of_In & Hyz).
        apply label_same_kin in Hyz; [by subst|]. apply Hk; set_solver.
      - intros Hy. exists y. split; [by apply list_elem_of_In|apply label_same_refl]. }
    destruct (existsb (label_same y) seen) eqn:Hy.
    + destruct (IH seen) as [Hr Hin]; [intros; apply Hk; set_solver|done|].
      split; [done|]. intros x. rewrite Hin.
      assert (y ∈ seen) by by apply Hex. set_solver.
    + assert (y ∉ seen) as Hn.
      { intros H. apply Hex in H. discriminate. }
      assert (NoDup (seen ++ [y])) as Hnd'.
      { apply NoDup_app. split_and!; [done| |apply NoDup_singleton].
        intros x Hx Hx'. apply list_elem_of_singleton in Hx'. by subst. }
      destruct (IH (seen ++ [y])%list) as [Hr Hin]; [|done|].
      { intros a b Ha Hb. apply Hk; set_solver. }
      split; [done|]. intros x. rewrite Hin. set_solver.
Qed.

Lemma unique_NoDup l : one_kind l = true → NoDup (unique l).
Proof.
  intros H. apply (unique_from_spec l []); [|constructor].
  intros a b Ha Hb. by apply (one_kind_kin l).
Qed.

Lemma elem_of_unique l x : one_kind l = true → x ∈ unique l ↔ x ∈ l.
Proof.
  intros Hk. destruct (unique_from_spec l []) as [_ H]; [|constructor|].
  { intros a b Ha Hb. by apply (one_kind_kin l). }
  unfold unique. rewrite H, elem_of_nil. tauto.
Qed.

Lemma one_kind_subset l l' :
  (∀ x, x ∈ l' → x ∈ l) → one_kind l = true → one_kind l' = true.
Proof.
  unfold one_kind. rewrite !orb_true_iff, !forallb_forall.
  intros Hs [H|H]; [left|right]; intros x Hx%list_elem_of_In;
    by apply H, list_elem_of_In, Hs.
Qed.

Lemma py_sorted_one_kind E l :
  one_kind l = true → py_sorted E l = Ok (merge_sort label_le l).
Proof.
  unfold one_kind, py_sorted. rewrite orb_true_iff. intros [H|H].
  - by rewrite H.
  - assert (forallb is_int l = true) as ->; [|by rewrite orb_true_r].
    rewrite forallb_forall in *. intros x Hx. specialize (H x Hx). by destruct x.
Qed.

(** A string beside a number cannot be sorted. *)
Lemma py_sorted_mixed E l a b :
  a ∈ l → b ∈ l → is_str a = true → is_str b = false →
  ∃ e, py_sorted E l = Raise e ∧ exn_cls e = "TypeError".
Proof.
  intros Ha Hb Hsa Hsb. unfold py_sorted.
  assert (forallb is_str l = false) as ->.
  { apply not_true_is_false. rewrite forallb_forall. intros H.
    rewrite (H b) in Hsb; [done|by apply list_elem_of_In]. }
  assert (forallb is_int l = false) as ->.
  { apply not_true_is_false. rewrite forallb_forall. intros H.
    specialize (H a (proj1 (list_elem_of_In _ _) Ha)). by destruct a. }
  assert (existsb is_str l = true) as Hex.
  { apply existsb_exists. exists a. split; [by apply list_elem_of_In|done]. }
  simpl. destruct l as [|x [|y l]].
  - by apply elem_of_nil in Ha.
  - apply list_elem_of_singleton in Ha, Hb. subst. congruence.
  - rewrite Hex. by eexists.
Qed.

Lemma sorted_Permutation l : merge_sort label_le l ≡ₚ l.
Proof. apply merge_sort_Permutation. Qed.

Lemma sorted_StronglySorted l : StronglySorted label_le (merge_sort label_le l).
Proof. apply StronglySorted_merge_sort; apply _. Qed.

(** A list of labels of one kind has one sorted arrangement. *)
Lemma StronglySorted_kin_unique (l1 : list label) : ∀ l2,
  (∀ a b, a ∈ l1 → b ∈ l1 → kin a b) →
  StronglySorted label_le l1 → StronglySorted label_le l2 → l1 ≡ₚ l2 → l1 = l2.
Proof.
  induction l1 as [|x1 l1 IH]; intros l2 Hk H1 H2 Hp.
  - by apply Permutation_nil_l in Hp.
  - destruct l2 as [|x2 l2]; [by apply Permutation_nil_r in Hp|].
    apply StronglySorted_inv in H1 as [H1 Hx1].
    apply StronglySorted_inv in H2 as [H2 Hx2].
    rewrite Forall_forall in Hx1, Hx2.
    assert (x1 = x2) as ->.
    { assert (x2 ∈ x1 :: l1) as Hin2 by (rewrite Hp; apply elem_of_cons; by left).
      assert (x1 ∈ x2 :: l2) as Hin1 by (rewrite <- Hp; apply elem_of_cons; by left).
      apply elem_of_cons in Hin2 as [->|Hin2]; [done|].
      apply elem_of_cons in Hin1 as [->|Hin1]; [done|].
      apply label_le_antisym_kin; [|by apply Hx1|by apply Hx2].
      apply Hk; apply elem_of_cons; [by left|by right]. }
    f_equal. apply IH; [|done|done|by apply Permutation_cons_inv in Hp].
    intros a b Ha Hb. apply Hk; apply elem_of_cons; by right.
Qed.

(** Two tables with the same set of labels, all of one kind, have the
    same sorted list of distinct labels. *)
Lemma sorted_unique_ext (l1 l2 : list label) :
  one_kind l1 = true → (∀ x, x ∈ l1 ↔ x ∈ l2) →
  merge_sort label_le (unique l1) = merge_sort label_le (unique l2).
Proof.
  intros Hk H.
  assert (one_kind l2 = true) as Hk2.
  { apply (one_kind_subset l1); [|done]. intros x. apply H. }
  apply StronglySorted_kin_unique; try apply sorted_StronglySorted.
  - intros a b. rewrite !sorted_Permutation, !elem_of_unique by done.
    by apply one_kind_kin.
  - rewrite !sorted_Permutation.
    apply NoDup_Permutation; try by apply unique_NoDup.
    intros x. rewrite !elem_of_unique by done. apply H.
Qed.

Lemma dict_set_fresh d k v :
  (∀ k', k' ∈ map fst d → label_eqb k' k = false) →
  dict_set d k v = (d ++ [(k, v)])%list.
Proof.
  induction d as [|[k' v'] d IH]; intros H; simpl; [done|].
  rewrite (H k') by (simpl; apply elem_of_cons; by left).
  f_equal. apply IH. intros k0 Hk0. apply H. simpl. apply elem_of_cons. by right.
Qed.

(** Building the dictionary from distinct labels of one kind puts them
    in order, each with its position. *)
Lemma index_dict_fold (labels : list label) : ∀ (k : nat) (d : list (label * nat)),
  (∀ a b, a ∈ (map fst d ++ labels)%list → b ∈ (map fst d ++ labels)%list → kin a b) →
  NoDup (map fst d ++ labels) →
  fold_left (λ d il, dict_set d il.2 il.1) (enumerate_from k labels) d
  = (d ++ map (λ il, (il.2, il.1)) (enumerate_from k labels))%list.
Proof.
  induction labels as [|x labels IH]; intros k d Hk Hnd; simpl.
  - by rewrite app_nil_r.
  - rewrite dict_set_fresh.
    + rewrite IH.
      * by rewrite <- app_assoc.
      * intros a b. rewrite map_app. simpl. rewrite <- !app_assoc. simpl. apply Hk.
      * rewrite map_app. simpl. rewrite <- app_assoc. simpl. exact Hnd.
    + intros k' Hk'. apply not_true_is_false. intros Heq.
      apply label_eqb_kin in Heq; [|apply Hk; set_solver]. subst k'.
      apply NoDup_app in Hnd as (_ & Hd & _). apply (Hd x Hk').
      apply elem_of_cons. by left.
Qed.

Lemma dict_get_enumerate (labels : list label) : ∀ (k : nat) l i,
  (∀ a, a ∈ labels → kin a l) → NoDup labels →
  dict_get (map (λ il, (il.2, il.1)) (enumerate_from k labels)) l = Some i ↔
  ∃ j, labels !! j = Some l ∧ i = (k + j)%nat.
Proof.
  induction labels as [|x labels IH]; intros k l i Hk Hnd; simpl.
  - split; [done|]. by intros (j & Hj & _).
  - apply NoDup_cons in Hnd as [Hx Hnd].
    assert (kin x l) as Hxl by (apply Hk, elem_of_cons; by left).
    destruct (label_eqb x l) eqn:Heq.
    + apply label_eqb_kin in Heq; [|done]. subst x. split.
      * intros [= <-]. exists 0%nat. split; [done|lia].
      * intros ([|j] & Hj & ->); [f_equal; lia|].
        simpl in Hj. exfalso. apply Hx. by eapply list_elem_of_lookup_2.
    + assert (x ≠ l) as Hne.
      { intros ->. apply label_eqb_kin in Hxl. rewrite (proj2 Hxl eq_refl) in Heq.
        discriminate. }
      rewrite (IH (S k) l i); [|intros a Ha; apply Hk, elem_of_cons; by right|done].
      split.
      * intros (j & Hj & ->). exists (S j). split; [done|lia].
      * intros ([|j] & Hj & ->); simpl in Hj; [congruence|].
        exists j. split; [done|lia].
Qed.

End Labels.

(** The label map of a table whose labels are all strings, or all
    integers: the distinct labels in sorted order, each with its
    position. *)
Lemma build_label_index_map_one_kind E df :
  let column := map snd (df_rows df) in
  let labels := merge_sort label_le (unique column) in
  one_kind column = true →
  build_label_index_map E df = Ok (index_dict labels) ∧
  StronglySorted label_le labels ∧ NoDup labels ∧
  (∀ l, l ∈ labels ↔ l ∈ column) ∧
  (∀ l i, one_kind (l :: column) = true →
     dict_get (index_dict labels) l = Some i ↔ labels !! i = Some l).
Proof.
  intros column labels Hk.
  assert (NoDup labels) as Hnd.
  { unfold labels. rewrite sorted_Permutation. by apply unique_NoDup. }
  assert (∀ l, l ∈ labels ↔ l ∈ column) as Hin.
  { intros l. unfold labels. rewrite sorted_Permutation. by apply elem_of_unique. }
  split_and!; try done.
  - unfold build_label_index_map. fold column.
    rewrite py_sorted_one_kind.
    + simpl. fold labels. unfold index_dict.
      rewrite (index_dict_fold labels 0 []); [done| |done].
      simpl. intros a b Ha%Hin Hb%Hin. by apply (one_kind_kin column).
    + apply (one_kind_subset column); [|done]. apply unique_subset.
  - apply sorted_StronglySorted.
  - intros l i Hkl. unfold index_dict.
    rewrite (dict_get_enumerate labels 0 l i); [|
      intros a Ha%Hin; apply (one_kind_kin (l :: column)); set_solver | done].
    split; [by intros (j & Hj & ->)|by exists i].
Qed.

(** ** Prediction extraction *)

Lemma prediction_of_lacks_outputs E payload :
  lacks_outputs payload → prediction_of E payload = Ok no_prediction.
Proof.
  intros (m & -> & H). unfold prediction_of. simpl.
  destruct H as [->|(pe & -> & H)]; simpl; [reflexivity|].
  destruct H as [->|(o & -> & Ho)]; simpl; [reflexivity|].
  rewrite Ho. reflexivity.
Qed.

(** ** Reasoning about computations *)

Section Monad_facts.
Context {A B : Type}.

Lemma bind_Ok (m : M A) (k : A → M B) w b w' :
  bind m k w = (Ok b, w') →
  ∃ a w1, m w = (Ok a, w1) ∧ k a w1 = (Ok b, w').
Proof.
  unfold bind. destruct (m w) as [[a|e] w1]; [eauto|discriminate].
Qed.

Lemma bind_Raise (m : M A) (k : A → M B) w e w' :
  bind m k w = (Raise e, w') →
  m w = (Raise e, w') ∨ ∃ a w1, m w = (Ok a, w1) ∧ k a w1 = (Raise e, w').
Proof.
  unfold bind. destruct (m w) as [[a|e1] w1]; [eauto|].
  intros H. left. inversion H. reflexivity.
Qed.

Lemma bind_step (m : M A) (k : A → M B) w a w1 :
  m w = (Ok a, w1) → bind m k w = k a w1.
Proof. unfold bind. intros ->. reflexivity. Qed.

Lemma bind_fail (m : M A) (k : A → M B) w e w1 :
  m w = (Raise e, w1) → bind m k w = (Raise e, w1).
Proof. unfold bind. intros ->. reflexivity. Qed.

Lemma lift_Ok (r : res A) w a w' : lift r w = (Ok a, w') → r = Ok a ∧ w' = w.
Proof. unfold lift. intros H. inversion H. done. Qed.

Lemma ret_Ok (x : A) w a w' : ret x w = (Ok a, w') → a = x ∧ w' = w.
Proof. unfold ret. intros H. inversion H. done. Qed.

End Monad_facts.

Section Keeps.
Context (R : world → world → Prop) `{!PreOrder R}.

Lemma keeps_ret {A} (a : A) : keeps R (ret a).
Proof. intros w r w' H. inversion H. reflexivity. Qed.

Lemma keeps_raise {A} (e : exn) : keeps R (raise (A := A) e).
Proof. intros w r w' H. inversion H. reflexivity. Qed.

Lemma keeps_lift {A} (x : res A) : keeps R (lift x).
Proof. intros w r w' H. inversion H. reflexivity. Qed.

Lemma keeps_bind {A B} (m : M A) (k : A → M B) :
  keeps R m → (∀ a, keeps R (k a)) → keeps R (bind m k).
Proof.
  intros Hm Hk w r w'. unfold bind.
  destruct (m w) as [[a|e] w1] eqn:E; intros H.
  - transitivity w1; [exact (Hm _ _ _ E)|exact (Hk _ _ _ _ H)].
  - inversion H; subst. exact (Hm _ _ _ E).
Qed.

Lemma keeps_try_except {A} (cls : string) (m : M A) (h : exn → M A) :
  keeps R m → (∀ e, keeps R (h e)) → keeps R (try_except cls m h).
Proof.
  intros Hm Hh w r w'. unfold try_except.
  destruct (m w) as [[a|e] w1] eqn:E; intros H.
  - inversion H; subst. exact (Hm _ _ _ E).
  - destruct (is_instance e cls).
    + transitivity w1; [exact (Hm _ _ _ E)|exact (Hh _ _ _ _ H)].
    + inversion H; subst. exact (Hm _ _ _ E).
Qed.

Lemma keeps_getitem d k : keeps R (getitem d k).
Proof. unfold getitem. destruct (d !! k); [apply keeps_ret|apply keeps_raise]. Qed.

End Keeps.

#[global] Instance extends_preorder ok : PreOrder (extends ok).
Proof.
  split.
  - intros w. split_and!; try done. exists []. by rewrite app_nil_r.
  - intros w1 w2 w3 (Hc1 & Hd1 & evs1 & Ht1 & Ho1) (Hc2 & Hd2 & evs2 & Ht2 & Ho2).
    split_and!; try congruence.
    exists (evs1 ++ evs2)%list. split.
    + rewrite Ht2, Ht1. by rewrite app_assoc.
    + rewrite forallb_app, Ho1, Ho2. done.
Qed.

(** A computation that changes neither chain, directory nor history. *)
Lemma extends_same ok w w' :
  w_chain w' = w_chain w → w_cwd w' = w_cwd w → w_trace w' = w_trace w →
  extends ok w w'.
Proof.
  intros Hc Hd Ht. split_and!; try done. exists []. by rewrite app_nil_r.
Qed.

Section Keeps_extends.
Context (ok : event → bool).

Lemma keeps_now : keeps (extends ok) now.
Proof. intros w r w' H. inversion H; subst. by apply extends_same. Qed.

Lemma keeps_randint : keeps (extends ok) randint.
Proof. intros w r w' H. inversion H; subst. by apply extends_same. Qed.

Lemma keeps_next_fault : keeps (extends ok) next_fault.
Proof. intros w r w' H. inversion H; subst. by apply extends_same. Qed.

Lemma keeps_emit ev : ok ev = true → keeps (extends ok) (emit ev).
Proof.
  intros Hev w r w' H. inversion H; subst. split_and!; try done.
  exists [ev]. split; [done|]. simpl. by rewrite Hev.
Qed.

Lemma keeps_os_isfile path : keeps (extends ok) (os_isfile path).
Proof. intros w r w' H. inversion H; subst. by apply extends_same. Qed.

Lemma keeps_os_read path : keeps (extends ok) (os_read path).
Proof. intros w r w' H. inversion H; subst. by apply extends_same. Qed.

Lemma keeps_os_write path data : keeps (extends ok) (os_write path data).
Proof.
  unfold os_write. apply keeps_bind; [apply _|apply keeps_next_fault|].
  intros [[e|e written]|] w r w' H.
  - inversion H; subst. by apply extends_same.
  - destruct (write_file (w_fs w) (w_cwd w) path (take written data));
      inversion H; subst; by apply extends_same.
  - destruct (write_file (w_fs w) (w_cwd w) path data); inversion H; subst;
      by apply extends_same.
Qed.

Lemma keeps_on_files {A}
    (op : list string → gmap (list string) node → res A * gmap (list string) node) :
  keeps (extends ok) (on_files op).
Proof.
  intros w r w' H. unfold on_files in H.
  destruct (op (w_cwd w) (w_fs w)) as [r0 f]. inversion H; subst.
  by apply extends_same.
Qed.

Lemma keeps_ensure_dir path : keeps (extends ok) (ensure_dir path).
Proof.
  intros w r w' H. unfold ensure_dir in H.
  destruct (makedirs (w_fs w) (w_cwd w) path); inversion H; subst;
    by apply extends_same.
Qed.

Lemma keeps_task_paths cfg task_id : keeps (extends ok) (task_paths cfg task_id).
Proof.
  unfold task_paths. apply keeps_bind; [apply _|apply keeps_ensure_dir|].
  intros _. apply keeps_ret. apply _.
Qed.

Lemma keeps_save_json E path payload : keeps (extends ok) (save_json E path payload).
Proof. apply keeps_os_write. Qed.

Lemma keeps_load_json E path : keeps (extends ok) (load_json E path).
Proof.
  unfold load_json. apply keeps_bind; [apply _|apply keeps_os_read|].
  intros bytes. apply keeps_lift. apply _.
Qed.

Lemma keeps_update_status E paths step message error :
  (∀ t, ok (EvStatus {| st_step := step; st_message := message;
                        st_error := error; st_timestamp := t |}) = true) →
  keeps (extends ok) (update_status E paths step message error).
Proof.
  intros Hok. unfold update_status.
  apply keeps_bind; [apply _|apply keeps_now|]. intros t.
  apply keeps_bind; [apply _|apply keeps_getitem; apply _|]. intros p.
  apply keeps_bind; [apply _|apply keeps_save_json|]. intros _.
  apply keeps_emit. apply Hok.
Qed.

Lemma keeps_stage {A} (name : string)
    (op : list string → gmap (list string) node → res A * gmap (list string) node) :
  ok (EvStage name) = true → keeps (extends ok) (stage name op).
Proof.
  intros Hok. unfold stage.
  apply keeps_bind; [apply _|by apply keeps_emit|]. intros _. apply keeps_on_files.
Qed.

Lemma keeps_extract_prediction E path : keeps (extends ok) (extract_prediction E path).
Proof.
  unfold extract_prediction. apply keeps_bind; [apply _|apply keeps_load_json|].
  intros payload. apply keeps_lift. apply _.
Qed.

End Keeps_extends.

Lemma extends_no_event w w' : extends no_event w w' → w_trace w' = w_trace w.
Proof.
  intros (_ & _ & evs & Ht & Hev). destruct evs; [|discriminate].
  by rewrite app_nil_r in Ht.
Qed.

(** ** The file system *)

#[global] Instance grows_preorder : PreOrder grows.
Proof.
  split.
  - intros f p. by left.
  - intros f1 f2 f3 H12 H23 p.
    destruct (H12 p) as [E1|[E1 E1']], (H23 p) as [E2|[E2 E2']].
    + left. congruence.
    + right. split; congruence.
    + right. split; congruence.
    + congruence.
Qed.

Lemma grows_insert_dir f q : f !! q = None → grows f (<[q := Dir]> f).
Proof.
  intros Hq p. destruct (decide (q = p)) as [->|Hne].
  - right. by rewrite lookup_insert_eq.
  - left. by rewrite lookup_insert_ne.
Qed.

(** Growing keeps every file, and adds none. *)
Lemma grows_files f f' p d :
  grows f f' → f' !! p = Some (File d) ↔ f !! p = Some (File d).
Proof.
  intros H. destruct (H p) as [E|[E E']]; rewrite ?E; [done|].
  rewrite E'. split; discriminate.
Qed.

Lemma grows_subseteq f f' : grows f f' → f ⊆ f'.
Proof.
  intros H. apply map_subseteq_spec. intros p n Hp.
  destruct (H p) as [E|[E E']]; congruence.
Qed.

Lemma node_at_nonroot f p : p ≠ [] → node_at f p = f !! p.
Proof. by destruct p. Qed.

Lemma node_at_None f p : node_at f p = None → p ≠ [] ∧ f !! p = None.
Proof. destruct p; [discriminate|]. done. Qed.

Lemma grows_node_at_dir f f' p :
  grows f f' → node_at f p = Some Dir → node_at f' p = Some Dir.
Proof.
  intros H. destruct p as [|c p]; [done|]. simpl.
  destruct (H (c :: p)) as [E|[E E']]; congruence.
Qed.

Lemma mkdirs_grows path comps : ∀ f cur f',
  mkdirs f path cur comps = Ok f' → grows f f'.
Proof.
  induction comps as [|c rest IH]; intros f cur f'; simpl.
  - intros H. inversion H. reflexivity.
  - destruct (node_at f (step_comp cur c)) as [[d|]|] eqn:E.
    + destruct rest; discriminate.
    + apply IH.
    + intros H. apply node_at_None in E as [_ E].
      transitivity (<[step_comp cur c := Dir]> f);
        [by apply grows_insert_dir|by eapply IH].
Qed.

(** A second [makedirs] finds every directory and changes nothing. *)
Lemma mkdirs_again path comps : ∀ f cur f',
  mkdirs f path cur comps = Ok f' → mkdirs f' path cur comps = Ok f'.
Proof.
  induction comps as [|c rest IH]; intros f cur f'; simpl; [done|].
  destruct (node_at f (step_comp cur c)) as [[d|]|] eqn:E.
  - destruct rest; discriminate.
  - intros H. rewrite (grows_node_at_dir _ _ _ (mkdirs_grows _ _ _ _ _ H) E).
    by eapply IH.
  - intros H. apply node_at_None in E as [Hne E].
    assert (node_at f' (step_comp cur c) = Some Dir) as ->.
    { apply (grows_node_at_dir (<[step_comp cur c := Dir]> f));
        [by eapply mkdirs_grows|].
      rewrite node_at_nonroot by done. apply lookup_insert_eq. }
    by eapply IH.
Qed.

Lemma walk_dir_start f path comps : ∀ cur q,
  walk f path cur comps = Ok q → is_dir_at f q = true → is_dir_at f cur = true.
Proof.
  destruct comps as [|c rest]; intros cur q; simpl.
  - intros H. by inversion H.
  - destruct (is_dir_at f cur); [done|discriminate].
Qed.

Lemma is_dir_at_node f p : is_dir_at f p = true ↔ node_at f p = Some Dir.
Proof.
  unfold is_dir_at. destruct (node_at f p) as [[d|]|]; split; congruence.
Qed.

(** [makedirs] of an existing directory changes nothing. *)
Lemma mkdirs_existing path path' comps : ∀ f cur q,
  walk f path' cur comps = Ok q → is_dir_at f q = true →
  mkdirs f path cur comps = Ok f.
Proof.
  induction comps as [|c rest IH]; intros f cur q; simpl; [done|].
  destruct (is_dir_at f cur); [|discriminate].
  intros Hw Hq.
  pose proof (walk_dir_start _ _ _ _ _ Hw Hq) as Hn.
  apply is_dir_at_node in Hn. rewrite Hn. by eapply IH.
Qed.

(** Writing a file changes no directory. *)
Lemma is_dir_at_insert_file f q d x :
  node_at f q ≠ Some Dir → is_dir_at (<[q := File d]> f) x = is_dir_at f x.
Proof.
  intros Hq. unfold is_dir_at. destruct x as [|c x]; [done|]. simpl.
  destruct (decide (q = c :: x)) as [->|Hne].
  - rewrite lookup_insert_eq. simpl in Hq.
    destruct (f !! (c :: x)) as [[?|]|]; congruence.
  - by rewrite lookup_insert_ne.
Qed.

Lemma walk_same_dirs f f' path path' comps : ∀ cur q,
  (∀ x, is_dir_at f' x = is_dir_at f x) →
  walk f path cur comps = Ok q → walk f' path' cur comps = Ok q.
Proof.
  induction comps as [|c rest IH]; intros cur q Hd; simpl; [done|].
  rewrite Hd. destruct (is_dir_at f cur); [|discriminate]. by apply IH.
Qed.

Lemma write_file_Ok f cwd path data f' :
  write_file f cwd path data = Ok f' →
  ∃ q, resolve f cwd path = Ok q ∧ node_at f q ≠ Some Dir ∧ q ≠ [] ∧
       f' = <[q := File data]> f.
Proof.
  unfold write_file. destruct (resolve f cwd path) as [q|e] eqn:Hr; [|discriminate].
  destruct (node_at f q) as [[d|]|] eqn:Hn.
  - intros H. inversion H. exists q. split_and!; try done.
    + congruence.
    + intros ->. discriminate.
  - discriminate.
  - destruct (is_dir_at f (removelast q)); [|discriminate].
    intros H. inversion H. exists q. split_and!; try done.
    + congruence.
    + intros ->. discriminate.
Qed.

(** The written path resolves as before. *)
Lemma resolve_after_write f cwd path data f' q :
  write_file f cwd path data = Ok f' → resolve f cwd path = Ok q →
  resolve f' cwd path = Ok q.
Proof.
  intros (q' & Hr & Hn & Hq & ->)%write_file_Ok Hr'.
  assert (q' = q) as -> by congruence.
  unfold resolve in *. destruct (String.eqb path ""); [discriminate|].
  eapply walk_same_dirs; [|exact Hr].
  intros x. by apply is_dir_at_insert_file.
Qed.

(** What was written is what is read. *)
Lemma read_after_write f cwd path data f' :
  write_file f cwd path data = Ok f' → read_file f' cwd path = Ok data.
Proof.
  intros (q & Hr & Hn & Hq & ->)%write_file_Ok.
  unfold read_file.
  assert (resolve (<[q := File data]> f) cwd path = Ok q) as ->.
  { unfold resolve in *. destruct (String.eqb path ""); [discriminate|].
    eapply walk_same_dirs; [|exact Hr].
    intros x. by apply is_dir_at_insert_file. }
  rewrite node_at_nonroot by done. by rewrite lookup_insert_eq.
Qed.

(** ** Resolving the artifact set *)

#[global] Instance only_new_dirs_preorder : PreOrder only_new_dirs.
Proof.
  split.
  - intros w. by split_and!.
  - intros w1 w2 w3 (Hf1 & ? & ? & ? & ? & ? & ? & ?) (Hf2 & ? & ? & ? & ? & ? & ? & ?).
    split_and!; try congruence. by transitivity (w_fs w2).
Qed.

Lemma only_new_dirs_refl_eq w w' : w' = w → only_new_dirs w w'.
Proof. intros ->. reflexivity. Qed.

Lemma makedirs_grows f cwd path f' : makedirs f cwd path = Ok f' → grows f f'.
Proof.
  unfold makedirs. destruct (String.eqb path ""); [discriminate|].
  apply mkdirs_grows.
Qed.

Lemma makedirs_again f cwd path f' :
  makedirs f cwd path = Ok f' → makedirs f' cwd path = Ok f'.
Proof.
  unfold makedirs. destruct (String.eqb path ""); [discriminate|].
  apply mkdirs_again.
Qed.

Lemma makedirs_existing f cwd path :
  isdir f cwd path = true → makedirs f cwd path = Ok f.
Proof.
  unfold isdir, makedirs, resolve. destruct (String.eqb path ""); [discriminate|].
  destruct (walk f path (start_dir cwd path) (split_path path)) as [q|e] eqn:Hw;
    [|discriminate].
  intros Hq. by eapply mkdirs_existing.
Qed.

Lemma keeps_dirs_ensure_dir path : keeps only_new_dirs (ensure_dir path).
Proof.
  intros w r w'. unfold ensure_dir.
  destruct (makedirs (w_fs w) (w_cwd w) path) as [f|e] eqn:Hm; intros H;
    inversion H; subst; [|reflexivity].
  split_and!; try done. simpl. by eapply makedirs_grows.
Qed.

Lemma keeps_dirs_task_paths cfg task_id : keeps only_new_dirs (task_paths cfg task_id).
Proof.
  unfold task_paths. apply keeps_bind; [apply _|apply keeps_dirs_ensure_dir|].
  intros _. apply keeps_ret. apply _.
Qed.

Lemma keeps_dirs_os_isfile path : keeps only_new_dirs (os_isfile path).
Proof. intros w r w' H. inversion H. reflexivity. Qed.

Lemma keeps_dirs_os_read path : keeps only_new_dirs (os_read path).
Proof. intros w r w' H. inversion H. reflexivity. Qed.

Lemma keeps_dirs_get_status cfg E task_id : keeps only_new_dirs (get_status cfg E task_id).
Proof.
  unfold get_status.
  apply keeps_bind; [apply _|apply keeps_dirs_task_paths|]. intros paths.
  apply keeps_bind; [apply _|apply keeps_getitem; apply _|]. intros p.
  apply keeps_bind; [apply _|apply keeps_dirs_os_isfile|]. intros [|]; simpl.
  - unfold load_json.
    apply keeps_bind; [apply _| |intros; apply keeps_ret; apply _].
    apply keeps_bind; [apply _|apply keeps_dirs_os_read|].
    intros bytes. apply keeps_lift. apply _.
  - apply keeps_ret. apply _.
Qed.

(** C7, as stated, fails: a status query creates task state.  Asking for
    the status of the never uploaded task "ghost" answers 404 and leaves
    the directory of that task on disk. *)
Lemma get_status_creates_directory :
  let w' := (get_status toy_config (toy_externals JNull) "ghost" toy_world).2 in
  (get_status toy_config (toy_externals JNull) "ghost" toy_world).1
  = Ok {| rs_code := 404; rs_body := error_json "unknown task id" |} ∧
  w_fs toy_world !! ["srv"; "artifacts"; "ghost"] = None ∧
  w_fs w' !! ["srv"; "artifacts"; "ghost"] = Some Dir.
Proof. vm_compute. done. Qed.

(** C7, amended: resolving the Artifact Set creates the task's directory,
    and every request resolves it, a status query too.  Apart from the
    task directory (and its missing ancestors) a status query creates and
    modifies nothing: every file keeps its content, no file appears, and
    the clock, the chain and the history of the run are untouched, for
    every task ID including IDs never uploaded. *)
Theorem get_status_creates_no_file cfg E task_id w :
  let w' := (get_status cfg E task_id w).2 in
  only_new_dirs w w' ∧
  (∀ p d, w_fs w' !! p = Some (File d) ↔ w_fs w !! p = Some (File d)) ∧
  (∀ p, w_fs w' !! p ≠ w_fs w !! p → w_fs w !! p = None ∧ w_fs w' !! p = Some Dir).
Proof.
  intros w'.
  assert (only_new_dirs w w') as H.
  { eapply (keeps_dirs_get_status cfg E task_id w). apply surjective_pairing. }
  split; [exact H|]. destruct H as (Hg & _). split.
  - intros p d. by apply grows_files.
  - intros p Hne. destruct (Hg p) as [E'|E']; [done|exact E'].
Qed.

(** *** Path strings *)

Lemma append_cons (x : ascii) (a b : string) :
  String x a +:+ b = String x (a +:+ b).
Proof. reflexivity. Qed.

Lemma append_nil_l (b : string) : "" +:+ b = b.
Proof. reflexivity. Qed.

Lemma append_assoc (a b c : string) : (a +:+ b) +:+ c = a +:+ (b +:+ c).
Proof.
  induction a as [|x a IH]; [reflexivity|].
  rewrite !append_cons. by rewrite IH.
Qed.

Lemma append_nil_r (a : string) : a +:+ "" = a.
Proof.
  induction a as [|x a IH]; [reflexivity|].
  rewrite append_cons. by rewrite IH.
Qed.

Lemma append_eq_nil (a b : string) : a +:+ b = "" → a = "" ∧ b = "".
Proof.
  destruct a; [rewrite append_nil_l; done|].
  rewrite append_cons. discriminate.
Qed.

Lemma endswith_sep_append (a b : string) :
  b ≠ "" → endswith_sep (a +:+ b) = endswith_sep b.
Proof.
  intros Hb. induction a as [|x a IH]; [reflexivity|].
  rewrite append_cons. simpl.
  rewrite IH. destruct (a +:+ b) eqn:E; [|done].
  apply append_eq_nil in E as [_ ?]. done.
Qed.

Lemma no_sep_ends (t : string) : no_sep t = true → endswith_sep t = false.
Proof.
  induction t as [|x t IH]; simpl; [done|].
  intros [Hx Ht]%andb_prop. destruct t; [|by apply IH].
  by destruct (Ascii.eqb x sep).
Qed.

Lemma no_sep_starts (t : string) : no_sep t = true → startswith_sep t = false.
Proof.
  destruct t as [|x t]; simpl; [done|].
  intros [Hx _]%andb_prop. by destruct (Ascii.eqb x sep).
Qed.

Lemma no_sep_append_sep (a b : string) : no_sep (a +:+ "/" +:+ b) = false.
Proof.
  induction a as [|x a IH]; [reflexivity|].
  rewrite append_cons. simpl. rewrite IH. apply andb_false_r.
Qed.

(** A name without a separator is cut off at the first separator. *)
Lemma no_sep_cut (a : string) : ∀ a' b b',
  no_sep a = true → no_sep a' = true →
  a +:+ "/" +:+ b = a' +:+ "/" +:+ b' → a = a' ∧ b = b'.
Proof.
  induction a as [|x a IH]; intros [|x' a'] b b';
    rewrite ?append_cons, ?append_nil_l; simpl.
  - intros _ _ H. by inversion H.
  - intros _ [Hx _]%andb_prop H. inversion H; subst. discriminate.
  - intros [Hx _]%andb_prop _ H. inversion H; subst. discriminate.
  - intros [_ Ha]%andb_prop [_ Ha']%andb_prop H. inversion H; subst.
    destruct (IH _ _ _ Ha Ha' H2) as [-> ->]. done.
Qed.

Lemma path_join_relative (a b : string) :
  startswith_sep b = false → path_join a b = join_prefix a +:+ b.
Proof.
  intros Hb. unfold path_join, join_prefix. rewrite Hb.
  destruct (String.eqb a "" || endswith_sep a); [done|].
  by rewrite append_assoc.
Qed.

(** The path of an artifact of a task with a plain name. *)
Lemma path_join_plain (root task_id name : string) :
  no_sep task_id = true → task_id ≠ "" → startswith_sep name = false →
  path_join (path_join root task_id) name
  = join_prefix root +:+ (task_id +:+ "/" +:+ name).
Proof.
  intros Ht Hne Hn.
  rewrite (path_join_relative root task_id) by by apply no_sep_starts.
  unfold path_join. rewrite Hn.
  rewrite endswith_sep_append by done. rewrite (no_sep_ends _ Ht).
  destruct (String.eqb_spec (join_prefix root +:+ task_id) "") as [E|_].
  - apply append_eq_nil in E as [_ ?]. done.
  - simpl. by rewrite !append_assoc.
Qed.

Lemma fold_insert_lookup (g : string → string) (l : list (string * string)) :
  ∀ (m : gmap string string) k v,
    fold_left (λ (d : gmap string string) kv, <[kv.1 := g kv.2]> d) l m !! k = Some v →
    m !! k = Some v ∨ ∃ n, n ∈ map snd l ∧ v = g n.
Proof.
  induction l as [|[k0 n0] l IH]; intros m k v; simpl; [by left|].
  intros [H|(n & Hn & ->)]%IH.
  - destruct (decide (k0 = k)) as [->|Hne].
    + rewrite lookup_insert_eq in H. inversion H. right. exists n0.
      split; [apply elem_of_cons; by left|done].
    + rewrite lookup_insert_ne in H by done. by left.
  - right. exists n. split; [apply elem_of_cons; by right|done].
Qed.

(** Every path of the artifact set is the base directory or one of the
    thirteen names in it. *)
Lemma paths_of_lookup cfg task_id k v :
  paths_of cfg task_id !! k = Some v →
  v = path_join (APP_ROOT cfg) task_id ∨
  ∃ n, n ∈ map snd artifact_names ∧ v = path_join (path_join (APP_ROOT cfg) task_id) n.
Proof.
  unfold paths_of.
  intros [H|H]%(fold_insert_lookup (path_join (path_join (APP_ROOT cfg) task_id))).
  - left. destruct (decide ("base" = k)) as [<-|Hne].
    + rewrite lookup_insert_eq in H. by inversion H.
    + rewrite lookup_insert_ne in H by done. by rewrite lookup_empty in H.
  - by right.
Qed.

Lemma artifact_names_relative n :
  n ∈ map snd artifact_names → startswith_sep n = false.
Proof.
  intros H. simpl in H. repeat (apply elem_of_cons in H as [->|H]; [reflexivity|]).
  by apply elem_of_nil in H.
Qed.

(** The path strings of two tasks with distinct plain names never
    coincide. *)
Lemma paths_of_disjoint cfg t t' k k' v v' :
  no_sep t = true → no_sep t' = true → t ≠ "" → t' ≠ "" → t ≠ t' →
  paths_of cfg t !! k = Some v → paths_of cfg t' !! k' = Some v' → v ≠ v'.
Proof.
  intros Ht Ht' Hne Hne' Hd Hv Hv' Heq. subst v'.
  apply paths_of_lookup in Hv as [->|(n & Hn & ->)];
    apply paths_of_lookup in Hv' as [Hv'|(n' & Hn' & Hv')].
  - rewrite !path_join_relative in Hv' by by apply no_sep_starts.
    apply String.app_inj in Hv'. done.
  - rewrite path_join_plain in Hv' by eauto using artifact_names_relative.
    rewrite path_join_relative in Hv' by by apply no_sep_starts.
    apply String.app_inj in Hv'. subst t.
    by rewrite no_sep_append_sep in Ht.
  - rewrite path_join_plain in Hv' by eauto using artifact_names_relative.
    rewrite path_join_relative in Hv' by by apply no_sep_starts.
    apply String.app_inj in Hv'. subst t'.
    by rewrite no_sep_append_sep in Ht'.
  - rewrite !path_join_plain in Hv' by eauto using artifact_names_relative.
    apply String.app_inj in Hv'.
    apply no_sep_cut in Hv' as [? _]; done.
Qed.

Lemma set_fs_same w : set_fs (w_fs w) w = w.
Proof. by destruct w. Qed.

Lemma task_paths_Ok cfg task_id w p w1 :
  task_paths cfg task_id w = (Ok p, w1) →
  p = paths_of cfg task_id ∧
  makedirs (w_fs w) (w_cwd w) (path_join (APP_ROOT cfg) task_id) = Ok (w_fs w1) ∧
  w1 = set_fs (w_fs w1) w.
Proof.
  unfold task_paths, bind, ensure_dir, ret.
  destruct (makedirs (w_fs w) (w_cwd w) (path_join (APP_ROOT cfg) task_id)) as [f|e];
    intros H; inversion H; subst. done.
Qed.

Lemma task_paths_of_makedirs cfg task_id w f :
  makedirs (w_fs w) (w_cwd w) (path_join (APP_ROOT cfg) task_id) = Ok f →
  task_paths cfg task_id w = (Ok (paths_of cfg task_id), set_fs f w).
Proof. unfold task_paths, bind, ensure_dir, ret. by intros ->. Qed.

(** ** Resolved paths *)

Lemma split_path_nonempty s : split_path s ≠ [].
Proof.
  destruct s as [|c s]; simpl; [done|].
  destruct (Ascii.eqb c sep); [done|]. by destruct (split_path s).
Qed.

Lemma split_path_append (a b : string) :
  split_path (a +:+ "/" +:+ b) = (split_path a ++ split_path b)%list.
Proof.
  induction a as [|x a IH]; [reflexivity|].
  rewrite append_cons. simpl. rewrite IH.
  destruct (Ascii.eqb x sep); [done|].
  pose proof (split_path_nonempty a). by destruct (split_path a).
Qed.

Lemma split_path_sep_end (a : string) :
  split_path (a +:+ "/") = (split_path a ++ [""])%list.
Proof. apply (split_path_append a ""). Qed.

Lemma split_path_plain (a : string) : no_sep a = true → split_path a = [a].
Proof.
  induction a as [|x a IH]; simpl; [done|].
  intros [Hx Ha]%andb_prop. rewrite (IH Ha).
  by destruct (Ascii.eqb x sep).
Qed.

Lemma endswith_sep_inv (s : string) :
  endswith_sep s = true → ∃ s0, s = s0 +:+ "/".
Proof.
  induction s as [|x s IH]; simpl; [discriminate|].
  destruct s as [|y s].
  - intros ->%Ascii.eqb_eq. by exists "".
  - intros [s0 ->]%IH. by exists (String x s0).
Qed.

Lemma walk_app f path path1 path2 l1 : ∀ l2 cur q,
  walk f path cur (l1 ++ l2) = Ok q →
  ∃ m, walk f path1 cur l1 = Ok m ∧ walk f path2 m l2 = Ok q.
Proof.
  induction l1 as [|c l1 IH]; intros l2 cur q; simpl.
  - intros H. exists cur. split; [done|].
    revert cur H. induction l2 as [|c l2 IH2]; intros cur; simpl; [done|].
    destruct (is_dir_at f cur); [apply IH2|discriminate].
  - destruct (is_dir_at f cur); [apply IH|discriminate].
Qed.

Lemma walk_app_intro f path l1 : ∀ l2 cur m q,
  walk f path cur l1 = Ok m → walk f path m l2 = Ok q →
  walk f path cur (l1 ++ l2) = Ok q.
Proof.
  induction l1 as [|c l1 IH]; intros l2 cur m q; simpl.
  - intros H. inversion H; subst. done.
  - destruct (is_dir_at f cur); [apply IH|discriminate].
Qed.

Lemma walk_one f path cur c q :
  walk f path cur [c] = Ok q → is_dir_at f cur = true ∧ q = step_comp cur c.
Proof.
  simpl. destruct (is_dir_at f cur); [|discriminate].
  intros H. by inversion H.
Qed.

Lemma startswith_sep_append (a b : string) :
  a ≠ "" → startswith_sep (a +:+ b) = startswith_sep a.
Proof. by destruct a. Qed.

Lemma eqb_nonempty (s : string) : s ≠ "" → String.eqb s "" = false.
Proof. intros H. by apply String.eqb_neq. Qed.

(** Joining a name without separators to a directory path resolves to
    one step from that directory. *)
Lemma resolve_join_plain f cwd base a q :
  no_sep a = true → base ≠ "" →
  resolve f cwd (path_join base a) = Ok q →
  ∃ b, resolve f cwd base = Ok b ∧ is_dir_at f b = true ∧ q = step_comp b a.
Proof.
  intros Ha Hb. unfold path_join.
  rewrite (no_sep_starts _ Ha), (eqb_nonempty _ Hb). simpl.
  unfold resolve. rewrite (eqb_nonempty _ Hb).
  destruct (endswith_sep base) eqn:He.
  - destruct (endswith_sep_inv _ He) as [b0 ->].
    rewrite append_assoc.
    assert (b0 +:+ "/" +:+ a ≠ "") as Hne.
    { intros [_ E]%append_eq_nil. discriminate. }
    rewrite (eqb_nonempty _ Hne).
    assert (start_dir cwd (b0 +:+ "/" +:+ a) = start_dir cwd (b0 +:+ "/")) as ->.
    { unfold start_dir. by destruct b0. }
    rewrite split_path_append, (split_path_plain _ Ha), split_path_sep_end.
    intros (m & Hm & H1)%(walk_app _ _ (b0 +:+ "/") (b0 +:+ "/")).
    apply walk_one in H1 as [Hd ->].
    exists m. split_and!; try done.
    apply (walk_app_intro _ _ _ _ _ m); [done|].
    simpl. by rewrite Hd.
  - assert (base +:+ "/" +:+ a ≠ "") as Hne.
    { intros [? _]%append_eq_nil. done. }
    rewrite (eqb_nonempty _ Hne).
    assert (start_dir cwd (base +:+ "/" +:+ a) = start_dir cwd base) as ->.
    { unfold start_dir. by rewrite startswith_sep_append. }
    rewrite split_path_append, (split_path_plain _ Ha).
    intros (m & Hm & H1)%(walk_app _ _ base base).
    apply walk_one in H1 as [Hd ->].
    exists m. done.
Qed.

Lemma is_dir_at_grows f f' p :
  grows f f' → is_dir_at f p = true → is_dir_at f' p = true.
Proof.
  rewrite !is_dir_at_node. apply grows_node_at_dir.
Qed.

Lemma fs_tree_lookup f p n :
  fs_tree f → f !! p = Some n → is_dir_at f (removelast p) = true.
Proof. intros H Hp. exact (H p n Hp). Qed.

Lemma fs_tree_parent f cur :
  fs_tree f → is_dir_at f cur = true → is_dir_at f (removelast cur) = true.
Proof.
  intros Ht Hd. destruct cur as [|c cur]; [done|].
  apply is_dir_at_node in Hd. rewrite node_at_nonroot in Hd by done.
  by eapply fs_tree_lookup.
Qed.

Lemma fs_tree_insert_dir f q :
  fs_tree f → f !! q = None → is_dir_at f (removelast q) = true →
  fs_tree (<[q := Dir]> f).
Proof.
  intros Ht Hq Hd. pose proof (grows_insert_dir f q Hq) as Hg.
  apply map_Forall_insert_2.
  - by eapply is_dir_at_grows.
  - intros p n Hp. eapply is_dir_at_grows; [done|]. by eapply fs_tree_lookup.
Qed.

Lemma step_comp_cases cur c :
  step_comp cur c = cur ∨ step_comp cur c = removelast cur ∨
  (step_comp cur c = (cur ++ [c])%list ∧ c ≠ "" ∧ c ≠ "." ∧ c ≠ "..").
Proof.
  unfold step_comp.
  destruct (String.eqb_spec c ""), (String.eqb_spec c "."), (String.eqb_spec c "..");
    simpl; auto 10.
Qed.

(** [makedirs] keeps the file system a tree. *)
Lemma mkdirs_tree path comps : ∀ f cur f',
  fs_tree f → is_dir_at f cur = true →
  mkdirs f path cur comps = Ok f' → fs_tree f'.
Proof.
  induction comps as [|c rest IH]; intros f cur f' Ht Hd; simpl.
  - intros H. inversion H; subst. exact Ht.
  - destruct (node_at f (step_comp cur c)) as [[d|]|] eqn:E.
    + destruct rest; discriminate.
    + apply IH; [exact Ht|]. by apply is_dir_at_node.
    + pose proof (fs_tree_parent _ _ Ht Hd) as Hp.
      apply is_dir_at_node in Hd, Hp.
      destruct (step_comp_cases cur c) as [Hs|[Hs|(Hs & _)]];
        rewrite Hs in *; try congruence.
      apply node_at_None in E as [_ E].
      apply IH.
      * apply fs_tree_insert_dir; [exact Ht|exact E|].
        rewrite removelast_last. by apply is_dir_at_node.
      * apply is_dir_at_node. rewrite node_at_nonroot by by destruct cur.
        apply lookup_insert_eq.
Qed.

Lemma makedirs_tree f cwd path f' :
  fs_tree f → is_dir_at f cwd = true → makedirs f cwd path = Ok f' → fs_tree f'.
Proof.
  intros Ht Hd. unfold makedirs. destruct (String.eqb path ""); [discriminate|].
  apply mkdirs_tree; [exact Ht|]. unfold start_dir. by destruct (startswith_sep path).
Qed.

Lemma makedirs_nonempty f cwd path f' : makedirs f cwd path = Ok f' → path ≠ "".
Proof. intros H ->. discriminate. Qed.

Lemma paths_of_base cfg task_id :
  paths_of cfg task_id !! "base" = Some (path_join (APP_ROOT cfg) task_id).
Proof. vm_compute. reflexivity. Qed.

Lemma artifact_names_plain n :
  n ∈ map snd artifact_names → no_sep n = true ∧ n ≠ "" ∧ n ≠ "." ∧ n ≠ "..".
Proof.
  intros H. simpl in H.
  repeat (apply elem_of_cons in H as [->|H]; [by split_and!|]).
  by apply elem_of_nil in H.
Qed.

Lemma step_comp_plain cur c :
  c ≠ "" → c ≠ "." → c ≠ ".." → step_comp cur c = (cur ++ [c])%list.
Proof.
  intros H1 H2 H3. unfold step_comp.
  by rewrite (eqb_nonempty _ H1), (proj2 (String.eqb_neq _ _) H2),
             (proj2 (String.eqb_neq _ _) H3).
Qed.

(** The directory a relative or absolute root stands for: the working
    directory for the empty root. *)
Lemma resolve_task_base f cwd root t q :
  no_sep t = true → t ≠ "" → t ≠ "." → t ≠ ".." →
  resolve f cwd (path_join root t) = Ok q →
  ∃ b, (if String.eqb root "" then b = cwd else resolve f cwd root = Ok b) ∧
       q = (b ++ [t])%list.
Proof.
  intros Ht H1 H2 H3. destruct (String.eqb_spec root "") as [->|Hne].
  - assert (path_join "" t = t) as ->.
    { unfold path_join. by rewrite (no_sep_starts _ Ht). }
    unfold resolve. rewrite (eqb_nonempty _ H1), (split_path_plain _ Ht).
    unfold start_dir. rewrite (no_sep_starts _ Ht).
    intros [_ ->]%walk_one. exists cwd. split; [done|by apply step_comp_plain].
  - intros (b & Hb & _ & ->)%resolve_join_plain; [|done|done].
    exists b. split; [done|by apply step_comp_plain].
Qed.

Lemma path_join_nonempty root t : t ≠ "" → path_join root t ≠ "".
Proof.
  intros Ht. unfold path_join. destruct (startswith_sep t); [done|].
  destruct (String.eqb root "" || endswith_sep root).
  - intros [_ ?]%append_eq_nil. done.
  - intros [_ [? _]%append_eq_nil]%append_eq_nil. done.
Qed.

(** The entry a path of the artifact set of a plain task ID resolves to:
    the task's own entry under the root, or an entry inside it. *)
Lemma resolve_paths_of cfg f cwd t k v q :
  no_sep t = true → t ≠ "" → t ≠ "." → t ≠ ".." →
  paths_of cfg t !! k = Some v → resolve f cwd v = Ok q →
  ∃ b rest, (if String.eqb (APP_ROOT cfg) "" then b = cwd
             else resolve f cwd (APP_ROOT cfg) = Ok b) ∧
            q = (b ++ t :: rest)%list.
Proof.
  intros Ht H1 H2 H3 [->|(n & Hn & ->)]%paths_of_lookup Hq.
  - apply resolve_task_base in Hq as (b & Hb & ->); try done. by exists b, [].
  - apply artifact_names_plain in Hn as (Hn & Hn1 & Hn2 & Hn3).
    apply resolve_join_plain in Hq as (b' & Hb' & _ & ->);
      [|done|by apply path_join_nonempty].
    apply resolve_task_base in Hb' as (b & Hb & ->); try done.
    exists b, [n]. split; [done|].
    rewrite step_comp_plain by done. by rewrite <- app_assoc.
Qed.

(** C8, as stated, fails: the task IDs "a" and "a/" are distinct and get
    the same model path (and the same path for every other artifact). *)
Lemma paths_of_collision :
  "a" ≠ "a/" ∧
  paths_of toy_config "a" !! "model" = Some "/srv/artifacts/a/network.onnx" ∧
  paths_of toy_config "a/" !! "model" = Some "/srv/artifacts/a/network.onnx".
Proof. split; [discriminate|]. vm_compute. done. Qed.

(** The task IDs "." and "network.onnx" contain no separator, and their
    path strings differ; the model path of the one and the directory of
    the other are the same entry of the file system. *)
Lemma paths_of_dot_collision :
  let w := two_tasks_world in
  paths_of toy_config "." !! "model" = Some "/srv/artifacts/./network.onnx" ∧
  paths_of toy_config "network.onnx" !! "base" = Some "/srv/artifacts/network.onnx" ∧
  resolve (w_fs w) (w_cwd w) "/srv/artifacts/./network.onnx"
  = Ok ["srv"; "artifacts"; "network.onnx"] ∧
  resolve (w_fs w) (w_cwd w) "/srv/artifacts/network.onnx"
  = Ok ["srv"; "artifacts"; "network.onnx"].
Proof. vm_compute. done. Qed.

(** C8, amended: resolving the Artifact Set is idempotent: the paths it
    returns are a function of the task ID (and the configured root)
    alone, a second call returns the same mapping and leaves the world
    as the first call left it, the first call keeps every existing entry
    of the file system, and the call does not fail when the task
    directory already exists.  The paths of two distinct task IDs never
    coincide when both IDs are non-empty and contain no path separator;
    when, moreover, neither ID is "." or "..", no path of the one and
    path of the other resolve to the same entry of the file system. *)
Theorem task_paths_idempotent cfg task_id w :
  (∀ p w1, task_paths cfg task_id w = (Ok p, w1) →
     p = paths_of cfg task_id ∧
     task_paths cfg task_id w1 = (Ok p, w1) ∧
     only_new_dirs w w1 ∧
     (∀ q d, w_fs w !! q = Some (File d) → w_fs w1 !! q = Some (File d))) ∧
  (isdir (w_fs w) (w_cwd w) (path_join (APP_ROOT cfg) task_id) = true →
   task_paths cfg task_id w = (Ok (paths_of cfg task_id), w)) ∧
  (∀ task_id' k k' v v',
     no_sep task_id = true → no_sep task_id' = true →
     task_id ≠ "" → task_id' ≠ "" → task_id ≠ task_id' →
     paths_of cfg task_id !! k = Some v → paths_of cfg task_id' !! k' = Some v' →
     v ≠ v' ∧
     (task_id ≠ "." → task_id ≠ ".." → task_id' ≠ "." → task_id' ≠ ".." →
      ∀ q q', resolve (w_fs w) (w_cwd w) v = Ok q →
              resolve (w_fs w) (w_cwd w) v' = Ok q' → q ≠ q')).
Proof.
  split_and!.
  - intros p w1 H.
    pose proof (keeps_dirs_task_paths cfg task_id _ _ _ H) as Hd.
    apply task_paths_Ok in H as (-> & Hm & Hw1).
    split_and!; try done.
    + apply makedirs_again in Hm.
      rewrite (task_paths_of_makedirs cfg task_id w1 (w_fs w1)).
      * by rewrite set_fs_same.
      * rewrite Hw1. simpl. exact Hm.
    + intros q d Hq. destruct Hd as (Hg & _). by apply (grows_files _ _ _ _ Hg).
  - intros Hd. apply makedirs_existing in Hd.
    rewrite (task_paths_of_makedirs _ _ _ _ Hd). by rewrite set_fs_same.
  - intros t' k k' v v' H1 H2 H3 H4 H5 H6 H7. split.
    + exact (paths_of_disjoint cfg task_id t' k k' v v' H1 H2 H3 H4 H5 H6 H7).
    + intros D1 D2 D3 D4 q q' Hq Hq' Heq. subst q'.
      destruct (resolve_paths_of cfg _ _ task_id k v q H1 H3 D1 D2 H6 Hq)
        as (b & rest & Hb & ->).
      destruct (resolve_paths_of cfg _ _ t' k' v' _ H2 H4 D3 D4 H7 Hq')
        as (b' & rest' & Hb' & Heq).
      assert (b' = b) as ->.
      { destruct (String.eqb (APP_ROOT cfg) ""); congruence. }
      apply app_inv_head in Heq. congruence.
Qed.

(** Resolving the task "t1" twice in the small installation, where
    "t1" and "t2" are plain names whose status files are two entries. *)
Lemma task_paths_idempotent_witness :
  let w1 := (task_paths toy_config "t1" toy_world).2 in
  task_paths toy_config "t1" w1 = (Ok (paths_of toy_config "t1"), w1) ∧
  paths_of toy_config "t1" !! "status" ≠ paths_of toy_config "t2" !! "status" ∧
  ∃ q q', resolve (w_fs two_tasks_world) (w_cwd two_tasks_world)
                  "/srv/artifacts/t1/status.json" = Ok q ∧
          resolve (w_fs two_tasks_world) (w_cwd two_tasks_world)
                  "/srv/artifacts/t2/status.json" = Ok q' ∧ q ≠ q'.
Proof.
  intros w1.
  destruct (task_paths_idempotent toy_config "t1" toy_world) as (H1 & _ & H3).
  destruct (H1 (paths_of toy_config "t1") w1) as (_ & H & _).
  { vm_compute. reflexivity. }
  split; [exact H|]. split.
  - intros Heq.
    refine (proj1 (H3 "t2" "status" "status" "/srv/artifacts/t1/status.json"
                      "/srv/artifacts/t1/status.json" _ _ _ _ _ _ _) eq_refl);
      try reflexivity; try discriminate.
  - destruct (task_paths_idempotent toy_config "t1" two_tasks_world) as (_ & _ & H4).
    exists ["srv"; "artifacts"; "t1"; "status.json"],
           ["srv"; "artifacts"; "t2"; "status.json"].
    split; [vm_compute; reflexivity|]. split; [vm_compute; reflexivity|].
    refine (proj2 (H4 "t2" "status" "status" "/srv/artifacts/t1/status.json"
                      "/srv/artifacts/t2/status.json" _ _ _ _ _ _ _) _ _ _ _ _ _ _ _);
      try reflexivity; try discriminate; vm_compute; reflexivity.
Defined.

(** ** Fetching an artifact *)

(** The two outcomes of an artifact fetch that returns. *)
Lemma get_artifact_Ok cfg task_id artifact w resp w' :
  get_artifact cfg task_id artifact w = (Ok resp, w') →
  let candidate := path_join (path_join (APP_ROOT cfg) task_id) artifact in
  task_paths cfg task_id w = (Ok (paths_of cfg task_id), w') ∧
  ((isfile (w_fs w') (w_cwd w') candidate = false ∧
    resp = {| rs_code := 404; rs_body := error_json "artifact not found" |}) ∨
   (∃ data, isfile (w_fs w') (w_cwd w') candidate = true ∧
            read_file (w_fs w') (w_cwd w') candidate = Ok data ∧
            resp = {| rs_code := 200; rs_body := BBytes data |})).
Proof.
  unfold get_artifact.
  intros (paths & w1 & Hp & H)%bind_Ok.
  pose proof Hp as (-> & _)%task_paths_Ok.
  unfold getitem in H. rewrite paths_of_base in H.
  apply bind_Ok in H as (base & w2 & [-> ->]%ret_Ok & H).
  apply bind_Ok in H as (present & w3 & Hi & H).
  unfold os_isfile in Hi. inversion Hi; subst. clear Hi.
  destruct (isfile (w_fs w3) (w_cwd w3) _) eqn:Hf; simpl in H.
  - apply bind_Ok in H as (data & w4 & Hr & [-> ->]%ret_Ok).
    unfold os_read in Hr. inversion Hr; subst.
    split; [done|]. right. by exists data.
  - apply ret_Ok in H as [-> ->]. split; [done|]. by left.
Qed.

(** The function joins the artifact name to the base directory without
    resolving or checking it; that the served file lies in the base
    directory rests on the route, whose [<artifact>] segment holds no
    path separator.  Called with the name "../t2/status.json", which the
    route never delivers, the function returns the status file of task
    "t2". *)
Lemma get_artifact_traversal :
  let w := two_tasks_world in
  (get_artifact toy_config "t1" "../t2/status.json" w).1
  = Ok {| rs_code := 200; rs_body := BBytes [x73; x65; x63; x72; x65; x74] |} ∧
  resolve (w_fs w) (w_cwd w) (path_join (APP_ROOT toy_config) "t1")
  = Ok ["srv"; "artifacts"; "t1"] ∧
  resolve (w_fs w) (w_cwd w)
          (path_join (path_join (APP_ROOT toy_config) "t1") "../t2/status.json")
  = Ok ["srv"; "artifacts"; "t2"; "status.json"].
Proof. vm_compute. done. Qed.

(** C1: for every task ID and every artifact name the route of line 447
    delivers (its [<artifact>] segment holds no path separator), in a
    file system that is a tree, the fetch answers not-found or returns
    the exact bytes of the file of that name directly inside the task's
    base directory.  The names "." and "..", the only ones that do not
    lead into the base directory, are never served: they are answered
    not-found. *)
Theorem get_artifact_within_base cfg task_id artifact w resp w' :
  no_sep artifact = true →
  fs_tree (w_fs w) → is_dir_at (w_fs w) (w_cwd w) = true →
  get_artifact cfg task_id artifact w = (Ok resp, w') →
  resp = {| rs_code := 404; rs_body := error_json "artifact not found" |} ∨
  ∃ b data,
    resp = {| rs_code := 200; rs_body := BBytes data |} ∧
    resolve (w_fs w') (w_cwd w') (path_join (APP_ROOT cfg) task_id) = Ok b ∧
    is_dir_at (w_fs w') b = true ∧
    w_fs w' !! (b ++ [artifact])%list = Some (File data) ∧
    artifact ≠ "." ∧ artifact ≠ "..".
Proof.
  intros Ha Ht Hc (Hp & [[_ ->]|(data & Hf & Hr & ->)])%get_artifact_Ok; [by left|].
  right.
  apply task_paths_Ok in Hp as (_ & Hm & Hw).
  pose proof (makedirs_tree _ _ _ _ Ht Hc Hm) as Ht'.
  pose proof (makedirs_nonempty _ _ _ _ Hm) as Hne.
  assert (w_cwd w' = w_cwd w) as Hcwd by (by rewrite Hw).
  unfold read_file in Hr.
  destruct (resolve (w_fs w') (w_cwd w') _) as [q|e] eqn:Hq; [|discriminate].
  destruct (node_at (w_fs w') q) as [[d|]|] eqn:Hn; try discriminate.
  inversion Hr; subst d. clear Hr.
  apply resolve_join_plain in Hq as (b & Hb & Hd & ->); [|done|done].
  exists b, data.
  pose proof (fs_tree_parent _ _ Ht' Hd) as Hpar.
  apply is_dir_at_node in Hd, Hpar.
  destruct (step_comp_cases b artifact) as [Hs|[Hs|(Hs & _ & H1 & H2)]];
    rewrite Hs in Hn; try congruence.
  split_and!; try done.
  - by apply is_dir_at_node.
  - rewrite node_at_nonroot in Hn by by destruct b. done.
Qed.

Lemma two_tasks_world_tree : fs_tree (w_fs two_tasks_world).
Proof. apply (bool_decide_unpack _). vm_compute. exact I. Qed.

(** Fetching the model of task "t1". *)
Lemma get_artifact_within_base_witness :
  ∃ b, resolve (w_fs two_tasks_world) (w_cwd two_tasks_world)
               (path_join (APP_ROOT toy_config) "t1") = Ok b ∧
       w_fs two_tasks_world !! (b ++ ["network.onnx"])%list = Some (File [x01; x02]).
Proof.
  destruct (get_artifact_within_base toy_config "t1" "network.onnx" two_tasks_world
              {| rs_code := 200; rs_body := BBytes [x01; x02] |} two_tasks_world)
    as [H|(b & data & H & Hb & _ & Hf & _)].
  - reflexivity.
  - apply two_tasks_world_tree.
  - reflexivity.
  - vm_compute. reflexivity.
  - discriminate.
  - exists b. split; [exact Hb|]. inversion H; subst. exact Hf.
Defined.

(** ** The status ledger *)

Lemma paths_of_status cfg task_id :
  paths_of cfg task_id !! "status"
  = Some (path_join (path_join (APP_ROOT cfg) task_id) "status.json").
Proof. vm_compute. reflexivity. Qed.

Lemma paths_of_witness cfg task_id :
  paths_of cfg task_id !! "witness"
  = Some (path_join (path_join (APP_ROOT cfg) task_id) "witness.json").
Proof. vm_compute. reflexivity. Qed.

Lemma os_write_Ok path data w w' :
  os_write path data w = (Ok tt, w') →
  write_file (w_fs w) (w_cwd w) path data = Ok (w_fs w') ∧
  w_cwd w' = w_cwd w ∧ w_chain w' = w_chain w ∧ w_trace w' = w_trace w ∧
  w_clock w' = w_clock w.
Proof.
  unfold os_write. intros (x & w1 & Hf & H)%bind_Ok.
  unfold next_fault in Hf.
  assert (w_fs w1 = w_fs w ∧ w_cwd w1 = w_cwd w ∧ w_chain w1 = w_chain w ∧
          w_trace w1 = w_trace w ∧ w_clock w1 = w_clock w) as (E1 & E2 & E3 & E4 & E5).
  { apply (f_equal snd) in Hf. simpl in Hf. by subst w1. }
  destruct x as [[e|e written]|]; [discriminate| |].
  { destruct (write_file (w_fs w1) (w_cwd w1) path (take written data));
      discriminate. }
  destruct (write_file (w_fs w1) (w_cwd w1) path data) as [f|e] eqn:Hw; [|discriminate].
  inversion H; subst. simpl. rewrite <- E1, <- E2. done.
Qed.

(** A status write that returns: the record is in the file, and it is
    the last event of the history. *)
Lemma update_status_Ok E paths step message error w w' :
  update_status E paths step message error w = (Ok tt, w') →
  ∃ p s,
    paths !! "status" = Some p ∧
    status_at step message error s ∧
    st_timestamp s = isoformat E (w_clock w) ∧
    w_trace w' = (w_trace w ++ [EvStatus s])%list ∧
    write_file (w_fs w) (w_cwd w) p (json_dump_indent2 E (status_json s)) = Ok (w_fs w') ∧
    read_file (w_fs w') (w_cwd w') p = Ok (json_dump_indent2 E (status_json s)) ∧
    w_cwd w' = w_cwd w ∧ w_chain w' = w_chain w.
Proof.
  unfold update_status.
  intros (t & w1 & Ht & H)%bind_Ok.
  unfold now in Ht. inversion Ht; subst. clear Ht.
  apply bind_Ok in H as (p & w2 & Hp & H).
  unfold getitem in Hp.
  destruct (paths !! "status") as [p'|] eqn:Hps; [|discriminate].
  apply ret_Ok in Hp as [-> ->].
  apply bind_Ok in H as ([] & w3 & Hw & H).
  unfold save_json in Hw. apply os_write_Ok in Hw as (Hw & Hc & Hch & Htr & _). simpl in *.
  unfold emit in H. inversion H; subst. simpl.
  exists p', {| st_step := step; st_message := message; st_error := error;
                st_timestamp := isoformat E (w_clock w) |}.
  unfold status_at. split_and!; simpl; try done.
  - by rewrite Htr.
  - rewrite Hc. by eapply read_after_write.
Qed.

(** ** The chain stages *)

Lemma chain_stages_Ok cfg E task_id pv w r w' :
  chain_stages cfg E task_id pv w = (Ok r, w') →
  ∃ w1 w2 w3 p_witness,
    deploy_stage cfg E task_id (pv_paths pv) w
    = (Ok (pr_verifier_contract r, pr_verifier_deploy_tx r), w1) ∧
    pv_paths pv !! "witness" = Some p_witness ∧
    extract_prediction E p_witness w1 = (Ok (pr_prediction r), w2) ∧
    pr_accuracy r = accuracy_of (pv_target_index pv) (predicted_index (pr_prediction r)) ∧
    register_stage cfg E task_id (pv_paths pv) (pv_proof pv)
                   (pr_verifier_contract r) (pr_accuracy r) w2
    = (Ok (pr_tx_hash r), w3) ∧
    update_status E (pv_paths pv) "complete" "Pipeline finished" None w3 = (Ok tt, w') ∧
    pr_artifacts r = pv_paths pv.
Proof.
  unfold chain_stages. cbv zeta.
  intros ([va vt] & w1 & Hd & H)%bind_Ok.
  apply bind_Ok in H as (pub & w1' & [_ ->]%lift_Ok & H).
  apply bind_Ok in H as (p & w1' & Hp & H).
  unfold getitem in Hp.
  destruct (pv_paths pv !! "witness") as [p'|] eqn:Hpw; [|discriminate].
  apply ret_Ok in Hp as [-> ->].
  apply bind_Ok in H as (pred & w2 & He & H).
  apply bind_Ok in H as (tx & w3 & Hr & H).
  apply bind_Ok in H as ([] & w4 & Hu & [-> ->]%ret_Ok).
  exists w1, w2, w3, p'. simpl. done.
Qed.

Lemma deploy_stage_disabled cfg E task_id paths w :
  truthy_str (WEB3_HTTP_PROVIDER cfg) && truthy_str (WEB3_OPERATOR_KEY cfg) = false →
  deploy_stage cfg E task_id paths w = (Ok (None, None), w).
Proof. unfold deploy_stage. by intros ->. Qed.

(** Without a verifier address the registration is not attempted and
    the ledger says so. *)
Lemma register_stage_skip cfg E task_id paths proof verifier accuracy w tx w' :
  truthy_str verifier = false →
  register_stage cfg E task_id paths proof verifier accuracy w = (Ok tx, w') →
  tx = None ∧
  update_status E paths "register"
    "Skipping on-chain registration (no verifier deployment)" None w = (Ok tt, w').
Proof.
  unfold register_stage. intros ->.
  intros ([] & w1 & Hu & [-> ->]%ret_Ok)%bind_Ok. done.
Qed.

(** ** Prediction and accuracy of a run *)

(** C10: the payload whose [pretty_elements] member is [null] has no
    rescaled outputs.  Lines 212-213 provide the empty prediction for a
    payload without outputs, yet on this one line 211 raises an
    AttributeError: the default of [payload.get] does not replace a
    [null] that is present. *)
Lemma extract_prediction_null_pretty_elements :
  let payload := JObj [("pretty_elements", JNull)] in
  (extract_prediction (toy_externals payload) "/srv/artifacts/t1/witness.json"
                      witness_world).1
  = Raise (Exn "AttributeError" "'NoneType' object has no attribute 'get'").
Proof. vm_compute. reflexivity. Qed.

(** C10, where the code keeps to it: for every witness payload that is a
    JSON object whose [pretty_elements] member is absent or itself an
    object, and in which the [rescaled_outputs] entry is absent or empty
    (falsy), prediction extraction returns an empty score list with an
    absent predicted index rather than failing; and a run whose
    prediction has no predicted index has an absent accuracy, never 0.0
    or 1.0. *)
Theorem extract_prediction_lacks_outputs cfg E :
  (∀ path payload w w1,
     load_json E path w = (Ok payload, w1) → lacks_outputs payload →
     extract_prediction E path w = (Ok no_prediction, w1)) ∧
  (∀ target, accuracy_of target (predicted_index no_prediction) = None) ∧
  (∀ task_id model_bytes w r w',
     run_pipeline_async cfg E task_id model_bytes w = (Ok r, w') →
     predicted_index (pr_prediction r) = None → pr_accuracy r = None).
Proof.
  split_and!.
  - intros path payload w w1 Hl Hp. unfold extract_prediction.
    rewrite (bind_step _ _ _ _ _ Hl). unfold lift.
    by rewrite (prediction_of_lacks_outputs E payload Hp).
  - by intros [t|].
  - intros task_id model_bytes w r w'. unfold run_pipeline_async.
    intros (pv & w0 & _ & H)%bind_Ok.
    apply chain_stages_Ok in H as (w1 & w2 & w3 & p & _ & _ & _ & Ha & _).
    intros Hn. rewrite Ha, Hn. by destruct (pv_target_index pv).
Qed.

(** A witness file that parses to the empty object, and the run of the
    small installation on such a witness. *)
Lemma extract_prediction_lacks_outputs_witness :
  extract_prediction (toy_externals (JObj [])) "/srv/artifacts/t1/witness.json"
                     witness_world
  = (Ok no_prediction, witness_world) ∧
  ∃ r w', run_pipeline_async toy_config (toy_externals (JObj [])) "t1" [] toy_world
          = (Ok r, w') ∧ pr_accuracy r = None.
Proof.
  destruct (extract_prediction_lacks_outputs toy_config (toy_externals (JObj [])))
    as (H1 & _ & H3).
  split.
  - apply (H1 _ (JObj [])).
    + vm_compute. reflexivity.
    + exists []. split; [reflexivity|]. left. reflexivity.
  - destruct (run_pipeline_async toy_config (toy_externals (JObj [])) "t1" [] toy_world)
      as [[r|e] w'] eqn:Hrun.
    + exists r, w'. split; [reflexivity|].
      apply (H3 "t1" [] toy_world r w' Hrun).
      assert (Hp : (let '(x, _) := run_pipeline_async toy_config (toy_externals (JObj []))
                                     "t1" [] toy_world in
                    match x with
                    | Ok r => predicted_index (pr_prediction r)
                    | Raise _ => None
                    end) = None) by (vm_compute; reflexivity).
      rewrite Hrun in Hp. exact Hp.
    + exfalso.
      assert (Hp : is_ok (run_pipeline_async toy_config (toy_externals (JObj []))
                            "t1" [] toy_world).1 = true) by (vm_compute; reflexivity).
      rewrite Hrun in Hp. discriminate.
Defined.

(** ** The proving stages *)

Ltac keeps_step :=
  first
    [ apply keeps_update_status; intros; reflexivity
    | apply keeps_stage; reflexivity
    | apply keeps_task_paths
    | apply keeps_save_json
    | apply keeps_load_json
    | apply keeps_extract_prediction
    | apply keeps_os_write
    | apply keeps_os_read
    | apply keeps_os_isfile
    | apply keeps_randint
    | apply keeps_getitem; apply _
    | apply keeps_lift; apply _
    | apply keeps_ret; apply _
    | apply keeps_raise; apply _
    | match goal with
      | |- keeps _ (match ?x with _ => _ end) => destruct x
      | |- keeps _ (if ?x then _ else _) => destruct x
      end
    | apply keeps_bind; [apply _ | | intros ] ].

Lemma keeps_load_validation_dataframe ok cfg E :
  keeps (extends ok) (load_validation_dataframe cfg E).
Proof. unfold load_validation_dataframe. repeat keeps_step. Qed.

Lemma keeps_pick_validation_sample ok E df :
  keeps (extends ok) (pick_validation_sample E df).
Proof. unfold pick_validation_sample. repeat keeps_step. Qed.

(** The proving stages leave the chain alone; their events are toolkit
    calls and the statuses of the proving steps. *)
Lemma keeps_proving_stages cfg E task_id model_bytes :
  keeps (extends proving_event) (proving_stages cfg E task_id model_bytes).
Proof.
  unfold proving_stages.
  repeat first [ apply keeps_load_validation_dataframe
               | apply keeps_pick_validation_sample
               | keeps_step ].
Qed.

Lemma proving_stages_paths cfg E task_id model_bytes w pv w1 :
  proving_stages cfg E task_id model_bytes w = (Ok pv, w1) →
  pv_paths pv = paths_of cfg task_id.
Proof.
  unfold proving_stages.
  intros (paths & w0 & (-> & _)%task_paths_Ok & H)%bind_Ok.
  repeat (apply bind_Ok in H as (? & ? & _ & H)).
  apply ret_Ok in H as [-> _]. reflexivity.
Qed.

(** ** The target index of a run *)

#[global] Instance same_random_preorder : PreOrder same_random.
Proof.
  split; [done|]. intros w1 w2 w3 H1 H2. unfold same_random in *. congruence.
Qed.

Section Keeps_random.

Lemma random_now : keeps same_random now.
Proof. intros w r w' H. by inversion H. Qed.

Lemma random_emit ev : keeps same_random (emit ev).
Proof. intros w r w' H. by inversion H. Qed.

Lemma random_os_write path data : keeps same_random (os_write path data).
Proof.
  unfold os_write. apply keeps_bind; [apply _| |].
  - intros w r w' H. by inversion H.
  - intros [[e|e written]|] w r w' H.
    + by inversion H.
    + destruct (write_file (w_fs w) (w_cwd w) path (take written data));
        by inversion H.
    + destruct (write_file (w_fs w) (w_cwd w) path data); by inversion H.
Qed.

Lemma random_task_paths cfg task_id : keeps same_random (task_paths cfg task_id).
Proof.
  unfold task_paths. apply keeps_bind; [apply _| |intros _; apply keeps_ret; apply _].
  intros w r w' H. unfold ensure_dir in H.
  destruct (makedirs (w_fs w) (w_cwd w) _); by inversion H.
Qed.

Lemma random_update_status E paths step message error :
  keeps same_random (update_status E paths step message error).
Proof.
  unfold update_status, save_json.
  apply keeps_bind; [apply _|apply random_now|]. intros t.
  apply keeps_bind; [apply _|apply keeps_getitem; apply _|]. intros p.
  apply keeps_bind; [apply _|apply random_os_write|]. intros _.
  apply random_emit.
Qed.

End Keeps_random.

Lemma load_validation_dataframe_Ok cfg E w df w' :
  load_validation_dataframe cfg E w = (Ok df, w') →
  w' = w ∧ (2 ≤ df_ncols df)%nat ∧
  ∃ bytes, read_file (w_fs w) (w_cwd w) (VALIDATION_CSV cfg) = Ok bytes ∧
           read_csv E bytes = Ok df.
Proof.
  unfold load_validation_dataframe, bind, os_isfile, os_read, lift, raise, ret.
  destruct (isfile (w_fs w) (w_cwd w) (VALIDATION_CSV cfg)); simpl; [|discriminate].
  destruct (read_file (w_fs w) (w_cwd w) (VALIDATION_CSV cfg)) as [bytes|e]; simpl;
    [|discriminate].
  destruct (read_csv E bytes) as [df0|e] eqn:Hcsv; simpl; [|discriminate].
  destruct (df_ncols df0 <? 2)%nat eqn:Hn; simpl; [discriminate|].
  intros H. inversion H; subst. split_and!; try done.
  - by apply Nat.ltb_ge in Hn.
  - by exists bytes.
Qed.

(** The target index the proving stages hand on is the entry that the
    label map of the loaded table has for the label of the sampled row;
    the sample is drawn with the generator as the run found it. *)
Lemma proving_stages_target cfg E task_id model_bytes w pv w1 :
  proving_stages cfg E task_id model_bytes w = (Ok pv, w1) →
  ∃ df m features label wa wb,
    load_validation_dataframe cfg E wa = (Ok df, wa) ∧
    w_random wa = w_random w ∧
    build_label_index_map E df = Ok m ∧
    pick_validation_sample E df wa = (Ok (features, label), wb) ∧
    pv_target_index pv = dict_get m label.
Proof.
  unfold proving_stages.
  intros (paths & w0 & Hp & H)%bind_Ok.
  apply bind_Ok in H as (? & w2 & Hu1 & H).
  apply bind_Ok in H as (p_model & w3 & Hg & H).
  apply bind_Ok in H as (? & w4 & Hw & H).
  apply bind_Ok in H as (? & w5 & Hu2 & H).
  apply bind_Ok in H as (df & w6 & Hl & H).
  apply bind_Ok in H as (m & w7 & [Hm ->]%lift_Ok & H).
  apply bind_Ok in H as ([features label] & w8 & Hs & H).
  cbv zeta in H.
  repeat (apply bind_Ok in H as (? & ? & _ & H)).
  apply ret_Ok in H as [-> _].
  pose proof (load_validation_dataframe_Ok _ _ _ _ _ Hl) as (-> & _).
  apply random_task_paths in Hp. apply random_update_status in Hu1, Hu2.
  apply (keeps_getitem same_random) in Hg. apply random_os_write in Hw.
  exists df, m, features, label, w5, w8. split_and!; try done.
  unfold same_random in *. congruence.
Qed.

(** C9: for a table whose labels are all strings (or all integers) the
    label map is built, and it is the list of the distinct labels of the
    table in sorted order, each with its position: the positions are
    those of the sorted list, every label of the table has exactly one,
    and two tables with the same set of labels get the same map, so the
    assignment does not depend on the order or the number of the rows.
    A table with exactly the labels "A" and "B" maps "A" to 0 and "B" to
    1.  In every run that returns, the accuracy of the result is decided
    by the entry of the sampled row's label in the map of the loaded
    table and the predicted index of the witness: with the labels "A"
    and "B" and a sampled row labelled "B", the accuracy is 1.0 when the
    witness predicts index 1 and 0.0 when it predicts index 0. *)
Theorem build_label_index_map_sorted cfg E :
  (∀ df, let column := map snd (df_rows df) in
         let labels := merge_sort label_le (unique column) in
     one_kind column = true →
     build_label_index_map E df = Ok (index_dict labels) ∧
     StronglySorted label_le labels ∧ NoDup labels ∧
     (∀ l, l ∈ labels ↔ l ∈ column) ∧
     (∀ l i, l ∈ column →
        dict_get (index_dict labels) l = Some i ↔ labels !! i = Some l) ∧
     (∀ df', (∀ l, l ∈ map snd (df_rows df') ↔ l ∈ column) →
        build_label_index_map E df' = build_label_index_map E df)) ∧
  (∀ df, (∀ l, l ∈ map snd (df_rows df) ↔ l = LStr "A" ∨ l = LStr "B") →
     build_label_index_map E df = Ok [(LStr "A", 0%nat); (LStr "B", 1%nat)]) ∧
  (∀ task_id model_bytes w r w',
     run_pipeline_async cfg E task_id model_bytes w = (Ok r, w') →
     ∃ df m features label wa wb,
       load_validation_dataframe cfg E wa = (Ok df, wa) ∧
       w_random wa = w_random w ∧
       build_label_index_map E df = Ok m ∧
       pick_validation_sample E df wa = (Ok (features, label), wb) ∧
       pr_accuracy r = accuracy_of (dict_get m label) (predicted_index (pr_prediction r)) ∧
       ((∀ l, l ∈ map snd (df_rows df) ↔ l = LStr "A" ∨ l = LStr "B") →
        label = LStr "B" →
        (predicted_index (pr_prediction r) = Some 1%nat → pr_accuracy r = Some 1%float) ∧
        (predicted_index (pr_prediction r) = Some 0%nat → pr_accuracy r = Some 0%float))).
Proof.
  assert (∀ df, (∀ l, l ∈ map snd (df_rows df) ↔ l = LStr "A" ∨ l = LStr "B") →
     build_label_index_map E df = Ok [(LStr "A", 0%nat); (LStr "B", 1%nat)]) as HAB.
  { intros df Hdf.
    assert (one_kind (map snd (df_rows df)) = true) as Hk.
    { unfold one_kind. apply orb_true_iff. left. apply forallb_forall.
      intros x Hx%list_elem_of_In. by apply Hdf in Hx as [->| ->]. }
    destruct (build_label_index_map_one_kind E df Hk) as (-> & Hs & Hnd & Hin & _).
    f_equal.
    assert (merge_sort label_le (unique (map snd (df_rows df))) = [LStr "A"; LStr "B"])
      as ->; [|reflexivity].
    apply StronglySorted_kin_unique.
    - intros a b Ha%Hin Hb%Hin. by apply (one_kind_kin (map snd (df_rows df))).
    - exact Hs.
    - repeat constructor.
    - apply NoDup_Permutation; [exact Hnd| |].
      + apply NoDup_cons. split; [|apply NoDup_singleton].
        intros H%list_elem_of_singleton. discriminate.
      + intros x. rewrite Hin, Hdf. rewrite elem_of_cons, list_elem_of_singleton. done. }
  split_and!.
  - intros df column labels Hk.
    destruct (build_label_index_map_one_kind E df Hk) as (Hb & Hs & Hnd & Hin & Hget).
    split_and!; try done.
    + intros l i Hl. apply Hget. unfold one_kind in *. simpl.
      apply orb_true_iff in Hk as [Hk|Hk]; rewrite forallb_forall in Hk;
        rewrite (Hk l) by (by apply list_elem_of_In); rewrite !andb_true_l;
        apply orb_true_iff; [left|right]; by apply forallb_forall.
    + intros df' Hdf'.
      assert (one_kind (map snd (df_rows df')) = true) as Hk'.
      { apply (one_kind_subset column); [|done]. intros x. apply Hdf'. }
      destruct (build_label_index_map_one_kind E df' Hk') as (-> & _).
      rewrite Hb. do 2 f_equal. by apply sorted_unique_ext.
  - exact HAB.
  - intros task_id model_bytes w r w'. unfold run_pipeline_async.
    intros (pv & w0 & Hpv & H)%bind_Ok.
    apply proving_stages_target in Hpv as (df & m & features & label & wa & wb & Hl & Hr
                                           & Hm & Hs & Ht).
    apply chain_stages_Ok in H as (w1 & w2 & w3 & p & _ & _ & _ & Ha & _).
    exists df, m, features, label, wa, wb. rewrite <- Ht. split_and!; try done.
    intros Hdf ->. rewrite (HAB df Hdf) in Hm. injection Hm as <-.
    rewrite Ha, Ht. split; intros ->; reflexivity.
Qed.

(** The table of the small installation has the labels "A" and "B"; its
    run on a generator that draws a row labelled "B", with a witness
    that predicts index 1, has accuracy 1.0. *)
Lemma build_label_index_map_sorted_witness :
  build_label_index_map (toy_externals toy_witness) toy_table
  = Ok [(LStr "A", 0%nat); (LStr "B", 1%nat)] ∧
  ∃ r w', run_pipeline_async toy_config (toy_externals toy_witness) "t1" []
                             sample_b_world = (Ok r, w') ∧
          pr_accuracy r = Some 1%float.
Proof.
  destruct (build_label_index_map_sorted toy_config (toy_externals toy_witness))
    as (_ & H2 & H3).
  assert (∀ l, l ∈ map snd (df_rows toy_table) ↔ l = LStr "A" ∨ l = LStr "B") as Hdf.
  { intros l. simpl. rewrite !elem_of_cons, elem_of_nil. tauto. }
  split; [exact (H2 toy_table Hdf)|].
  assert (Hv : match (run_pipeline_async toy_config (toy_externals toy_witness) "t1" []
                                         sample_b_world).1 with
               | Ok r => predicted_index (pr_prediction r) = Some 1%nat
               | Raise _ => False
               end) by (vm_compute; reflexivity).
  destruct (run_pipeline_async toy_config (toy_externals toy_witness) "t1" []
                               sample_b_world) as [[r|e] w'] eqn:Hrun;
    [|destruct Hv].
  exists r, w'. split; [reflexivity|].
  destruct (H3 "t1" [] sample_b_world r w' Hrun)
    as (df & m & features & label & wa & wb & Hl & Hr & Hm & Hs & Ha & HB).
  apply load_validation_dataframe_Ok in Hl as (_ & _ & bytes & _ & Hcsv).
  injection Hcsv as <-.
  unfold pick_validation_sample, bind, randint, lift in Hs. rewrite Hr in Hs.
  injection Hs as _ <- _.
  exact (proj1 (HB Hdf eq_refl) Hv).
Defined.

Lemma truthy_str_None : truthy_str None = false.
Proof. reflexivity. Qed.

(** A run of the chain stages that ends without a verifier address:
    registration is skipped, and the history ends with the status of the
    skip and the final status, which is what the status file holds. *)
Lemma chain_stages_no_verifier cfg E task_id pv w r w' :
  chain_stages cfg E task_id pv w = (Ok r, w') →
  truthy_str (pr_verifier_contract r) = false →
  pr_tx_hash r = None ∧
  ∃ w1 w2 p s_skip s_done,
    deploy_stage cfg E task_id (pv_paths pv) w
    = (Ok (pr_verifier_contract r, pr_verifier_deploy_tx r), w1) ∧
    extends no_event w1 w2 ∧
    w_trace w' = (w_trace w2 ++ [EvStatus s_skip; EvStatus s_done])%list ∧
    w_chain w' = w_chain w2 ∧
    status_at "register" "Skipping on-chain registration (no verifier deployment)"
              None s_skip ∧
    status_at "complete" "Pipeline finished" None s_done ∧
    pv_paths pv !! "status" = Some p ∧
    read_file (w_fs w') (w_cwd w') p = Ok (json_dump_indent2 E (status_json s_done)).
Proof.
  intros (w1 & w2 & w3 & pw & Hd & _ & He & _ & Hr & Hu & _)%chain_stages_Ok Hv.
  apply (register_stage_skip _ _ _ _ _ _ _ _ _ _ Hv) in Hr as [Htx Hs].
  split; [exact Htx|].
  apply update_status_Ok in Hs as (p1 & s1 & _ & Hs1 & _ & Ht1 & _ & _ & _ & Hc1).
  apply update_status_Ok in Hu as (p2 & s2 & Hp2 & Hs2 & _ & Ht2 & _ & Hr2 & _ & Hc2).
  exists w1, w2, p2, s1, s2. split_and!; try done.
  - by eapply keeps_extract_prediction.
  - rewrite Ht2, Ht1. by rewrite <- app_assoc.
  - congruence.
Qed.

Lemma extends_weaken (ok ok' : event → bool) w w' :
  (∀ ev, ok ev = true → ok' ev = true) → extends ok w w' → extends ok' w w'.
Proof.
  intros Hok (Hc & Hd & evs & Ht & Hev). split_and!; try done.
  exists evs. split; [done|].
  apply forallb_forall. intros ev Hin.
  apply Hok. revert ev Hin. by apply forallb_forall.
Qed.

Lemma proving_event_offchain ev : proving_event ev = true → offchain_event ev = true.
Proof.
  destruct ev as [s| |]; simpl; try done.
  by destruct (String.eqb (st_step s) "verifier_deploy").
Qed.

(** Without endpoint or key the chain stages stay off the chain,
    whether they return or raise. *)
Lemma keeps_chain_stages_unset cfg E task_id pv :
  truthy_str (WEB3_HTTP_PROVIDER cfg) && truthy_str (WEB3_OPERATOR_KEY cfg) = false →
  keeps (extends offchain_event) (chain_stages cfg E task_id pv).
Proof.
  intros Hcfg w r w' H. unfold chain_stages in H. cbv zeta in H.
  rewrite (bind_step _ _ _ _ _ (deploy_stage_disabled cfg E task_id _ w Hcfg)) in H.
  unfold register_stage in H. simpl in H.
  match type of H with
  | ?m w = _ => assert (keeps (extends offchain_event) m) as Hk
  end.
  { repeat keeps_step. }
  exact (Hk _ _ _ H).
Qed.

(** C5: in every run in which both the chain endpoint and the signing
    key are unset, deployment and registration are skipped: the chain is
    untouched, nothing is broadcast and no deployment is announced,
    whether the run returns or fails.  The returned pipeline result has
    the verifier contract address and both transaction hashes absent,
    and the final recorded status, the one the status file holds, is
    "complete". *)
Theorem chain_unset_run_completes cfg E task_id model_bytes w :
  WEB3_HTTP_PROVIDER cfg = None → WEB3_OPERATOR_KEY cfg = None →
  extends offchain_event w (run_pipeline_async cfg E task_id model_bytes w).2 ∧
  ∀ r w', run_pipeline_async cfg E task_id model_bytes w = (Ok r, w') →
    pr_verifier_contract r = None ∧ pr_verifier_deploy_tx r = None ∧
    pr_tx_hash r = None ∧
    ∃ evs s_skip s_done,
      w_trace w' = (w_trace w ++ evs ++ [EvStatus s_skip; EvStatus s_done])%list ∧
      forallb proving_event evs = true ∧
      status_at "register" "Skipping on-chain registration (no verifier deployment)"
                None s_skip ∧
      status_at "complete" "Pipeline finished" None s_done ∧
      read_file (w_fs w') (w_cwd w')
                (path_join (path_join (APP_ROOT cfg) task_id) "status.json")
      = Ok (json_dump_indent2 E (status_json s_done)).
Proof.
  intros Hp Hk.
  assert (truthy_str (WEB3_HTTP_PROVIDER cfg) && truthy_str (WEB3_OPERATOR_KEY cfg)
          = false) as Hcfg by (by rewrite Hp).
  split.
  - assert (keeps (extends offchain_event)
                  (run_pipeline_async cfg E task_id model_bytes)) as Hkeeps.
    { unfold run_pipeline_async. apply keeps_bind; [apply _| |].
      - intros w0 r0 w1 H0. eapply extends_weaken; [apply proving_event_offchain|].
        by eapply keeps_proving_stages.
      - intros pv. by apply keeps_chain_stages_unset. }
    eapply Hkeeps. apply surjective_pairing.
  - intros r w'. unfold run_pipeline_async.
    intros (pv & w0 & Hpv & H)%bind_Ok.
    pose proof (keeps_proving_stages _ _ _ _ _ _ _ Hpv) as (Hc0 & _ & evs & Ht0 & Hev).
    pose proof (proving_stages_paths _ _ _ _ _ _ _ Hpv) as Hpaths.
    pose proof (deploy_stage_disabled cfg E task_id (pv_paths pv) w0 Hcfg) as Hd.
    pose proof H as (w1 & w2 & w3 & pw & Hd' & _)%chain_stages_Ok.
    rewrite Hd in Hd'. inversion Hd' as [[Hv Hdt Hw]]. subst w1.
    apply chain_stages_no_verifier in H as (Htx & w1 & w2' & p & s1 & s2 & Hd'' & He & Ht
                                            & Hc & Hs1 & Hs2 & Hps & Hr);
      [|by rewrite <- Hv].
    rewrite Hd in Hd''. inversion Hd''; subst w1.
    destruct He as (Hc2 & _ & evs2 & Ht2 & Hev2).
    assert (evs2 = []) as -> by (by destruct evs2).
    rewrite app_nil_r in Ht2.
    split_and!; try done.
    exists evs, s1, s2. split_and!; try done.
    + rewrite Ht, Ht2, Ht0. by rewrite <- app_assoc.
    + rewrite Hpaths, paths_of_status in Hps. injection Hps as Hps.
      rewrite Hps. exact Hr.
Qed.

(** The run of the small installation, which has neither endpoint nor
    key. *)
Lemma chain_unset_run_completes_witness :
  ∃ r w', run_pipeline_async toy_config (toy_externals toy_witness) "t1" [] toy_world
          = (Ok r, w') ∧
          pr_verifier_contract r = None ∧ pr_verifier_deploy_tx r = None ∧
          pr_tx_hash r = None ∧ w_chain w' = w_chain toy_world.
Proof.
  destruct (run_pipeline_async toy_config (toy_externals toy_witness) "t1" [] toy_world)
    as [[r|e] w'] eqn:Hrun.
  - exists r, w'. split; [reflexivity|].
    destruct (chain_unset_run_completes toy_config (toy_externals toy_witness)
                "t1" [] toy_world eq_refl eq_refl)
      as ((H4 & _) & H).
    destruct (H r w' Hrun) as (H1 & H2 & H3 & _).
    split; [exact H1|]. split; [exact H2|]. split; [exact H3|].
    rewrite Hrun in H4. exact H4.
  - exfalso.
    assert (Hp : is_ok (run_pipeline_async toy_config (toy_externals toy_witness)
                          "t1" [] toy_world).1 = true) by (vm_compute; reflexivity).
    rewrite Hrun in Hp. discriminate.
Defined.

(** C3, as stated, fails for both stages.  With endpoint and key unset
    the deployment and the registration are skipped, and the statuses
    after the verifier export are the registration skip and "complete":
    no status records that the deployment was skipped.  With endpoint
    and key set but no registry address, the deployment succeeds, the
    registration is skipped (its transaction hash is absent), and the
    ledger says "Registering model on-chain", as it does for a
    registration that is carried out. *)
Lemma deployment_skip_not_recorded :
  let off := run_pipeline_async toy_config (toy_externals toy_witness) "t1" [] toy_world in
  let dep := run_pipeline_async deploy_only_config (toy_externals toy_witness) "t1" []
                                deploy_world in
  drop 11 (statuses (w_trace off.2))
  = [("verifier", "Exporting EVM verifier", None);
     ("register", "Skipping on-chain registration (no verifier deployment)", None);
     ("complete", "Pipeline finished", None)] ∧
  match dep.1 with
  | Ok r => pr_verifier_contract r = Some "0xVerifier" ∧ pr_tx_hash r = None
  | Raise _ => False
  end ∧
  drop 11 (statuses (w_trace dep.2))
  = [("verifier", "Exporting EVM verifier", None);
     ("verifier_deploy", "Deploying verifier contract", None);
     ("register", "Registering model on-chain", None);
     ("complete", "Pipeline finished", None)].
Proof. vm_compute. done. Qed.

(** C3, amended: whenever a run ends without a verifier address, which
    is the case when the chain endpoint or the signing key is missing,
    the registration is skipped and the skip is recorded in the Status
    Ledger as an explicit status (step "register", message "Skipping
    on-chain registration (no verifier deployment)", no error), distinct
    from a failure, right before the final "complete" status.  That
    status is the only record of a skip. *)
Theorem registration_skip_recorded cfg E task_id model_bytes w r w' :
  run_pipeline_async cfg E task_id model_bytes w = (Ok r, w') →
  truthy_str (WEB3_HTTP_PROVIDER cfg) && truthy_str (WEB3_OPERATOR_KEY cfg) = false ∨
  truthy_str (pr_verifier_contract r) = false →
  truthy_str (pr_verifier_contract r) = false ∧
  pr_tx_hash r = None ∧
  ∃ pre s_skip s_done,
    w_trace w' = (pre ++ [EvStatus s_skip; EvStatus s_done])%list ∧
    status_at "register" "Skipping on-chain registration (no verifier deployment)"
              None s_skip ∧
    st_step s_skip ≠ "failed" ∧
    status_at "complete" "Pipeline finished" None s_done.
Proof.
  unfold run_pipeline_async.
  intros (pv & w0 & Hpv & H)%bind_Ok Hcase.
  assert (truthy_str (pr_verifier_contract r) = false) as Hv.
  { destruct Hcase as [Hcfg|Hv]; [|exact Hv].
    pose proof H as (w1 & w2 & w3 & pw & Hd' & _)%chain_stages_Ok.
    rewrite (deploy_stage_disabled cfg E task_id (pv_paths pv) w0 Hcfg) in Hd'.
    inversion Hd' as [[Hv Hdt Hw]]. reflexivity. }
  apply chain_stages_no_verifier in H as (Htx & w1 & w2 & p & s1 & s2 & _ & _ & Ht
                                          & _ & Hs1 & Hs2 & _); [|exact Hv].
  split; [exact Hv|]. split; [exact Htx|].
  exists (w_trace w2), s1, s2. split_and!; try done.
  destruct Hs1 as (-> & _). discriminate.
Qed.

(** The run of the small installation records the skip. *)
Lemma registration_skip_recorded_witness :
  ∃ r w', run_pipeline_async toy_config (toy_externals toy_witness) "t1" [] toy_world
          = (Ok r, w') ∧
          pr_tx_hash r = None ∧
          ∃ pre s_skip s_done,
            w_trace w' = (pre ++ [EvStatus s_skip; EvStatus s_done])%list ∧
            st_message s_skip = "Skipping on-chain registration (no verifier deployment)".
Proof.
  destruct (run_pipeline_async toy_config (toy_externals toy_witness) "t1" [] toy_world)
    as [[r|e] w'] eqn:Hrun.
  - exists r, w'. split; [reflexivity|].
    destruct (registration_skip_recorded toy_config (toy_externals toy_witness)
                "t1" [] toy_world r w' Hrun (or_introl eq_refl))
      as (_ & Htx & pre & s1 & s2 & Ht & (_ & Hm & _) & _).
    split; [exact Htx|]. exists pre, s1, s2. split; [exact Ht|exact Hm].
  - exfalso.
    assert (Hp : is_ok (run_pipeline_async toy_config (toy_externals toy_witness)
                          "t1" [] toy_world).1 = true) by (vm_compute; reflexivity).
    rewrite Hrun in Hp. discriminate.
Defined.

(** ** The upload handler *)

(** The handler runs the pipeline and, on an error that is an
    [Exception], records the failure and answers 500; nothing else
    happens after the error. *)
Lemma post_model_run cfg E task_id model_bytes w :
  task_id ≠ "" →
  post_model cfg E (upload_of task_id model_bytes) w =
  match run_pipeline cfg E task_id model_bytes w with
  | (Ok result, w1) => (Ok {| rs_code := 201; rs_body := BResult result |}, w1)
  | (Raise exc, w1) =>
      if is_instance exc "Exception" then
        match record_failure cfg E task_id exc w1 with
        | (Ok _, w') =>
            (Ok {| rs_code := 500; rs_body := error_json (exn_str exc) |}, w')
        | (Raise e', w') => (Raise e', w')
        end
      else (Raise exc, w1)
  end.
Proof.
  intros Hne. unfold post_model, upload_of. simpl.
  rewrite (eqb_nonempty _ Hne). simpl.
  unfold try_except, bind, record_failure, ret.
  destruct (run_pipeline cfg E task_id model_bytes w) as [[result|exc] w1]; [done|].
  destruct (is_instance exc "Exception"); [|done].
  unfold bind.
  destruct (task_paths cfg task_id w1) as [[paths|e1] w2]; [|done].
  by destruct (update_status E paths "failed" "Pipeline error" (Some (exn_str exc)) w2)
    as [[[]|e2] w3].
Qed.

(** The error [run_pipeline] raises is the error of the stage, except
    for a [RuntimeError] that mentions [asyncio.run()]. *)
Lemma run_pipeline_reraised cfg E task_id model_bytes w exc0 w1 :
  run_pipeline_async cfg E task_id model_bytes w = (Raise exc0, w1) →
  run_pipeline cfg E task_id model_bytes w = (Raise (reraised exc0), w1).
Proof.
  intros H. unfold run_pipeline, try_except, reraised. rewrite H.
  destruct (is_instance exc0 "RuntimeError"); [|done]. simpl.
  by destruct (contains "asyncio.run()" (exn_str exc0)).
Qed.

Lemma run_pipeline_Raise cfg E task_id model_bytes w exc w1 :
  run_pipeline cfg E task_id model_bytes w = (Raise exc, w1) →
  ∃ exc0, run_pipeline_async cfg E task_id model_bytes w = (Raise exc0, w1) ∧
    (exc = exc0 ∨
     (is_instance exc0 "RuntimeError" = true ∧
      contains "asyncio.run()" (exn_str exc0) = true ∧
      exc = Exn "RuntimeError" "cannot reuse already awaited coroutine")).
Proof.
  unfold run_pipeline, try_except.
  destruct (run_pipeline_async cfg E task_id model_bytes w) as [[r|exc0] w0];
    [discriminate|].
  destruct (is_instance exc0 "RuntimeError") eqn:Hc; simpl.
  - destruct (contains "asyncio.run()" (exn_str exc0)) eqn:Hm; intros H.
    + exists exc0. inversion H; subst. split; [done|].
      right. split_and!; done.
    + exists exc0. inversion H. split; [done|by left].
  - intros H. exists exc0. inversion H. split; [done|by left].
Qed.

Lemma record_failure_Ok cfg E task_id exc w1 w' :
  record_failure cfg E task_id exc w1 = (Ok tt, w') →
  ∃ s q,
    status_at "failed" "Pipeline error" (Some (exn_str exc)) s ∧
    w_trace w' = (w_trace w1 ++ [EvStatus s])%list ∧
    w_chain w' = w_chain w1 ∧
    resolve (w_fs w') (w_cwd w')
            (path_join (path_join (APP_ROOT cfg) task_id) "status.json") = Ok q ∧
    w_fs w' !! q = Some (File (json_dump_indent2 E (status_json s))) ∧
    (∀ p d, p ≠ q → w_fs w' !! p = Some (File d) ↔ w_fs w1 !! p = Some (File d)).
Proof.
  unfold record_failure.
  intros (paths & w2 & Hp & Hu)%bind_Ok.
  pose proof (keeps_dirs_task_paths _ _ _ _ _ Hp) as (Hg & _ & _ & _ & _ & _ & Hc & Ht).
  apply task_paths_Ok in Hp as (-> & _ & _).
  apply update_status_Ok in Hu as (p & s & Hps & Hs & _ & Htr & Hw & _ & Hcwd & Hch).
  rewrite paths_of_status in Hps. injection Hps as <-.
  pose proof Hw as (q & Hq & _ & _ & Hf)%write_file_Ok.
  exists s, q. split_and!; try done.
  - by rewrite Htr, Ht.
  - congruence.
  - rewrite Hcwd. by eapply resolve_after_write.
  - rewrite Hf. apply lookup_insert_eq.
  - intros p d Hne. rewrite Hf, lookup_insert_ne by done. by apply grows_files.
Qed.

(** A status write that raises leaves no record in the history. *)
Lemma update_status_Raise E paths step message error w e w' :
  update_status E paths step message error w = (Raise e, w') →
  w_trace w' = w_trace w.
Proof.
  unfold update_status.
  intros [H|(t & w1 & Ht & H)]%bind_Raise; [discriminate|].
  unfold now in Ht. inversion Ht; subst. clear Ht.
  apply bind_Raise in H as [H|(p & w2 & Hp & H)].
  - by apply (keeps_getitem (extends no_event)), extends_no_event in H.
  - apply (keeps_getitem (extends no_event)), extends_no_event in Hp.
    apply bind_Raise in H as [H|(u & w3 & _ & H)]; [|discriminate].
    apply (keeps_save_json no_event), extends_no_event in H.
    simpl in Hp. congruence.
Qed.







(** C6, as stated, fails in two ways.  On the full disk the validation
    stage throws and the failed status cannot be written: the handler
    raises and the ledger still says "input".  And a stage error without
    a message (an assertion of the toolkit) is recorded with an empty
    error message. *)
Lemma failed_status_not_guaranteed :
  let full := post_model toy_config (toy_externals toy_witness) (upload_of "t1" [])
                         full_disk_world in
  let silent := post_model toy_config silent_externals (upload_of "t1" []) toy_world in
  is_ok full.1 = false ∧
  statuses (w_trace full.2)
  = [("started", "Storing model", None); ("input", "Preparing validation input", None)] ∧
  silent.1 = Ok {| rs_code := 500; rs_body := error_json "" |} ∧
  last (statuses (w_trace silent.2)) = Some ("failed", "Pipeline error", Some "").
Proof. vm_compute. done. Qed.

(** C6, amended: for every run in which some stage operation throws and
    the handler manages to write the failed status, a status record with
    stage "failed" and the propagated error's message (non-empty
    whenever that message is) is written to the task's status file; the
    remaining stages are aborted, with no partial continuation or retry:
    after the throw the history gains the failed status and nothing
    else, the chain is untouched, and no file other than the status file
    is created or changed, so no artifact of a subsequent stage appears.
    The propagated error is the stage's own, except that a RuntimeError
    whose text mentions asyncio.run() is replaced by the error of
    re-running the coroutine. *)
Theorem stage_failure_recorded cfg E task_id model_bytes w exc w1 resp w' :
  task_id ≠ "" →
  run_pipeline cfg E task_id model_bytes w = (Raise exc, w1) →
  post_model cfg E (upload_of task_id model_bytes) w = (Ok resp, w') →
  resp = {| rs_code := 500; rs_body := error_json (exn_str exc) |} ∧
  (∃ exc0, run_pipeline_async cfg E task_id model_bytes w = (Raise exc0, w1) ∧
     (exc = exc0 ∨
      (is_instance exc0 "RuntimeError" = true ∧
       contains "asyncio.run()" (exn_str exc0) = true ∧
       exc = Exn "RuntimeError" "cannot reuse already awaited coroutine"))) ∧
  ∃ s q,
    status_at "failed" "Pipeline error" (Some (exn_str exc)) s ∧
    (exn_str exc ≠ "" → st_error s ≠ Some "") ∧
    w_trace w' = (w_trace w1 ++ [EvStatus s])%list ∧
    w_chain w' = w_chain w1 ∧
    resolve (w_fs w') (w_cwd w')
            (path_join (path_join (APP_ROOT cfg) task_id) "status.json") = Ok q ∧
    w_fs w' !! q = Some (File (json_dump_indent2 E (status_json s))) ∧
    (∀ p d, p ≠ q → w_fs w' !! p = Some (File d) ↔ w_fs w1 !! p = Some (File d)).
Proof.
  intros Hne Hrun. rewrite (post_model_run _ _ _ _ _ Hne), Hrun.
  destruct (is_instance exc "Exception"); [|discriminate].
  destruct (record_failure cfg E task_id exc w1) as [[[]|e'] w2] eqn:Hrec;
    [|discriminate].
  intros H. inversion H; subst. clear H.
  split; [reflexivity|]. split; [by apply run_pipeline_Raise|].
  apply record_failure_Ok in Hrec as (s & q & Hs & Ht & Hc & Hr & Hq & Hf).
  exists s, q. split_and!; try done.
  destruct Hs as (_ & _ & ->). congruence.
Qed.

(** The run of the small installation without its validation table, on
    a disk with room. *)
Lemma stage_failure_recorded_witness :
  let w := set_fs (<[["srv"] := Dir]> ∅) toy_world in
  ∃ exc w1 w',
    run_pipeline toy_config (toy_externals toy_witness) "t1" [] w = (Raise exc, w1) ∧
    post_model toy_config (toy_externals toy_witness) (upload_of "t1" []) w
    = (Ok {| rs_code := 500; rs_body := error_json (exn_str exc) |}, w') ∧
    ∃ s, w_trace w' = (w_trace w1 ++ [EvStatus s])%list ∧ st_step s = "failed".
Proof.
  intros w.
  destruct (run_pipeline toy_config (toy_externals toy_witness) "t1" [] w)
    as [[r|exc] w1] eqn:Hrun.
  - exfalso.
    assert (Hp : is_ok (run_pipeline toy_config (toy_externals toy_witness) "t1" []
                          w).1 = false) by (vm_compute; reflexivity).
    rewrite Hrun in Hp. discriminate.
  - destruct (post_model toy_config (toy_externals toy_witness) (upload_of "t1" []) w)
      as [[resp|e] w'] eqn:Hpost.
    + destruct (stage_failure_recorded toy_config (toy_externals toy_witness)
                  "t1" [] w exc w1 resp w')
        as (-> & _ & s & q & (Hs & _) & _ & Ht & _).
      * discriminate.
      * exact Hrun.
      * exact Hpost.
      * exists exc, w1, w'. split; [reflexivity|]. split; [reflexivity|].
        exists s. split; [exact Ht|exact Hs].
    + exfalso.
      assert (Hp : is_ok (post_model toy_config (toy_externals toy_witness)
                            (upload_of "t1" []) w).1 = true) by (vm_compute; reflexivity).
      rewrite Hpost in Hp. discriminate.
Defined.

(** * Further properties of the backend *)

(** ** Directories *)

Lemma mkdirs_walk path comps : ∀ f cur f',
  fs_tree f → is_dir_at f cur = true →
  mkdirs f path cur comps = Ok f' →
  ∃ q, walk f' path cur comps = Ok q ∧ is_dir_at f' q = true.
Proof.
  induction comps as [|c rest IH]; intros f cur f' Ht Hd; simpl.
  - intros H. inversion H; subst. by exists cur.
  - destruct (node_at f (step_comp cur c)) as [[d|]|] eqn:E.
    + destruct rest; discriminate.
    + intros H.
      rewrite (is_dir_at_grows _ _ _ (mkdirs_grows _ _ _ _ _ H) Hd).
      eapply IH; [exact Ht| |exact H]. by apply is_dir_at_node.
    + intros H.
      pose proof (fs_tree_parent _ _ Ht Hd) as Hp.
      pose proof Hd as Hd'. apply is_dir_at_node in Hd', Hp.
      destruct (step_comp_cases cur c) as [Hs|[Hs|(Hs & _)]];
        rewrite Hs in *; try congruence.
      apply node_at_None in E as [_ E].
      pose proof (grows_insert_dir f _ E) as Hg1.
      pose proof (mkdirs_grows _ _ _ _ _ H) as Hg2.
      rewrite (is_dir_at_grows _ _ _ Hg2 (is_dir_at_grows _ _ _ Hg1 Hd)).
      eapply IH; [| |exact H].
      * apply fs_tree_insert_dir; [exact Ht|exact E|].
        rewrite removelast_last. exact Hd.
      * apply is_dir_at_node. rewrite node_at_nonroot by by destruct cur.
        apply lookup_insert_eq.
Qed.

(** [ensure_dir] (lines 34-36): in a file system that is a tree, once
    [ensure_dir path] returns, [path] is a directory, the file system is
    still a tree, and nothing but new directories was added. *)
Theorem ensure_dir_makes_directory path w w' :
  fs_tree (w_fs w) → is_dir_at (w_fs w) (w_cwd w) = true →
  ensure_dir path w = (Ok tt, w') →
  isdir (w_fs w') (w_cwd w') path = true ∧
  fs_tree (w_fs w') ∧ only_new_dirs w w'.
Proof.
  intros Ht Hd H.
  pose proof (keeps_dirs_ensure_dir _ _ _ _ H) as Hk.
  unfold ensure_dir in H.
  destruct (makedirs (w_fs w) (w_cwd w) path) as [f|e] eqn:Hm; [|discriminate].
  inversion H; subst. simpl. split_and!; try done.
  - unfold makedirs in Hm. unfold isdir, resolve.
    destruct (String.eqb path ""); [discriminate|].
    assert (is_dir_at (w_fs w) (start_dir (w_cwd w) path) = true) as Hs.
    { unfold start_dir. by destruct (startswith_sep path). }
    destruct (mkdirs_walk _ _ _ _ _ Ht Hs Hm) as (q & -> & Hq). exact Hq.
  - by eapply makedirs_tree.
Qed.

(** Creating the directory of a new task in the small installation. *)
Lemma ensure_dir_makes_directory_witness :
  let w' := (ensure_dir "/srv/artifacts/t9" toy_world).2 in
  isdir (w_fs w') (w_cwd w') "/srv/artifacts/t9" = true.
Proof.
  intros w'.
  destruct (ensure_dir_makes_directory "/srv/artifacts/t9" toy_world w') as (H & _).
  - apply (bool_decide_unpack _). vm_compute. exact I.
  - reflexivity.
  - vm_compute. reflexivity.
  - exact H.
Defined.

(** A path that names a file cannot be made a directory. *)
Lemma mkdirs_on_file path path' comps : ∀ f cur q d,
  comps ≠ [] →
  walk f path' cur comps = Ok q → node_at f q = Some (File d) →
  mkdirs f path cur comps
  = Raise (Exn "FileExistsError" ("[Errno 17] File exists: " +:+ py_repr path)).
Proof.
  induction comps as [|c rest IH]; intros f cur q d Hne; [done|]. simpl.
  destruct (is_dir_at f cur); [|discriminate].
  destruct rest as [|c' rest'].
  - simpl. intros H Hq. inversion H; subst. by rewrite Hq.
  - intros Hw Hq.
    assert (is_dir_at f (step_comp cur c) = true) as Hd.
    { simpl in Hw. by destruct (is_dir_at f (step_comp cur c)). }
    apply is_dir_at_node in Hd. rewrite Hd. by eapply IH.
Qed.

Lemma makedirs_on_file f cwd path :
  isfile f cwd path = true →
  makedirs f cwd path
  = Raise (Exn "FileExistsError" ("[Errno 17] File exists: " +:+ py_repr path)).
Proof.
  unfold isfile, makedirs, resolve. destruct (String.eqb path ""); [discriminate|].
  destruct (walk f path (start_dir cwd path) (split_path path)) as [q|e] eqn:Hw;
    [|discriminate].
  destruct (node_at f q) as [[d|]|] eqn:Hq; try discriminate.
  intros _. eapply mkdirs_on_file; [apply split_path_nonempty|exact Hw|exact Hq].
Qed.

(** [task_paths], [post_model], [get_status], [get_artifact] (lines
    39-42, 427-432, 439, 449): when the path of the task directory names
    an existing file, resolving the artifact set raises a
    [FileExistsError], and every route raises that same error: the
    upload handler's own recovery resolves the set again and raises
    too.  The world is left as it was; no status is written. *)
Theorem task_id_naming_a_file cfg E task_id model_bytes artifact w :
  task_id ≠ "" →
  isfile (w_fs w) (w_cwd w) (path_join (APP_ROOT cfg) task_id) = true →
  ∃ exc,
    exn_cls exc = "FileExistsError" ∧ is_instance exc "OSError" = true ∧
    task_paths cfg task_id w = (Raise exc, w) ∧
    post_model cfg E (upload_of task_id model_bytes) w = (Raise exc, w) ∧
    get_status cfg E task_id w = (Raise exc, w) ∧
    get_artifact cfg task_id artifact w = (Raise exc, w).
Proof.
  intros Hne Hf.
  set (exc := Exn "FileExistsError"
                  ("[Errno 17] File exists: " +:+ py_repr (path_join (APP_ROOT cfg) task_id))).
  assert (task_paths cfg task_id w = (Raise exc, w)) as Hp.
  { unfold task_paths, bind, ensure_dir. by rewrite (makedirs_on_file _ _ _ Hf). }
  exists exc. split_and!; try done.
  - rewrite (post_model_run _ _ _ _ _ Hne).
    assert (run_pipeline cfg E task_id model_bytes w = (Raise exc, w)) as ->.
    { rewrite (run_pipeline_reraised _ _ _ _ _ exc w); [done|].
      unfold run_pipeline_async, proving_stages.
      by rewrite (bind_fail _ _ _ _ _ (bind_fail _ _ _ _ _ Hp)). }
    simpl. unfold record_failure. by rewrite (bind_fail _ _ _ _ _ Hp).
  - unfold get_status. by rewrite (bind_fail _ _ _ _ _ Hp).
  - unfold get_artifact. by rewrite (bind_fail _ _ _ _ _ Hp).
Qed.

(** The task ID "t1/network.onnx" names the model of task "t1". *)
Lemma task_id_naming_a_file_witness :
  ∃ exc,
    exn_cls exc = "FileExistsError" ∧
    post_model toy_config (toy_externals toy_witness)
               (upload_of "t1/network.onnx" []) two_tasks_world
    = (Raise exc, two_tasks_world).
Proof.
  destruct (task_id_naming_a_file toy_config (toy_externals toy_witness)
              "t1/network.onnx" [] "x" two_tasks_world) as (exc & Hc & _ & _ & H & _).
  - discriminate.
  - vm_compute. reflexivity.
  - exists exc. split; [exact Hc|exact H].
Defined.

(** ** The validation table *)

(** [load_validation_dataframe] (lines 61-70): loading reads only; a
    missing table raises [FileNotFoundError] with the configured path in
    its message; a table that is returned was on disk and has at least
    two columns. *)
Theorem load_validation_dataframe_checks cfg E w :
  let out := load_validation_dataframe cfg E w in
  out.2 = w ∧
  (isfile (w_fs w) (w_cwd w) (VALIDATION_CSV cfg) = false →
   out.1 = Raise (Exn "FileNotFoundError"
                    ("Validation CSV not found at " +:+ VALIDATION_CSV cfg +:+
                     ". Generate it via the notebook first."))) ∧
  (∀ df, out.1 = Ok df →
     isfile (w_fs w) (w_cwd w) (VALIDATION_CSV cfg) = true ∧
     (2 ≤ df_ncols df)%nat ∧
     ∃ bytes, read_file (w_fs w) (w_cwd w) (VALIDATION_CSV cfg) = Ok bytes ∧
              read_csv E bytes = Ok df).
Proof.
  unfold load_validation_dataframe, bind, os_isfile, os_read, lift, raise, ret.
  destruct (isfile (w_fs w) (w_cwd w) (VALIDATION_CSV cfg)) eqn:Hf; simpl.
  - destruct (read_file (w_fs w) (w_cwd w) (VALIDATION_CSV cfg)) as [bytes|e]; simpl;
      [|split_and!; [done|done|intros df; discriminate]].
    destruct (read_csv E bytes) as [df|e] eqn:Hcsv; simpl;
      [|split_and!; [done|done|intros df'; discriminate]].
    destruct (df_ncols df <? 2)%nat eqn:Hn; simpl.
    + split_and!; [done|done|intros df'; discriminate].
    + split_and!; [done|done|]. intros df' H. inversion H; subst.
      split_and!; try done.
      * apply Nat.ltb_ge in Hn. exact Hn.
      * by exists bytes.
  - split_and!; [done|done|intros df; discriminate].
Qed.

(** ** Label indexes *)

Lemma StronglySorted_lookup_lt {A} (R : relation A) (l : list A) :
  StronglySorted R l → ∀ i j x y,
    (i < j)%nat → l !! i = Some x → l !! j = Some y → R x y.
Proof.
  induction 1 as [|a l Hs IH Hall]; intros i j x y Hij Hi Hj; [done|].
  destruct j as [|j]; [lia|]. simpl in Hj.
  destruct i as [|i]; simpl in Hi.
  - inversion Hi; subst. rewrite Forall_forall in Hall. apply Hall.
    eapply list_elem_of_lookup_2. exact Hj.
  - eapply IH; [|exact Hi|exact Hj]. lia.
Qed.

Lemma label_same_str a b : label_same a b = true → is_str a = is_str b.
Proof.
  destruct a, b; try reflexivity; unfold label_same; simpl;
    rewrite ?andb_false_r; discriminate.
Qed.

Lemma dict_get_Some d l i :
  dict_get d l = Some i → ∃ l', (l', i) ∈ d ∧ label_eqb l' l = true.
Proof.
  induction d as [|[k v] d IH]; simpl; [done|].
  destruct (label_eqb k l) eqn:Hk.
  - intros [= ->]. exists k. split; [apply elem_of_cons; by left|done].
  - intros (l' & Hin & Heq)%IH. exists l'. split; [apply elem_of_cons; by right|done].
Qed.

Lemma index_dict_elem (labels : list label) l i : ∀ k,
  (l, i) ∈ map (λ il : nat * label, (il.2, il.1)) (enumerate_from k labels) →
  ∃ j, labels !! j = Some l ∧ i = (k + j)%nat.
Proof.
  induction labels as [|x labels IH]; intros k; simpl.
  - by intros H%elem_of_nil.
  - intros [[= -> ->]|H]%elem_of_cons.
    + exists 0%nat. split; [done|lia].
    + apply IH in H as (j & Hj & ->). exists (S j). split; [done|lia].
Qed.

(** [build_label_index_map] (lines 81-84) on a table whose labels are
    all strings, or all integers: the map is built; every label of the
    table has an index, and a key that has one equals a label of the
    table; the indexes are the numbers below the count of distinct
    labels, each used for one label; and the order of the indexes is the
    order of the labels, by code point for strings and by value for
    integers.  On a table that has a string label beside a label that
    is not a string, building the map raises a TypeError. *)
Theorem build_label_index_map_order E df :
  let column := map snd (df_rows df) in
  let n := length (unique column) in
  (one_kind column = true →
   ∃ m, build_label_index_map E df = Ok m ∧
     (∀ l, l ∈ column → is_Some (dict_get m l)) ∧
     (∀ l i, dict_get m l = Some i →
        (i < n)%nat ∧ ∃ l', l' ∈ column ∧ label_eqb l' l = true ∧ dict_get m l' = Some i) ∧
     (∀ i, (i < n)%nat → ∃ l, l ∈ column ∧ dict_get m l = Some i) ∧
     (∀ l1 l2 i, l1 ∈ column → l2 ∈ column →
        dict_get m l1 = Some i → dict_get m l2 = Some i → l1 = l2) ∧
     (∀ l1 l2 i1 i2, l1 ∈ column → l2 ∈ column →
        dict_get m l1 = Some i1 → dict_get m l2 = Some i2 →
        ((i1 ≤ i2)%nat ↔ label_le l1 l2))) ∧
  (∀ a b, a ∈ column → b ∈ column → is_str a = true → is_str b = false →
     ∃ e, build_label_index_map E df = Raise e ∧ exn_cls e = "TypeError").
Proof.
  intros column n. split.
  - intros Hk.
    destruct (build_label_index_map_one_kind E df Hk) as (Hb & Hs & Hnd & Hin & Hget).
    fold column in Hb, Hs, Hnd, Hin, Hget.
    set (labels := merge_sort label_le (unique column)) in *.
    assert (length labels = n) as Hn.
    { unfold labels, n. by rewrite sorted_Permutation. }
    assert (∀ l i, l ∈ column →
              dict_get (index_dict labels) l = Some i ↔ labels !! i = Some l) as Hmap.
    { intros l i Hl. apply Hget. unfold one_kind in *. simpl.
      apply orb_true_iff in Hk as [Hk|Hk]; rewrite forallb_forall in Hk;
        rewrite (Hk l) by (by apply list_elem_of_In); rewrite !andb_true_l;
        apply orb_true_iff; [left|right]; by apply forallb_forall. }
    exists (index_dict labels). split; [exact Hb|]. split_and!.
    + intros l Hl. pose proof Hl as Hl'. apply Hin, list_elem_of_lookup in Hl' as [i Hi].
      exists i. by apply Hmap.
    + intros l i Hi. pose proof Hi as (l' & Hl' & Heq)%dict_get_Some.
      apply (index_dict_elem labels l' i 0) in Hl' as (j & Hj & ->). simpl.
      split; [rewrite <- Hn; by eapply lookup_lt_Some|].
      exists l'. split_and!; [|done|].
      * apply Hin. by eapply list_elem_of_lookup_2.
      * apply Hmap; [|done]. apply Hin. by eapply list_elem_of_lookup_2.
    + intros i Hi. rewrite <- Hn in Hi.
      destruct (lookup_lt_is_Some_2 labels i Hi) as [l Hl].
      assert (l ∈ column) as Hc by (apply Hin; by eapply list_elem_of_lookup_2).
      exists l. split; [done|]. by apply Hmap.
    + intros l1 l2 i Hl1 Hl2 H1 H2. apply Hmap in H1, H2; try done. congruence.
    + intros l1 l2 i1 i2 Hl1 Hl2 H1 H2. apply Hmap in H1, H2; try done.
      assert (kin l1 l2) as Hkin by by apply (one_kind_kin column).
      split.
      * intros Hle. destruct (decide (i1 = i2)) as [->|Hne].
        -- assert (l1 = l2) as -> by congruence. by apply label_le_refl_kin.
        -- eapply (StronglySorted_lookup_lt label_le labels Hs i1 i2); [lia|done|done].
      * intros Hle. destruct (decide (i1 ≤ i2)%nat) as [|Hgt]; [done|].
        assert (label_le l2 l1) as Hle'.
        { eapply (StronglySorted_lookup_lt label_le labels Hs i2 i1); [lia|done|done]. }
        assert (l1 = l2) as -> by (by apply label_le_antisym_kin).
        pose proof (NoDup_lookup _ _ _ _ Hnd H1 H2). lia.
  - intros a b Ha Hb Hsa Hsb. unfold build_label_index_map. fold column.
    destruct (unique_covers column a Ha) as (a' & Ha' & Hea).
    destruct (unique_covers column b Hb) as (b' & Hb' & Heb).
    apply label_same_str in Hea, Heb.
    destruct (py_sorted_mixed E (unique column) a' b') as (e & -> & He);
      try done; try congruence.
    by exists e.
Qed.

(** ** Public inputs *)

Lemma res_map_Ok {A B} (f : A → res B) (g : A → B) (l : list A) :
  (∀ x, x ∈ l → f x = Ok (g x)) → res_map f l = Ok (map g l).
Proof.
  induction l as [|x l IH]; intros H; simpl; [done|].
  rewrite (H x) by (apply elem_of_cons; by left).
  rewrite IH; [done|]. intros y Hy. apply H. apply elem_of_cons. by right.
Qed.

Lemma felts_big_endian_Ok E (g : json → string) (insts : list (list json)) :
  (∀ x, x ∈ concat insts → ezkl_felt_to_big_endian E x = Ok (g x)) →
  felts_big_endian E (map JArr insts) = Ok (map g (concat insts)).
Proof.
  induction insts as [|inst insts IH]; intros H; simpl; [done|].
  rewrite (res_map_Ok _ g inst); simpl.
  - rewrite IH; simpl.
    + by rewrite map_app.
    + intros x Hx. apply H. simpl. apply elem_of_app. by right.
  - intros x Hx. apply H. simpl. apply elem_of_app. by left.
Qed.

(** [format_pub_inputs] (lines 120-128): a proof payload without
    "instances" raises [KeyError]; when the instances are lists of felts
    that all convert, the public inputs are the conversions of all felts
    of all instances, in order, and the rendering is that list in
    brackets. *)
Theorem format_pub_inputs_flattens E (m : list (string * json)) :
  (assoc "instances" m = None →
   format_pub_inputs E (JObj m) = Raise (Exn "KeyError" "'instances'")) ∧
  (∀ (insts : list (list json)) (g : json → string),
     assoc "instances" m = Some (JArr (map JArr insts)) →
     (∀ x, x ∈ concat insts → ezkl_felt_to_big_endian E x = Ok (g x)) →
     format_pub_inputs E (JObj m)
     = Ok (map g (concat insts),
           "[" +:+ join_quoted (map g (concat insts)) +:+ "]")).
Proof.
  split.
  - intros H. unfold format_pub_inputs. simpl. by rewrite H.
  - intros insts g H Hg. unfold format_pub_inputs. simpl. rewrite H. simpl.
    by rewrite (felts_big_endian_Ok E g insts Hg).
Qed.

(** The proof of the small installation has one instance of two felts. *)
Lemma format_pub_inputs_flattens_witness :
  format_pub_inputs (toy_externals toy_witness) toy_proof
  = Ok (["0x01"; "0x02"],
        "[" +:+ join_quoted ["0x01"; "0x02"] +:+ "]").
Proof.
  destruct (format_pub_inputs_flattens (toy_externals toy_witness)
              [("instances", JArr [JArr [JStr "0x01"; JStr "0x02"]]);
               ("proof", JStr "0xabcd")]) as [_ H].
  apply (H [[JStr "0x01"; JStr "0x02"]]
           (λ j, match j with JStr s => s | _ => "" end)).
  - reflexivity.
  - intros x Hx. simpl in Hx.
    repeat (apply elem_of_cons in Hx as [->|Hx]; [reflexivity|]).
    by apply elem_of_nil in Hx.
Defined.

(** ** Prediction *)

Lemma argmax_from_bound (l : list float) : ∀ best bi i,
  (bi < i)%nat → (argmax_from best bi i l < i + length l)%nat.
Proof.
  induction l as [|x l IH]; intros best bi i Hb; simpl; [lia|].
  destruct (PrimFloat.leb x best).
  - specialize (IH best bi (S i)). lia.
  - destruct (is_nan x); [lia|]. specialize (IH x i (S i)). lia.
Qed.

Lemma argmax_bound (l : list float) i : argmax l = Ok i → (i < length l)%nat.
Proof.
  destruct l as [|x l]; simpl; [discriminate|].
  intros H. inversion H; subst. destruct (is_nan x); [lia|].
  pose proof (argmax_from_bound l x 0%nat 1%nat). lia.
Qed.

(** [extract_prediction] (lines 211-216): a prediction that is returned
    is either the empty one, or has a predicted index that is a position
    of its score list. *)
Theorem prediction_of_index_in_range E payload p :
  prediction_of E payload = Ok p →
  p = no_prediction ∨
  ∃ i, predicted_index p = Some i ∧ (i < length (scores p))%nat.
Proof.
  unfold prediction_of.
  destruct (py_get payload "pretty_elements" (JObj [])) as [pretty|e]; [|discriminate].
  simpl. destruct (py_get pretty "rescaled_outputs" JNull) as [outputs|e];
    [|discriminate].
  simpl. destruct (truthy outputs); simpl.
  - destruct (py_first outputs) as [first|e]; [|discriminate]. simpl.
    destruct (py_iter first) as [xs|e]; [|discriminate]. simpl.
    destruct (res_map (py_float E) xs) as [sc|e]; [|discriminate]. simpl.
    destruct (argmax sc) as [i|e] eqn:Ha; [|discriminate]. simpl.
    intros H. inversion H; subst. right. exists i. simpl.
    split; [done|]. by apply argmax_bound.
  - intros H. inversion H. by left.
Qed.

(** The witness of the small installation predicts index 1 of two
    scores. *)
Lemma prediction_of_index_in_range_witness :
  ∃ p, prediction_of (toy_externals toy_witness) toy_witness = Ok p ∧
       predicted_index p = Some 1%nat ∧ length (scores p) = 2%nat.
Proof.
  exists {| scores := [0%float; 1%float]; predicted_index := Some 1%nat |}.
  assert (H : prediction_of (toy_externals toy_witness) toy_witness
              = Ok {| scores := [0%float; 1%float]; predicted_index := Some 1%nat |})
    by (vm_compute; reflexivity).
  destruct (prediction_of_index_in_range _ _ _ H) as [Hn|(i & Hi & _)].
  - discriminate.
  - split; [exact H|]. split; reflexivity.
Defined.

(** ** The order of statuses and stages *)

Section Follows.
Context {A B : Type}.

Lemma follows_silent (m : M A) : keeps (extends no_event) m → follows [] m.
Proof.
  intros Hk w r w' H. exists []. rewrite app_nil_r.
  split_and!; [by eapply extends_no_event, Hk| done | done].
Qed.

Lemma follows_raise (plan : list mark) (e : exn) : follows plan (raise (A := A) e).
Proof.
  intros w r w' H. inversion H; subst. exists []. rewrite app_nil_r.
  split_and!; [done|apply prefix_nil|discriminate].
Qed.

Lemma follows_ret (a : A) : follows [] (ret a).
Proof. apply follows_silent, keeps_ret. apply _. Qed.

Lemma follows_bind (p1 p2 : list mark) (m : M A) (k : A → M B) :
  follows p1 m → (∀ a, follows p2 (k a)) → follows (p1 ++ p2) (bind m k).
Proof.
  intros Hm Hk w r w'. unfold bind.
  destruct (m w) as [[a|e] w1] eqn:E; intros H.
  - destruct (Hm _ _ _ E) as (evs1 & Ht1 & _ & Hf1).
    destruct (Hk a _ _ _ H) as (evs2 & Ht2 & Hp2 & Hf2).
    exists (evs1 ++ evs2)%list. rewrite map_app, (Hf1 eq_refl).
    split_and!.
    + by rewrite Ht2, Ht1, app_assoc.
    + by apply prefix_app.
    + intros Hr. by rewrite (Hf2 Hr).
  - inversion H; subst.
    destruct (Hm _ _ _ E) as (evs1 & Ht1 & Hp1 & _).
    exists evs1. split_and!; [done| |discriminate].
    by apply prefix_app_r.
Qed.

Lemma follows_bind_silent (p : list mark) (m : M A) (k : A → M B) :
  keeps (extends no_event) m → (∀ a, follows p (k a)) → follows p (bind m k).
Proof.
  intros Hm Hk. apply (follows_bind [] p); [by apply follows_silent|done].
Qed.

Lemma follows_bind_cons (x : mark) (p : list mark) (m : M A) (k : A → M B) :
  follows [x] m → (∀ a, follows p (k a)) → follows (x :: p) (bind m k).
Proof. apply (follows_bind [x] p). Qed.

End Follows.

Lemma follows_update_status E paths step message error :
  follows [MStatus step message error] (update_status E paths step message error).
Proof.
  intros w [[]|e] w' H.
  - apply update_status_Ok in H as (p & s & _ & (Hs1 & Hs2 & Hs3) & _ & Ht & _).
    exists [EvStatus s]. simpl. rewrite Hs1, Hs2, Hs3. done.
  - apply update_status_Raise in H. exists []. rewrite app_nil_r.
    split_and!; [done|apply prefix_nil|discriminate].
Qed.

Lemma follows_stage {A} (name : string)
    (op : list string → gmap (list string) node → res A * gmap (list string) node) :
  follows [MStage name] (stage name op).
Proof.
  intros w r w'. unfold stage, bind, emit, on_files. simpl.
  destruct (op (w_cwd w) (w_fs w)) as [r0 f]. intros H. inversion H; subst.
  exists [EvStage name]. done.
Qed.

Lemma follows_send_raw_transaction sender raw :
  follows [MSend] (send_raw_transaction sender raw).
Proof.
  intros w r w'. unfold send_raw_transaction.
  destruct (ch_up (w_chain w)); [destruct (ch_next (w_chain w))|];
    intros H; inversion H; subst; simpl.
  - exists []. rewrite app_nil_r. split_and!; [done|apply prefix_nil|discriminate].
  - exists [EvSend raw]. done.
  - exists []. rewrite app_nil_r. split_and!; [done|apply prefix_nil|discriminate].
Qed.

Lemma keeps_get_transaction_count ok address :
  keeps (extends ok) (get_transaction_count address).
Proof.
  intros w r w'. unfold get_transaction_count.
  destruct (ch_up (w_chain w)); intros H; inversion H; subst; reflexivity.
Qed.

Lemma keeps_chain_id ok : keeps (extends ok) chain_id.
Proof.
  intros w r w'. unfold chain_id.
  destruct (ch_up (w_chain w)); intros H; inversion H; subst; reflexivity.
Qed.

Lemma keeps_wait_for_transaction_receipt ok tx_hash :
  keeps (extends ok) (wait_for_transaction_receipt tx_hash).
Proof.
  intros w r w'. unfold wait_for_transaction_receipt.
  destruct (ch_up (w_chain w)); [destruct (ch_mined (w_chain w) !! tx_hash)|];
    intros H; inversion H; subst; reflexivity.
Qed.

Lemma keeps_ensure_solc ok E solc_version :
  keeps (extends ok) (ensure_solc E solc_version).
Proof.
  intros w r w'. unfold ensure_solc.
  destruct (existsb _ _);
    [|destruct (solcx_install_solc E solc_version (w_cwd w) (w_fs w)) as [[v|e] f]];
    intros H; inversion H; subst; by apply extends_same.
Qed.

Lemma keeps_installed_solc ok : keeps (extends ok) installed_solc.
Proof. intros w r w' H. inversion H; subst. by apply extends_same. Qed.

Ltac silent_step :=
  first
    [ apply keeps_ensure_solc
    | apply keeps_installed_solc
    | apply keeps_get_transaction_count
    | apply keeps_chain_id
    | apply keeps_wait_for_transaction_receipt
    | apply keeps_load_validation_dataframe
    | apply keeps_pick_validation_sample
    | keeps_step ].

Lemma keeps_compile_verifier_bytecode ok E sol_path solc_version :
  keeps (extends ok) (compile_verifier_bytecode E sol_path solc_version).
Proof. unfold compile_verifier_bytecode. repeat silent_step. Qed.

(** One step of a plan: a status, a toolkit call, a broadcast, or a
    computation that adds no event. *)
Ltac follows_step :=
  first
    [ apply follows_ret
    | apply follows_raise
    | apply follows_update_status
    | apply follows_stage
    | apply follows_send_raw_transaction
    | apply follows_bind_cons; [apply follows_update_status | intros]
    | apply follows_bind_cons; [apply follows_stage | intros]
    | apply follows_bind_cons; [apply follows_send_raw_transaction | intros]
    | apply follows_bind_silent;
        [ solve [ apply keeps_compile_verifier_bytecode
                | apply keeps_extract_prediction
                | repeat silent_step ]
        | intros ]
    | match goal with
      | |- follows _ (match ?x with _ => _ end) => destruct x
      | |- follows _ (if ?x then _ else _) => destruct x
      end ].

(** Every run of the proving stages, returning or not, writes its
    statuses and calls the toolkit in the fixed order. *)
Lemma follows_proving_stages cfg E task_id model_bytes :
  follows proving_plan (proving_stages cfg E task_id model_bytes).
Proof. unfold proving_stages, proving_plan. repeat follows_step. Qed.

Lemma follows_Ok {A} (plan : list mark) (m : M A) w a w' :
  follows plan m → m w = (Ok a, w') →
  ∃ evs, w_trace w' = (w_trace w ++ evs)%list ∧ map mark_of evs = plan.
Proof.
  intros Hf H. destruct (Hf _ _ _ H) as (evs & Ht & _ & Hp).
  exists evs. split; [done|]. by apply Hp.
Qed.

#[global] Instance history_grows_preorder : PreOrder history_grows.
Proof.
  split.
  - intros w. unfold history_grows. reflexivity.
  - intros w1 w2 w3. unfold history_grows. apply transitivity.
Qed.

Lemma follows_history_grows {A} (plan : list mark) (m : M A) :
  follows plan m → keeps history_grows m.
Proof.
  intros Hf w r w' H. destruct (Hf _ _ _ H) as (evs & Ht & _).
  unfold history_grows. rewrite Ht. by apply prefix_app_r.
Qed.

Lemma follows_deploy_verifier_contract cfg E task_id :
  chain_enabled cfg = true →
  follows [MSend] (deploy_verifier_contract cfg E task_id).
Proof.
  unfold chain_enabled. intros Hc. unfold deploy_verifier_contract.
  rewrite Hc. simpl. repeat follows_step.
Qed.

Lemma follows_deploy_stage cfg E task_id paths :
  follows (if chain_enabled cfg
           then [MStatus "verifier_deploy" "Deploying verifier contract" None; MSend]
           else [])
          (deploy_stage cfg E task_id paths).
Proof.
  unfold deploy_stage. fold (chain_enabled cfg).
  destruct (chain_enabled cfg) eqn:Hc.
  - apply follows_bind_cons; [apply follows_update_status|]. intros _.
    apply (follows_bind [MSend] []);
      [by apply follows_deploy_verifier_contract|].
    intros [d|]; apply follows_ret.
  - apply follows_ret.
Qed.

Lemma follows_register_model_onchain cfg E task_id model_path proof verifier accuracy :
  follows (if registry_enabled cfg && truthy_str verifier then [MSend] else [])
          (register_model_onchain cfg E task_id model_path proof verifier accuracy).
Proof.
  unfold register_model_onchain, registry_enabled, chain_enabled.
  rewrite <- !andb_assoc.
  destruct (truthy_str (GENERAL_CONTRACT_ADDRESS cfg) &&
            (truthy_str (WEB3_HTTP_PROVIDER cfg) &&
             (truthy_str (WEB3_OPERATOR_KEY cfg) && truthy_str verifier))); simpl.
  - cbv zeta. repeat follows_step.
  - apply follows_ret.
Qed.

Lemma follows_register_stage cfg E task_id paths proof verifier accuracy :
  follows (if truthy_str verifier
           then MStatus "register" "Registering model on-chain" None ::
                (if registry_enabled cfg then [MSend] else [])
           else [MStatus "register"
                         "Skipping on-chain registration (no verifier deployment)" None])
          (register_stage cfg E task_id paths proof verifier accuracy).
Proof.
  unfold register_stage. destruct (truthy_str verifier) eqn:Hv.
  - apply follows_bind_cons; [apply follows_update_status|]. intros _.
    apply follows_bind_silent; [apply keeps_getitem; apply _|]. intros p.
    pose proof (follows_register_model_onchain cfg E task_id p proof verifier accuracy)
      as H.
    rewrite Hv, andb_true_r in H. exact H.
  - apply follows_bind_cons; [apply follows_update_status|]. intros _.
    apply follows_ret.
Qed.

Lemma keeps_history_chain_stages cfg E task_id pv :
  keeps history_grows (chain_stages cfg E task_id pv).
Proof.
  unfold chain_stages. cbv zeta.
  apply keeps_bind; [apply _|eapply follows_history_grows, follows_deploy_stage|].
  intros dep.
  apply keeps_bind; [apply _|apply keeps_lift; apply _|]. intros pub.
  apply keeps_bind; [apply _|apply keeps_getitem; apply _|]. intros p.
  apply keeps_bind;
    [apply _|eapply follows_history_grows, follows_silent, keeps_extract_prediction|].
  intros prediction.
  apply keeps_bind; [apply _|eapply follows_history_grows, follows_register_stage|].
  intros tx.
  apply keeps_bind; [apply _|eapply follows_history_grows, follows_update_status|].
  intros _. apply keeps_ret. apply _.
Qed.

(** [run_pipeline_async] (lines 289-355): in every run, returning or
    failing, the statuses and the toolkit calls of the proving stages
    happen in the fixed order, each stage after its own status: the
    events the run adds to the history are an initial segment of the
    plan, or the whole plan followed by the events of the chain
    stages. *)
Theorem run_pipeline_async_order cfg E task_id model_bytes w :
  let out := run_pipeline_async cfg E task_id model_bytes w in
  ∃ evs, w_trace out.2 = (w_trace w ++ evs)%list ∧
         (map mark_of evs `prefix_of` proving_plan ∨
          proving_plan `prefix_of` map mark_of evs).
Proof.
  intros out. subst out. unfold run_pipeline_async, bind.
  destruct (proving_stages cfg E task_id model_bytes w) as [[pv|e] w0] eqn:Hp.
  - destruct (follows_Ok _ _ _ _ _ (follows_proving_stages _ _ _ _) Hp)
      as (evs1 & Ht1 & Hm1).
    destruct (chain_stages cfg E task_id pv w0) as [r w'] eqn:Hc. simpl.
    pose proof (keeps_history_chain_stages _ _ _ _ _ _ _ Hc) as [evs2 Ht2].
    exists (evs1 ++ evs2)%list. split.
    + by rewrite Ht2, Ht1, app_assoc.
    + right. rewrite map_app, Hm1. by apply prefix_app_r.
  - destruct (follows_proving_stages _ _ _ _ _ _ _ Hp) as (evs & Ht & Hpre & _).
    exists evs. split; [done|by left].
Qed.

(** [run_pipeline_async] (lines 289-393): the history of a run that
    returns is exactly the plan of the proving stages followed by the
    deployment status and one broadcast when endpoint and key are set,
    the registration status (with one broadcast when the registry is
    configured too) or the skip status, and "complete". *)
Theorem run_pipeline_async_history cfg E task_id model_bytes w r w' :
  run_pipeline_async cfg E task_id model_bytes w = (Ok r, w') →
  ∃ evs, w_trace w' = (w_trace w ++ evs)%list ∧
         map mark_of evs = (proving_plan ++ chain_plan cfg r)%list.
Proof.
  unfold run_pipeline_async.
  intros (pv & w0 & Hp & H)%bind_Ok.
  destruct (follows_Ok _ _ _ _ _ (follows_proving_stages _ _ _ _) Hp)
    as (evs0 & Ht0 & Hm0).
  apply chain_stages_Ok in H as (w1 & w2 & w3 & pw & Hd & _ & He & _ & Hr & Hu & _).
  destruct (follows_Ok _ _ _ _ _ (follows_deploy_stage _ _ _ _) Hd) as (evs1 & Ht1 & Hm1).
  apply keeps_extract_prediction with (ok := no_event) in He.
  apply extends_no_event in He.
  destruct (follows_Ok _ _ _ _ _ (follows_register_stage _ _ _ _ _ _ _) Hr)
    as (evs2 & Ht2 & Hm2).
  destruct (follows_Ok _ _ _ _ _ (follows_update_status _ _ _ _ _) Hu)
    as (evs3 & Ht3 & Hm3).
  exists (evs0 ++ evs1 ++ evs2 ++ evs3)%list. split.
  - rewrite Ht3, Ht2, He, Ht1, Ht0. by rewrite <- !app_assoc.
  - rewrite !map_app, Hm0, Hm1, Hm2, Hm3. reflexivity.
Qed.

(** The run of the small installation with endpoint and key, whose
    deployment succeeds. *)
Lemma run_pipeline_async_history_witness :
  ∃ r w' evs,
    run_pipeline_async deploy_only_config (toy_externals toy_witness) "t1" [] deploy_world
    = (Ok r, w') ∧
    w_trace w' = (w_trace deploy_world ++ evs)%list ∧
    map mark_of evs = (proving_plan ++ chain_plan deploy_only_config r)%list.
Proof.
  destruct (run_pipeline_async deploy_only_config (toy_externals toy_witness) "t1" []
                               deploy_world) as [[r|e] w'] eqn:Hrun.
  - destruct (run_pipeline_async_history _ _ _ _ _ _ _ Hrun) as (evs & Ht & Hm).
    exists r, w', evs. split; [reflexivity|]. split; [exact Ht|exact Hm].
  - exfalso.
    assert (Hp : is_ok (run_pipeline_async deploy_only_config (toy_externals toy_witness)
                          "t1" [] deploy_world).1 = true) by (vm_compute; reflexivity).
    rewrite Hrun in Hp. discriminate.
Defined.

(** ** Transactions *)

Lemma silent_chain {A} (m : M A) w r w' :
  keeps (extends no_event) m → m w = (r, w') →
  w_chain w' = w_chain w ∧ w_trace w' = w_trace w.
Proof.
  intros Hk H. pose proof (Hk _ _ _ H) as He.
  split; [by destruct He|by apply extends_no_event].
Qed.

Lemma send_raw_transaction_Ok sender raw w tx_hash w' :
  send_raw_transaction sender raw w = (Ok tx_hash, w') →
  ∃ rc, tx_hash = rc_transactionHash rc ∧
        ch_up (w_chain w') = true ∧
        ch_sent (w_chain w') = (ch_sent (w_chain w) ++ [raw])%list ∧
        ch_mined (w_chain w') !! tx_hash = Some rc ∧
        w_fs w' = w_fs w.
Proof.
  unfold send_raw_transaction.
  destruct (ch_up (w_chain w)) eqn:Hup; [|discriminate].
  destruct (ch_next (w_chain w)) as [|rc rest]; [discriminate|].
  intros H. inversion H; subst. simpl. exists rc.
  split_and!; try done. apply lookup_insert_eq.
Qed.

Lemma wait_for_transaction_receipt_Ok tx_hash w rc w' :
  wait_for_transaction_receipt tx_hash w = (Ok rc, w') →
  ch_mined (w_chain w) !! tx_hash = Some rc ∧ w' = w.
Proof.
  unfold wait_for_transaction_receipt.
  destruct (ch_up (w_chain w)); [|discriminate].
  destruct (ch_mined (w_chain w) !! tx_hash); [|discriminate].
  intros H. by inversion H.
Qed.

(** Takes a returning computation apart, bind by bind, and notes for
    every step that stays off the chain that the chain is as before. *)
Ltac invert_ok H :=
  repeat first
    [ match type of H with
      | raise _ _ = (Ok _, _) => discriminate H
      | (if ?c then _ else _) _ = (Ok _, _) =>
          destruct c eqn:?; simpl in H; try discriminate H
      | (match ?x with _ => _ end) _ = (Ok _, _) =>
          destruct x eqn:?; simpl in H; try discriminate H
      | bind _ _ _ = (Ok _, _) =>
          let a := fresh "a" in
          let w1 := fresh "w" in
          let Hm := fresh "Hm" in
          let Hs := fresh "Hs" in
          apply bind_Ok in H as (a & w1 & Hm & H);
          pose proof (λ Hk, silent_chain _ _ _ _ Hk Hm) as Hs;
          match type of Hs with
          | ?K → _ =>
              first [ let Hk := fresh "Hk" in
                      assert K as Hk
                        by (solve [ apply keeps_compile_verifier_bytecode
                                  | repeat silent_step ]);
                      specialize (Hs Hk); clear Hk
                    | clear Hs ]
          end
      end ].

(** [deploy_verifier_contract] (lines 160-204): it returns no
    deployment exactly when endpoint or key is missing, and then
    touches nothing; a deployment it returns stands for one broadcast
    transaction whose receipt has status 1, and carries that receipt's
    contract address and hash.  In every case at most one transaction
    is broadcast. *)
Theorem deploy_verifier_contract_receipt cfg E task_id w :
  let out := deploy_verifier_contract cfg E task_id w in
  (chain_enabled cfg = false → out = (Ok None, w)) ∧
  (out.1 = Ok None → chain_enabled cfg = false) ∧
  (∀ d, out.1 = Ok (Some d) →
     ∃ raw rc,
       ch_sent (w_chain out.2) = (ch_sent (w_chain w) ++ [raw])%list ∧
       ch_mined (w_chain out.2) !! dp_tx_hash d = Some rc ∧
       rc_status rc = 1 ∧
       dp_address d = rc_contractAddress rc ∧
       dp_tx_hash d = rc_transactionHash rc) ∧
  (∃ evs, w_trace out.2 = (w_trace w ++ evs)%list ∧
          (map mark_of evs = [] ∨ map mark_of evs = [MSend])).
Proof.
  intros out. subst out. split_and!.
  - unfold chain_enabled, deploy_verifier_contract. by intros ->.
  - destruct (chain_enabled cfg) eqn:Hc; [|done].
    destruct (deploy_verifier_contract cfg E task_id w) as [r w'] eqn:H.
    simpl. intros ->. exfalso.
    unfold deploy_verifier_contract in H. unfold chain_enabled in Hc.
    rewrite Hc in H. simpl in H. invert_ok H.
    all: try (apply ret_Ok in H as [? _]; discriminate).
  - intros d.
    destruct (deploy_verifier_contract cfg E task_id w) as [r w'] eqn:H.
    simpl. intros ->.
    unfold deploy_verifier_contract in H.
    destruct (truthy_str (WEB3_HTTP_PROVIDER cfg) && truthy_str (WEB3_OPERATOR_KEY cfg));
      simpl in H; [|by apply ret_Ok in H as [? _]].
    invert_ok H.
    apply ret_Ok in H as [Hd ->]. inversion Hd; subst d. simpl.
    match goal with
    | Hsend : send_raw_transaction _ ?raw _ = (Ok _, _) |- _ =>
        apply send_raw_transaction_Ok in Hsend as (rc & Hh & _ & Hsent & Hmined & _);
        exists raw
    end.
    match goal with
    | Hwait : wait_for_transaction_receipt _ _ = (Ok ?rc', _) |- _ =>
        apply wait_for_transaction_receipt_Ok in Hwait as (Hrc & ->)
    end.
    rewrite Hmined in Hrc. injection Hrc as <-.
    exists rc. split_and!; try done.
    + repeat match goal with Hs : _ ∧ _ |- _ => destruct Hs as [? _] end.
      rewrite Hsent. f_equal. congruence.
    + by rewrite <- Hh.
    + by apply Z.eqb_eq, negb_false_iff.
  - destruct (chain_enabled cfg) eqn:Hc.
    + destruct (deploy_verifier_contract cfg E task_id w) as [r w'] eqn:H.
      destruct (follows_deploy_verifier_contract cfg E task_id Hc _ _ _ H)
        as (evs & Ht & Hp & _).
      exists evs. split; [done|]. simpl.
      destruct (map mark_of evs) as [|x [|y l]]; [by left| |].
      * right. apply prefix_cons_inv_1 in Hp. by subst.
      * apply prefix_length in Hp. simpl in Hp. lia.
    + unfold chain_enabled in Hc. unfold deploy_verifier_contract. rewrite Hc. simpl.
      exists []. rewrite app_nil_r. split; [done|by left].
Qed.

Lemma register_condition cfg verifier :
  truthy_str (GENERAL_CONTRACT_ADDRESS cfg) && truthy_str (WEB3_HTTP_PROVIDER cfg)
  && truthy_str (WEB3_OPERATOR_KEY cfg) && truthy_str verifier
  = registry_enabled cfg && truthy_str verifier.
Proof. unfold registry_enabled, chain_enabled. by rewrite !andb_assoc. Qed.

(** [register_model_onchain] (lines 219-284): it returns no hash
    exactly when the registry address, the endpoint, the key or the
    verifier address is missing, and then touches nothing; a hash it
    returns stands for one broadcast transaction whose receipt has
    status 1.  In every case at most one transaction is broadcast. *)
Theorem register_model_onchain_receipt cfg E task_id model_path proof verifier accuracy w :
  let out := register_model_onchain cfg E task_id model_path proof verifier accuracy w in
  (registry_enabled cfg && truthy_str verifier = false → out = (Ok None, w)) ∧
  (out.1 = Ok None → registry_enabled cfg && truthy_str verifier = false) ∧
  (∀ h, out.1 = Ok (Some h) →
     ∃ raw rc,
       ch_sent (w_chain out.2) = (ch_sent (w_chain w) ++ [raw])%list ∧
       ch_mined (w_chain out.2) !! h = Some rc ∧
       rc_status rc = 1 ∧
       h = rc_transactionHash rc) ∧
  (∃ evs, w_trace out.2 = (w_trace w ++ evs)%list ∧
          (map mark_of evs = [] ∨ map mark_of evs = [MSend])).
Proof.
  intros out. subst out. split_and!.
  - unfold register_model_onchain. rewrite register_condition. by intros ->.
  - destruct (registry_enabled cfg && truthy_str verifier) eqn:Hc; [|done].
    destruct (register_model_onchain cfg E task_id model_path proof verifier accuracy w)
      as [r w'] eqn:H.
    simpl. intros ->. exfalso.
    unfold register_model_onchain in H. rewrite register_condition, Hc in H.
    simpl in H. cbv zeta in H. invert_ok H.
    all: try (apply ret_Ok in H as [? _]; discriminate).
  - intros h.
    destruct (register_model_onchain cfg E task_id model_path proof verifier accuracy w)
      as [r w'] eqn:H.
    simpl. intros ->.
    unfold register_model_onchain in H. rewrite register_condition in H.
    destruct (registry_enabled cfg && truthy_str verifier);
      simpl in H; [|by apply ret_Ok in H as [? _]].
    cbv zeta in H. invert_ok H.
    all: apply ret_Ok in H as [Hd ->]; inversion Hd; subst h.
    all: match goal with
         | Hsend : send_raw_transaction _ ?raw _ = (Ok _, _) |- _ =>
             apply send_raw_transaction_Ok in Hsend as (rc & Hh & _ & Hsent & Hmined & _);
             exists raw
         end.
    all: match goal with
         | Hwait : wait_for_transaction_receipt _ _ = (Ok ?rc', _) |- _ =>
             apply wait_for_transaction_receipt_Ok in Hwait as (Hrc & ->)
         end.
    all: rewrite Hmined in Hrc; injection Hrc as <-.
    all: exists rc; split_and!; try done;
      [ repeat match goal with Hs : _ ∧ _ |- _ => destruct Hs as [? _] end;
        rewrite Hsent; f_equal; congruence
      | by rewrite <- Hh
      | by apply Z.eqb_eq, negb_false_iff ].
  - destruct (register_model_onchain cfg E task_id model_path proof verifier accuracy w)
      as [r w'] eqn:H.
    destruct (follows_register_model_onchain cfg E task_id model_path proof verifier
                accuracy _ _ _ H) as (evs & Ht & Hp & _).
    exists evs. split; [done|]. simpl.
    destruct (registry_enabled cfg && truthy_str verifier).
    + destruct (map mark_of evs) as [|x [|y l]]; [by left| |].
      * right. apply prefix_cons_inv_1 in Hp. by subst.
      * apply prefix_length in Hp. simpl in Hp. lia.
    + left. by apply prefix_nil_inv in Hp.
Qed.

(** ** The Solidity compiler *)

#[global] Instance same_files_preorder : PreOrder same_files.
Proof.
  split; [done|]. intros w1 w2 w3 H1 H2. unfold same_files in *. congruence.
Qed.

(** [compile_verifier_bytecode] (lines 131-157): compiling leaves the
    chain and the history as they are; a missing source raises
    [FileNotFoundError] with the path in its text before anything is
    installed, the world untouched; when solcx has the requested version
    installed, nothing is installed and the world is left as it is; a
    bytecode that is returned is not empty, and its source was a file. *)
Theorem compile_verifier_bytecode_checks E sol_path solc_version w :
  let out := compile_verifier_bytecode E sol_path solc_version w in
  extends no_event w out.2 ∧
  (isfile (w_fs w) (w_cwd w) sol_path = false →
   out = (Raise (Exn "FileNotFoundError" ("Verifier source not found at " +:+ sol_path)),
          w)) ∧
  (existsb (String.eqb solc_version) (w_solc w) = true → out.2 = w) ∧
  (∀ bytecode, out.1 = Ok bytecode →
     truthy bytecode = true ∧ isfile (w_fs w) (w_cwd w) sol_path = true).
Proof.
  cbv zeta.
  destruct (compile_verifier_bytecode E sol_path solc_version w) as [r w'] eqn:H.
  simpl. split_and!.
  - by eapply keeps_compile_verifier_bytecode.
  - intros Hf. unfold compile_verifier_bytecode, bind, os_isfile in H.
    rewrite Hf in H. simpl in H. by inversion H.
  - intros Hi. unfold compile_verifier_bytecode, bind, os_isfile in H.
    destruct (isfile (w_fs w) (w_cwd w) sol_path); simpl in H; [|by inversion H].
    unfold ensure_solc in H. rewrite Hi in H.
    unfold os_read, installed_solc, lift, raise, ret in H.
    repeat match type of H with
           | context [match ?x with _ => _ end] => destruct x; simpl in H
           end; by inversion H.
  - intros bytecode ->. unfold compile_verifier_bytecode in H.
    apply bind_Ok in H as (present & w0 & Hp & H).
    unfold os_isfile in Hp. inversion Hp; subst w0. clear Hp.
    destruct present eqn:Hf; simpl in H; [|discriminate].
    apply bind_Ok in H as ([] & w1 & Hs & H).
    apply bind_Ok in H as (src & w2 & Hr & H).
    apply bind_Ok in H as (installed & w3 & Hi & H).
    apply bind_Ok in H as (compiled & w4 & [_ ->]%lift_Ok & H).
    apply bind_Ok in H as (contracts & w4 & [_ ->]%lift_Ok & H).
    apply bind_Ok in H as (cm & w4 & [_ ->]%lift_Ok & H).
    destruct (truthy cm); simpl in H; [|discriminate].
    apply bind_Ok in H as (names & w4 & [_ ->]%lift_Ok & H).
    destruct names as [|[| | | |name| |] names]; try discriminate.
    apply bind_Ok in H as (bc & w4 & [_ ->]%lift_Ok & H).
    destruct (truthy bc) eqn:Hb; simpl in H; [|discriminate].
    apply ret_Ok in H as [<- <-]. done.
Qed.

(** ** The routes that read a task folder *)

(** Joining a name without separators to the path of a directory
    resolves one step below that directory. *)
Lemma resolve_join_plain_intro f cwd base a b :
  no_sep a = true → resolve f cwd base = Ok b → is_dir_at f b = true →
  resolve f cwd (path_join base a) = Ok (step_comp b a).
Proof.
  intros Ha Hr Hd.
  assert (base ≠ "") as Hb.
  { intros ->. discriminate. }
  revert Hr. unfold path_join.
  rewrite (no_sep_starts _ Ha), (eqb_nonempty _ Hb). simpl.
  unfold resolve. rewrite (eqb_nonempty _ Hb).
  destruct (endswith_sep base) eqn:He.
  - destruct (endswith_sep_inv _ He) as [b0 ->].
    rewrite append_assoc.
    assert (b0 +:+ "/" +:+ a ≠ "") as Hne.
    { intros [_ E]%append_eq_nil. discriminate. }
    rewrite (eqb_nonempty _ Hne).
    assert (start_dir cwd (b0 +:+ "/" +:+ a) = start_dir cwd (b0 +:+ "/")) as ->.
    { unfold start_dir. by destruct b0. }
    rewrite split_path_append, (split_path_plain _ Ha), split_path_sep_end.
    intros (m & Hm & H1)%(walk_app _ _ (b0 +:+ "/") (b0 +:+ "/")).
    apply walk_one in H1 as [Hdm H1].
    assert (b = m) as ->.
    { rewrite H1. unfold step_comp. done. }
    eapply walk_app_intro.
    + eapply walk_same_dirs; [|exact Hm]. done.
    + simpl. by rewrite Hd.
  - assert (base +:+ "/" +:+ a ≠ "") as Hne.
    { intros [? _]%append_eq_nil. done. }
    rewrite (eqb_nonempty _ Hne).
    assert (start_dir cwd (base +:+ "/" +:+ a) = start_dir cwd base) as ->.
    { unfold start_dir. by rewrite startswith_sep_append. }
    rewrite split_path_append, (split_path_plain _ Ha). intros Hw.
    eapply walk_app_intro.
    + eapply walk_same_dirs; [|exact Hw]. done.
    + simpl. by rewrite Hd.
Qed.

(** [get_artifact] (lines 447-455) on a task folder that exists: for a
    name without a separator the answer is read off the entry one step
    below the folder; a file is served with its exact bytes, anything
    else is "artifact not found"; the world is left as it was. *)
Theorem get_artifact_serves_entry cfg task_id artifact w b :
  no_sep artifact = true →
  resolve (w_fs w) (w_cwd w) (path_join (APP_ROOT cfg) task_id) = Ok b →
  is_dir_at (w_fs w) b = true →
  get_artifact cfg task_id artifact w =
  (Ok (match node_at (w_fs w) (step_comp b artifact) with
       | Some (File data) => {| rs_code := 200; rs_body := BBytes data |}
       | _ => {| rs_code := 404; rs_body := error_json "artifact not found" |}
       end), w).
Proof.
  intros Ha Hr Hd.
  assert (task_paths cfg task_id w = (Ok (paths_of cfg task_id), w)) as Hp.
  { rewrite <- (set_fs_same w) at 2. apply task_paths_of_makedirs.
    apply makedirs_existing. unfold isdir. by rewrite Hr. }
  pose proof (resolve_join_plain_intro _ _ _ _ _ Ha Hr Hd) as Hc.
  unfold get_artifact.
  rewrite (bind_step _ _ _ _ _ Hp).
  unfold getitem. rewrite paths_of_base.
  unfold bind at 1. unfold ret at 1.
  unfold bind at 1. unfold os_isfile at 1. unfold isfile. rewrite Hc.
  destruct (node_at (w_fs w) (step_comp b artifact)) as [[data|]|] eqn:Hn;
    simpl; try done.
  unfold bind, os_read, read_file, ret. by rewrite Hc, Hn.
Qed.

(** On the installation with two task folders: the model of task "t1"
    is served, and a name that is not there is not found. *)
Lemma get_artifact_serves_entry_witness :
  get_artifact toy_config "t1" "network.onnx" two_tasks_world =
    (Ok {| rs_code := 200; rs_body := BBytes [x01; x02] |}, two_tasks_world) ∧
  get_artifact toy_config "t1" "proof.json" two_tasks_world =
    (Ok {| rs_code := 404; rs_body := error_json "artifact not found" |},
     two_tasks_world).
Proof.
  split.
  - apply (get_artifact_serves_entry toy_config "t1" "network.onnx" two_tasks_world
             ["srv"; "artifacts"; "t1"]); vm_compute; reflexivity.
  - apply (get_artifact_serves_entry toy_config "t1" "proof.json" two_tasks_world
             ["srv"; "artifacts"; "t1"]); vm_compute; reflexivity.
Defined.

Lemma read_file_isfile f cwd path data :
  read_file f cwd path = Ok data → isfile f cwd path = true.
Proof.
  unfold read_file, isfile. destruct (resolve f cwd path) as [q|]; [|discriminate].
  by destruct (node_at f q) as [[?|]|].
Qed.

(** [update_status] then [get_status] (lines 109-117 and 437-444): once
    a status has been written for a task whose folder path is not
    empty, the status route answers 200 with that record, time stamp of
    the write included, and changes nothing, provided the JSON library
    reads back what it wrote for that record. *)
Theorem get_status_after_update cfg E task_id step message error w w' :
  path_join (APP_ROOT cfg) task_id ≠ "" →
  update_status E (paths_of cfg task_id) step message error w = (Ok tt, w') →
  let s := {| st_step := step; st_message := message; st_error := error;
              st_timestamp := isoformat E (w_clock w) |} in
  json_loads E (json_dump_indent2 E (status_json s)) = Ok (status_json s) →
  get_status cfg E task_id w' =
  (Ok {| rs_code := 200; rs_body := BJson (status_json s) |}, w').
Proof.
  intros Hb Hu s Hj.
  apply update_status_Ok in Hu
    as (p & s0 & Hp & (H1 & H2 & H3) & Ht & Htr & Hw & Hrd & Hcwd & Hch).
  rewrite paths_of_status in Hp. injection Hp as <-.
  assert (s0 = s) as ->.
  { destruct s0. simpl in *. subst. done. }
  destruct (write_file_Ok _ _ _ _ _ Hw) as (q & Hr & Hn & Hq & Hf).
  assert (no_sep "status.json" = true) as Hs by reflexivity.
  destruct (resolve_join_plain _ _ _ _ _ Hs Hb Hr) as (b & Hrb & Hdb & ->).
  assert (∀ x, is_dir_at (w_fs w') x = is_dir_at (w_fs w) x) as Hsame.
  { intros x. rewrite Hf. by apply is_dir_at_insert_file. }
  assert (task_paths cfg task_id w' = (Ok (paths_of cfg task_id), w')) as Hp.
  { rewrite <- (set_fs_same w') at 2. apply task_paths_of_makedirs.
    apply makedirs_existing. unfold isdir.
    assert (resolve (w_fs w') (w_cwd w') (path_join (APP_ROOT cfg) task_id) = Ok b)
      as ->.
    { rewrite Hcwd. unfold resolve in *.
      destruct (String.eqb (path_join (APP_ROOT cfg) task_id) ""); [discriminate|].
      eapply walk_same_dirs; [|exact Hrb]. exact Hsame. }
    by rewrite Hsame. }
  unfold get_status.
  rewrite (bind_step _ _ _ _ _ Hp).
  unfold getitem. rewrite paths_of_status.
  unfold bind at 1. unfold ret at 1.
  unfold bind at 1. unfold os_isfile at 1.
  rewrite (read_file_isfile _ _ _ _ Hrd). simpl.
  unfold load_json, bind, os_read, lift, ret. by rewrite Hrd, Hj.
Qed.

(** On the installation with two task folders, with a JSON library that
    reads the record back. *)
Lemma get_status_after_update_witness :
  let s := {| st_step := "model_saved"; st_message := "Model uploaded";
              st_error := None; st_timestamp := "T0" |} in
  let E := toy_externals (status_json s) in
  let w' := (update_status E (paths_of toy_config "t1") "model_saved" "Model uploaded"
               None two_tasks_world).2 in
  get_status toy_config E "t1" w' =
  (Ok {| rs_code := 200; rs_body := BJson (status_json s) |}, w').
Proof.
  intros s E w'.
  apply (get_status_after_update toy_config E "t1" "model_saved" "Model uploaded" None
           two_tasks_world w').
  - vm_compute. discriminate.
  - vm_compute. reflexivity.
  - vm_compute. reflexivity.
Defined.

(** ** The summary of a run *)

Lemma deploy_verifier_contract_enabled cfg E task_id w d w' :
  chain_enabled cfg = true →
  deploy_verifier_contract cfg E task_id w = (Ok d, w') → is_Some d.
Proof.
  intros Hc H. destruct d as [d|]; [done|]. exfalso.
  unfold deploy_verifier_contract in H. unfold chain_enabled in Hc.
  rewrite Hc in H. simpl in H. invert_ok H.
  all: try (apply ret_Ok in H as [? _]; discriminate).
Qed.

Lemma register_model_onchain_enabled cfg E task_id model_path proof verifier accuracy
    w h w' :
  registry_enabled cfg && truthy_str verifier = true →
  register_model_onchain cfg E task_id model_path proof verifier accuracy w = (Ok h, w') →
  is_Some h.
Proof.
  intros Hc H. destruct h as [h|]; [done|]. exfalso.
  unfold register_model_onchain in H. rewrite register_condition, Hc in H.
  simpl in H. cbv zeta in H. invert_ok H.
  all: try (apply ret_Ok in H as [? _]; discriminate).
Qed.

Lemma chain_stages_task_id cfg E task_id pv w r w' :
  chain_stages cfg E task_id pv w = (Ok r, w') → pr_task_id r = task_id.
Proof.
  unfold chain_stages. cbv zeta. intros H.
  repeat (apply bind_Ok in H as (? & ? & _ & H)).
  apply ret_Ok in H as [-> _]. done.
Qed.

(** [run_pipeline_async] (lines 357-393): the summary of a run that
    returns tells what was done on the chain.  It names the task and
    the paths of its folder; it has a deployment transaction exactly
    when endpoint and key are configured, and a verifier address only
    then; it has a registration transaction exactly when a registry is
    configured as well and the verifier address is not empty; its
    accuracy is absent, 1.0 or 0.0. *)
Theorem run_pipeline_async_summary cfg E task_id model_bytes w r w' :
  run_pipeline_async cfg E task_id model_bytes w = (Ok r, w') →
  pr_task_id r = task_id ∧
  pr_artifacts r = paths_of cfg task_id ∧
  (is_Some (pr_verifier_deploy_tx r) ↔ chain_enabled cfg = true) ∧
  (truthy_str (pr_verifier_contract r) = true → chain_enabled cfg = true) ∧
  (is_Some (pr_tx_hash r) ↔
   registry_enabled cfg && truthy_str (pr_verifier_contract r) = true) ∧
  (pr_accuracy r = None ∨ pr_accuracy r = Some 1%float ∨ pr_accuracy r = Some 0%float).
Proof.
  unfold run_pipeline_async.
  intros (pv & w0 & Hp & H)%bind_Ok.
  pose proof (proving_stages_paths _ _ _ _ _ _ _ Hp) as Hpaths.
  pose proof (chain_stages_task_id _ _ _ _ _ _ _ H) as Hid.
  apply chain_stages_Ok in H
    as (w1 & w2 & w3 & p_witness & Hd & _ & _ & Hacc & Hr & _ & Hart).
  assert ((is_Some (pr_verifier_deploy_tx r) ↔ chain_enabled cfg = true) ∧
          (truthy_str (pr_verifier_contract r) = true → chain_enabled cfg = true))
    as [Htx Hva].
  { destruct (chain_enabled cfg) eqn:Hc.
    - split; [|done]. split; [done|]. intros _.
      unfold deploy_stage in Hd. unfold chain_enabled in Hc. rewrite Hc in Hd.
      apply bind_Ok in Hd as ([] & wa & _ & Hd).
      apply bind_Ok in Hd as (d & wb & Hdep & Hd).
      destruct (deploy_verifier_contract_enabled cfg E task_id _ _ _ Hc Hdep) as [d0 ->].
      apply ret_Ok in Hd as [Hd _]. injection Hd as _ ->. done.
    - rewrite deploy_stage_disabled in Hd by exact Hc.
      injection Hd as <- <- _. split; [|done].
      split; [by intros [? ?]|done]. }
  split_and!; try done.
  - congruence.
  - destruct (truthy_str (pr_verifier_contract r)) eqn:Hv.
    + rewrite andb_true_r. unfold register_stage in Hr. rewrite Hv in Hr.
      apply bind_Ok in Hr as ([] & wa & _ & Hr).
      apply bind_Ok in Hr as (p_model & wb & _ & Hr).
      destruct (registry_enabled cfg) eqn:Hreg.
      * split; [done|]. intros _.
        eapply register_model_onchain_enabled; [|exact Hr].
        by rewrite Hreg, Hv.
      * split; [|done]. intros [h Hh]. exfalso.
        unfold register_model_onchain in Hr.
        rewrite register_condition, Hreg in Hr. simpl in Hr.
        apply ret_Ok in Hr as [Hr _]. congruence.
    + rewrite andb_false_r.
      apply register_stage_skip in Hr as [-> _]; [|done].
      split; [by intros [? ?]|done].
  - rewrite Hacc. unfold accuracy_of.
    destruct (pv_target_index pv) as [t|]; [|by left].
    destruct (predicted_index (pr_prediction r)) as [p|]; [|by left].
    right. destruct (p =? t)%nat; [by left|by right].
Qed.

(** A run with endpoint and key, and no registry: a deployment
    transaction and a verifier address, and no registration. *)
Lemma run_pipeline_async_summary_witness :
  ∃ r w',
    run_pipeline_async deploy_only_config (toy_externals toy_witness) "t1" [] deploy_world
    = (Ok r, w') ∧
    pr_verifier_deploy_tx r = Some "0xdeploy" ∧
    pr_verifier_contract r = Some "0xVerifier" ∧
    pr_tx_hash r = None ∧
    (is_Some (pr_verifier_deploy_tx r) ↔ chain_enabled deploy_only_config = true) ∧
    (is_Some (pr_tx_hash r) ↔
     registry_enabled deploy_only_config && truthy_str (pr_verifier_contract r) = true).
Proof.
  assert (Hv : match (run_pipeline_async deploy_only_config (toy_externals toy_witness)
                        "t1" [] deploy_world).1 with
               | Ok r => pr_verifier_deploy_tx r = Some "0xdeploy" ∧
                         pr_verifier_contract r = Some "0xVerifier" ∧
                         pr_tx_hash r = None
               | Raise _ => False
               end) by (vm_compute; repeat split).
  destruct (run_pipeline_async deploy_only_config (toy_externals toy_witness) "t1" []
                               deploy_world) as [[r|e] w'] eqn:Hrun.
  - destruct Hv as (H1 & H2 & H3).
    destruct (run_pipeline_async_summary _ _ _ _ _ _ _ Hrun)
      as (_ & _ & Htx & _ & Hreg & _).
    exists r, w'. clear Hrun.
    split; [reflexivity|]. split; [exact H1|]. split; [exact H2|].
    split; [exact H3|]. split; [exact Htx|exact Hreg].
  - destruct Hv.
Defined.

(** ** The answers of the upload route *)

Lemma run_pipeline_Ok cfg E task_id model_bytes w r w' :
  run_pipeline cfg E task_id model_bytes w = (Ok r, w') →
  run_pipeline_async cfg E task_id model_bytes w = (Ok r, w').
Proof.
  unfold run_pipeline, try_except.
  destruct (run_pipeline_async cfg E task_id model_bytes w) as [[r0|exc] w0]; [done|].
  destruct (is_instance exc "RuntimeError"); [|done].
  by destruct (contains "asyncio.run()" (exn_str exc)).
Qed.

(** [post_model] (lines 417-434): an answer of the upload route is one
    of three.  400: task ID or model is missing, and nothing was
    touched.  201: the run returned the summary in the body, and the
    last record of the ledger is "complete".  500: the run raised, the
    body carries the text of the error, and the last record of the
    ledger is "failed" with that text. *)
Theorem post_model_answers cfg E req w resp w' :
  post_model cfg E req w = (Ok resp, w') →
  (rs_code resp = 400 ∧ w' = w ∧
   (truthy_str (form_task_id req) = false ∨ file_model req = None)) ∨
  (∃ task_id model_bytes s,
     req = upload_of task_id model_bytes ∧ task_id ≠ "" ∧
     last (w_trace w') = Some (EvStatus s) ∧
     ((∃ r, resp = {| rs_code := 201; rs_body := BResult r |} ∧
            run_pipeline_async cfg E task_id model_bytes w = (Ok r, w') ∧
            status_at "complete" "Pipeline finished" None s) ∨
      (∃ exc w1, resp = {| rs_code := 500; rs_body := error_json (exn_str exc) |} ∧
                 run_pipeline cfg E task_id model_bytes w = (Raise exc, w1) ∧
                 status_at "failed" "Pipeline error" (Some (exn_str exc)) s))).
Proof.
  destruct req as [[task_id|] model]; simpl.
  2: { unfold post_model. simpl. intros [-> ->]%ret_Ok. left. split_and!; try done.
       by left. }
  destruct (String.eqb task_id "") eqn:Hid.
  { unfold post_model. simpl. rewrite Hid. simpl. intros [-> ->]%ret_Ok. left.
    split_and!; try done. by left. }
  destruct model as [model_bytes|].
  2: { unfold post_model. simpl. rewrite Hid. simpl. intros [-> ->]%ret_Ok. left.
       split_and!; try done. by right. }
  apply String.eqb_neq in Hid.
  change {| form_task_id := Some task_id; file_model := Some model_bytes |}
    with (upload_of task_id model_bytes).
  rewrite (post_model_run _ _ _ _ _ Hid). intros H. right.
  exists task_id, model_bytes.
  destruct (run_pipeline cfg E task_id model_bytes w) as [[r|exc] w1] eqn:Hrun.
  - injection H as <- <-.
    apply run_pipeline_Ok in Hrun.
    pose proof Hrun as Hrun'. unfold run_pipeline_async in Hrun'.
    apply bind_Ok in Hrun' as (pv & w0 & _ & Hc).
    apply chain_stages_Ok in Hc as (wa & wb & wc & p & _ & _ & _ & _ & _ & Hu & _).
    apply update_status_Ok in Hu as (p0 & s & _ & Hs & _ & Ht & _).
    exists s. split_and!; try done.
    + rewrite Ht. apply last_snoc.
    + left. by exists r.
  - destruct (is_instance exc "Exception"); [|discriminate].
    destruct (record_failure cfg E task_id exc w1) as [[[]|e'] w2] eqn:Hrec;
      [|discriminate].
    injection H as <- <-.
    apply record_failure_Ok in Hrec as (s & q & Hs & Ht & _).
    exists s. split_and!; try done.
    + rewrite Ht. apply last_snoc.
    + right. by exists exc, w1.
Qed.

(** On the small installation the upload of a model for task "t1" is
    answered 201 after a run that ends with "complete". *)
Lemma post_model_answers_witness :
  ∃ resp w' s,
    post_model toy_config (toy_externals toy_witness) (upload_of "t1" []) toy_world
    = (Ok resp, w') ∧
    rs_code resp = 201 ∧
    last (w_trace w') = Some (EvStatus s) ∧
    status_at "complete" "Pipeline finished" None s.
Proof.
  assert (Hc : match (post_model toy_config (toy_externals toy_witness)
                        (upload_of "t1" []) toy_world).1 with
               | Ok resp => rs_code resp = 201
               | Raise _ => False
               end) by (vm_compute; reflexivity).
  destruct (post_model toy_config (toy_externals toy_witness) (upload_of "t1" [])
              toy_world) as [[resp|e] w'] eqn:Hpost.
  - cbn in Hc.
    destruct (post_model_answers _ _ _ _ _ _ Hpost)
      as [(H400 & _)|(task_id & model_bytes & s & _ & _ & Hl & Hcase)];
      clear Hpost.
    + exfalso. rewrite Hc in H400. discriminate H400.
    + destruct Hcase as [(r & _ & _ & Hs)|(exc & w1 & Hresp & _)].
      * exists resp, w', s.
        split; [reflexivity|]. split; [exact Hc|]. split; [exact Hl|exact Hs].
      * exfalso. rewrite Hresp in Hc. cbn in Hc. discriminate Hc.
  - destruct Hc.
Defined.

(** ** Transactions on the small installation *)

(** After the proving stages of task "t1" the verifier is deployed with
    one transaction, and the deployment carries the receipt's address. *)
Lemma deploy_verifier_contract_receipt_witness :
  let E := toy_externals toy_witness in
  let w := (proving_stages deploy_only_config E "t1" [] deploy_world).2 in
  let out := deploy_verifier_contract deploy_only_config E "t1" w in
  ∃ d raw rc,
    out.1 = Ok (Some d) ∧
    dp_address d = Some "0xVerifier" ∧
    ch_sent (w_chain out.2) = (ch_sent (w_chain w) ++ [raw])%list ∧
    ch_mined (w_chain out.2) !! dp_tx_hash d = Some rc ∧
    rc_status rc = 1.
Proof.
  intros E w out.
  pose (d := {| dp_address := Some "0xVerifier"; dp_tx_hash := "0xdeploy" |}).
  assert (out.1 = Ok (Some d)) as Hd by (vm_compute; reflexivity).
  destruct (deploy_verifier_contract_receipt deploy_only_config E "t1" w)
    as (_ & _ & Hsome & _).
  destruct (Hsome d Hd) as (raw & rc & Hsent & Hmined & Hst & _).
  exists d, raw, rc.
  split; [exact Hd|]. split; [reflexivity|]. split; [exact Hsent|].
  split; [exact Hmined|exact Hst].
Defined.

(** With a registry configured, the model of task "t1" is registered
    with one more transaction after the deployment. *)
Lemma register_model_onchain_receipt_witness :
  let E := toy_externals toy_witness in
  let w0 := (proving_stages registry_config E "t1" [] registry_world).2 in
  let w := (deploy_verifier_contract registry_config E "t1" w0).2 in
  let out := register_model_onchain registry_config E "t1"
               "/srv/artifacts/t1/network.onnx" toy_proof (Some "0xVerifier")
               (Some 1%float) w in
  ∃ raw rc,
    out.1 = Ok (Some "0xregister") ∧
    ch_sent (w_chain out.2) = (ch_sent (w_chain w) ++ [raw])%list ∧
    ch_mined (w_chain out.2) !! "0xregister" = Some rc ∧
    rc_status rc = 1.
Proof.
  intros E w0 w out.
  assert (out.1 = Ok (Some "0xregister")) as Hh by (vm_compute; reflexivity).
  destruct (register_model_onchain_receipt registry_config E "t1"
              "/srv/artifacts/t1/network.onnx" toy_proof (Some "0xVerifier")
              (Some 1%float) w) as (_ & _ & Hsome & _).
  destruct (Hsome "0xregister" Hh) as (raw & rc & Hsent & Hmined & Hst & _).
  exists raw, rc.
  split; [exact Hh|]. split; [exact Hsent|]. split; [exact Hmined|exact Hst].
Defined.

(** ** The validation sample *)

Lemma SFeqb_irrefl f : SFeqb f f = false → f = S754_nan.
Proof.
  destruct f as [s|s| |s m e]; unfold SFeqb, SFcompare; try done.
  - by destruct s.
  - destruct s; rewrite Z.compare_refl.
    + by rewrite CompOpp_involutive || rewrite Pos.compare_cont_refl.
    + by rewrite Pos.compare_cont_refl.
Qed.

(** A missing value equals no key. *)
Lemma label_eqb_nan k' k : label_is_nan k = true → label_eqb k' k = false.
Proof.
  destruct k as [z|x|b|s]; try discriminate. simpl.
  rewrite negb_true_iff, FloatAxioms.eqb_spec. intros Hx%SFeqb_irrefl.
  destruct k' as [z|y|b|s]; simpl; try done.
  - unfold float_is_Z. by rewrite Hx.
  - rewrite FloatAxioms.eqb_spec, Hx. unfold SFeqb, SFcompare.
    by destruct (Prim2SF y) as [[]|[]| |[]].
  - unfold float_is_Z. by rewrite Hx.
Qed.

Lemma dict_get_nan d k : label_is_nan k = true → dict_get d k = None.
Proof.
  intros Hk. induction d as [|[k' v] d IH]; simpl; [done|].
  by rewrite (label_eqb_nan k' k Hk).
Qed.

Lemma toy_df_sample_rows loaded df n seed rows :
  df_sample (toy_externals loaded) df n seed = Ok rows → rows ⊆ df_rows df.
Proof.
  simpl. destruct (n <? 0); [discriminate|].
  destruct (Z.of_nat (length (df_rows df)) <? n); [discriminate|].
  intros H. injection H as <-. intros x Hx.
  apply subseteq_take in Hx. apply elem_of_app in Hx as [Hx|Hx]; [|done].
  by apply subseteq_drop in Hx.
Qed.

(** [pick_validation_sample] with [build_label_index_map] (lines 73-84
    and 300-301): the sample is one row of features, and drawing it
    changes neither files, chain nor history.  When the table library
    samples rows of the table, the label of the sample is a label of the
    table, and in a table whose labels are all strings, or all integers,
    the label map has an index for it.  A label that is a missing value
    (NaN) has no entry in any label map. *)
Theorem pick_validation_sample_label_indexed E df w features label w' :
  (∀ seed rows, df_sample E df 1 seed = Ok rows → rows ⊆ df_rows df) →
  pick_validation_sample E df w = (Ok (features, label), w') →
  length features = 1%nat ∧
  label ∈ map snd (df_rows df) ∧
  (one_kind (map snd (df_rows df)) = true →
   ∃ m i, build_label_index_map E df = Ok m ∧ dict_get m label = Some i) ∧
  (label_is_nan label = true →
   ∀ m, build_label_index_map E df = Ok m → dict_get m label = None) ∧
  same_files w w' ∧ extends no_event w w'.
Proof.
  intros Hsample H. unfold pick_validation_sample in H.
  apply bind_Ok in H as (seed & w1 & Hseed & H).
  assert (same_files w w1 ∧ extends no_event w w1) as [Hf He].
  { unfold randint in Hseed. injection Hseed as _ <-. split; [done|].
    by apply extends_same. }
  apply bind_Ok in H as (sample & w2 & [Hs ->]%lift_Ok & H).
  destruct sample as [|[fs l] rest]; [discriminate|].
  apply ret_Ok in H as [H ->]. injection H as -> ->.
  assert (l ∈ map snd (df_rows df)) as Hl.
  { apply list_elem_of_fmap. exists (fs, l). split; [done|].
    apply (Hsample _ _ Hs). apply elem_of_cons. by left. }
  split_and!; try done.
  - intros Hk.
    destruct (build_label_index_map_one_kind E df Hk) as (Hb & _ & _ & Hin & Hget).
    pose proof Hl as Hl'. apply Hin, list_elem_of_lookup in Hl' as [i Hi].
    eexists _, i. split; [exact Hb|]. apply Hget; [|done].
    unfold one_kind in *. simpl.
    apply orb_true_iff in Hk as [Hk|Hk]; rewrite forallb_forall in Hk;
      rewrite (Hk l) by (by apply list_elem_of_In); rewrite !andb_true_l;
      apply orb_true_iff; [left|right]; by apply forallb_forall.
  - intros Hn m _. by apply dict_get_nan.
Qed.

(** On the small installation the sampled label is a label of the
    table. *)
Lemma pick_validation_sample_label_indexed_witness :
  ∃ features label w',
    pick_validation_sample (toy_externals toy_witness) toy_table toy_world
    = (Ok (features, label), w') ∧
    label ∈ map snd (df_rows toy_table).
Proof.
  assert (Hp : is_ok (pick_validation_sample (toy_externals toy_witness) toy_table
                        toy_world).1 = true) by (vm_compute; reflexivity).
  destruct (pick_validation_sample (toy_externals toy_witness) toy_table toy_world)
    as [[[features label]|e] w'] eqn:Hpick.
  - exists features, label, w'. split; [reflexivity|].
    eapply (pick_validation_sample_label_indexed (toy_externals toy_witness) toy_table
              toy_world features label w'); [|exact Hpick].
    intros seed rows. apply toy_df_sample_rows.
  - discriminate Hp.
Defined.
